(** * KB-Embedding: the streaming batch-embedding pipeline

    A shallow embedding of the three programs of the repository that turn
    line-delimited JSON records into records carrying an [embedding]:

    - [App]   : the browser pipeline, [processFile] and its helpers
                (app/src/App.jsx);
    - [Cli]   : the command line script scripts/embed_jsonl.js (one provider
                call per record);
    - [Local] : the in-process embedder (app/src/lib/localEmbedder.js).

    JavaScript strings are modelled by their UTF-8 encoding ([string], one
    [ascii] per byte), so that [TextEncoder().encode(s).length] is
    [String.length s]; strings with unpaired surrogates are outside the model.
    Numbers are floating point in the source; a JSON number is represented by
    the text [Number.prototype.toString] prints for it, which is all the
    pipeline ever observes of a number (truthiness, string conversion and
    serialisation).  What the host provides ([JSON.parse], the text of built-in
    error messages, floating-point rounding) and the embedding providers
    ([fetch], the local extractor) are parameters of the development. *)

From Stdlib Require Import String Ascii List Arith Bool Lia PeanoNat DecimalString.
From Stdlib Require QArith Qminmax.
Import ListNotations.

Local Open Scope string_scope.
Local Open Scope list_scope.
Local Open Scope nat_scope.

Notation "s1 +++ s2" := (String.append s1 s2)
  (at level 60, right associativity) : string_scope.

(** ** Strings *)

Module Str.

(** The double quote character, U+0022. *)
Definition dquote : ascii := ascii_of_nat 34.
Definition newline : ascii := ascii_of_nat 10.
Definition space : ascii := ascii_of_nat 32.

Definition is_empty (s : string) : bool :=
  match s with EmptyString => true | String _ _ => false end.

(** [Array.prototype.join] on strings. *)
Fixpoint join (sep : string) (l : list string) : string :=
  match l with
  | [] => EmptyString
  | [x] => x
  | x :: rest => x +++ sep +++ join sep rest
  end.

Fixpoint map_chars (f : ascii -> ascii) (s : string) : string :=
  match s with
  | EmptyString => EmptyString
  | String c rest => String (f c) (map_chars f rest)
  end.

(** [t.replace(/\n/g, ' ')]: U+000A is one byte in UTF-8 and never part of a
    longer sequence, so the replacement acts byte by byte. *)
Definition replace_newlines (t : string) : string :=
  map_chars (fun c => if Ascii.eqb c newline then space else c) t.

(** Number of bytes of the white space character a string starts with, [0]
    when it starts with none.  This is the class [\s] of a regular expression
    and the set [trim] strips: TAB, LF, VT, FF, CR, SPACE, U+00A0, U+1680,
    U+2000..U+200A, U+2028, U+2029, U+202F, U+205F, U+3000 and U+FEFF. *)
Definition ws_len (s : string) : nat :=
  match s with
  | EmptyString => 0
  | String c rest =>
      let n := nat_of_ascii c in
      if (n =? 9) || (n =? 10) || (n =? 11) || (n =? 12) || (n =? 13) || (n =? 32)
      then 1
      else
        match rest with
        | EmptyString => 0
        | String c1 rest1 =>
            let n1 := nat_of_ascii c1 in
            if (n =? 194) && (n1 =? 160) then 2
            else
              match rest1 with
              | EmptyString => 0
              | String c2 _ =>
                  let n2 := nat_of_ascii c2 in
                  if (n =? 225) && (n1 =? 154) && (n2 =? 128) then 3
                  else if (n =? 226) && (n1 =? 128)
                          && (((128 <=? n2) && (n2 <=? 138))
                              || (n2 =? 168) || (n2 =? 169) || (n2 =? 175))
                  then 3
                  else if (n =? 226) && (n1 =? 129) && (n2 =? 159) then 3
                  else if (n =? 227) && (n1 =? 128) && (n2 =? 128) then 3
                  else if (n =? 239) && (n1 =? 187) && (n2 =? 191) then 3
                  else 0
              end
        end
  end.

(** [text.replace(/\s+/g, ' ')]: every maximal run of white space becomes
    one space.  [skip] counts the bytes of the current white space character
    still to be dropped, [in_run] tells that the run already produced its
    space. *)
Fixpoint collapse_ws_from (skip : nat) (in_run : bool) (s : string) : string :=
  match s with
  | EmptyString => EmptyString
  | String c rest =>
      match skip with
      | S k => collapse_ws_from k in_run rest
      | O =>
          match ws_len s with
          | O => String c (collapse_ws_from 0 false rest)
          | S k =>
              if in_run then collapse_ws_from k true rest
              else String space (collapse_ws_from k true rest)
          end
      end
  end.

Definition collapse_ws (s : string) : string := collapse_ws_from 0 false s.

(** The string consists of white space characters only. *)
Fixpoint all_ws_from (skip : nat) (s : string) : bool :=
  match s with
  | EmptyString => true
  | String _ rest =>
      match skip with
      | S k => all_ws_from k rest
      | O =>
          match ws_len s with
          | O => false
          | S k => all_ws_from k rest
          end
      end
  end.

Definition all_ws (s : string) : bool := all_ws_from 0 s.

Fixpoint trim_start_from (skip : nat) (s : string) : string :=
  match s with
  | EmptyString => EmptyString
  | String _ rest =>
      match skip with
      | S k => trim_start_from k rest
      | O =>
          match ws_len s with
          | O => s
          | S k => trim_start_from k rest
          end
      end
  end.

Fixpoint trim_end (s : string) : string :=
  match s with
  | EmptyString => EmptyString
  | String c rest => if all_ws s then EmptyString else String c (trim_end rest)
  end.

(** [String.prototype.trim]. *)
Definition trim (s : string) : string := trim_end (trim_start_from 0 s).

(** [!line.trim()]: the line is blank. *)
Definition is_blank (s : string) : bool := is_empty (trim s).

Definition hex_digit (n : nat) : ascii :=
  if n <? 10 then ascii_of_nat (48 + n) else ascii_of_nat (87 + n).

(** Decimal text of a natural number, as a template literal prints it. *)
Definition of_nat (n : nat) : string := NilEmpty.string_of_uint (Nat.to_uint n).

End Str.

(** ** Exceptions *)

(** Errors the engine itself throws; their message text is the engine's. *)
Inductive builtin_error : Type :=
| SyntaxErr (text : string)         (* JSON.parse, response.json() *)
| NullProperty (prop : string)      (* reading a property of null *)
| NotAFunction (method : string)    (* calling a method the value lacks *)
| NotPrimitive.                     (* converting an object that has no usable
                                       toString or valueOf to a string *)

Inductive exn : Type :=
| Builtin (b : builtin_error)
| Rejected (message : string)       (* fetch rejected: network failure *)
| Error (message : string).         (* new Error(message) *)

Inductive result (A : Type) : Type :=
| Ok (a : A)
| Throw (e : exn).
Arguments Ok {A} a.
Arguments Throw {A} e.

Definition bind {A B : Type} (r : result A) (k : A -> result B) : result B :=
  match r with
  | Ok a => k a
  | Throw e => Throw e
  end.

Notation "'let!' x ':=' r 'in' k" := (bind r (fun x => k))
  (at level 10, x name, r at level 100, k at level 200).

(** ** JSON values, as [JSON.parse] returns them *)

Module Json.

Unset Elimination Schemes.
Inductive json : Type :=
| JNull
| JBool (b : bool)
| JNum (repr : string)
| JStr (s : string)
| JArr (items : list json)
| JObj (fields : list (string * json)).
Set Elimination Schemes.

(** A JavaScript value as the pipeline meets it: [None] is [undefined]. *)
Definition jsval : Type := option json.

(** ToBoolean. *)
Definition truthy (v : json) : bool :=
  match v with
  | JNull => false
  | JBool b => b
  | JNum repr => negb (String.eqb repr "0" || String.eqb repr "NaN")
  | JStr s => negb (Str.is_empty s)
  | JArr _ | JObj _ => true
  end.

Definition truthy_val (v : jsval) : bool :=
  match v with None => false | Some j => truthy j end.

Definition isArray (v : json) : bool :=
  match v with JArr _ => true | _ => false end.

(** Own property of an object; the fields are in property order and
    [JSON.parse] leaves one entry per key. *)
Fixpoint lookup (k : string) (fs : list (string * json)) : jsval :=
  match fs with
  | [] => None
  | (k', v) :: rest => if String.eqb k k' then Some v else lookup k rest
  end.

(** [record.k = v] on an object: an existing property keeps its place, a new
    one goes last. *)
Fixpoint set_field (k : string) (v : json) (fs : list (string * json))
  : list (string * json) :=
  match fs with
  | [] => [(k, v)]
  | (k', v') :: rest =>
      if String.eqb k k' then (k, v) :: rest else (k', v') :: set_field k v rest
  end.

Fixpoint remove_field (k : string) (fs : list (string * json))
  : list (string * json) :=
  match fs with
  | [] => []
  | (k', v') :: rest =>
      if String.eqb k k' then remove_field k rest else (k', v') :: remove_field k rest
  end.

(** QuoteJSONString on a well-formed string: the quote, the backslash and the
    control characters below U+0020 are escaped, every other byte is kept. *)
Definition escape_char (c : ascii) : string :=
  let n := nat_of_ascii c in
  if n =? 8 then "\b"
  else if n =? 9 then "\t"
  else if n =? 10 then "\n"
  else if n =? 12 then "\f"
  else if n =? 13 then "\r"
  else if n =? 34 then String "\" (String Str.dquote EmptyString)
  else if n =? 92 then "\\"
  else if n <? 32 then
    "\u00" +++ String (Str.hex_digit (n / 16)) (String (Str.hex_digit (n mod 16)) EmptyString)
  else String c EmptyString.

Fixpoint escape (s : string) : string :=
  match s with
  | EmptyString => EmptyString
  | String c rest => escape_char c +++ escape rest
  end.

Definition quote (s : string) : string :=
  String Str.dquote (escape s +++ String Str.dquote EmptyString).

(** [JSON.stringify] of a value [JSON.parse] returned. *)
Fixpoint JSON_stringify (v : json) : string :=
  match v with
  | JNull => "null"
  | JBool true => "true"
  | JBool false => "false"
  | JNum repr =>
      if String.eqb repr "NaN" || String.eqb repr "Infinity" || String.eqb repr "-Infinity"
      then "null" else repr
  | JStr s => quote s
  | JArr items => "[" +++ Str.join "," (map JSON_stringify items) +++ "]"
  | JObj fields =>
      "{" +++ Str.join ","
                (map (fun kv => quote (fst kv) +++ ":" +++ JSON_stringify (snd kv)) fields)
          +++ "}"
  end.

(** ToString, as a template literal applies it to [${...}].  An array is
    joined with commas, its [null] elements as empty strings.  An object is
    converted through its [toString] property: the inherited
    [Object.prototype.toString] gives "[object Object]", but the own property
    [JSON.parse] creates for a key "toString" holds a value that cannot be
    called, [valueOf] returns the object itself, and the conversion throws a
    TypeError. *)
Fixpoint toString (v : json) : result string :=
  match v with
  | JNull => Ok "null"
  | JBool true => Ok "true"
  | JBool false => Ok "false"
  | JNum repr => Ok repr
  | JStr s => Ok s
  | JArr items =>
      let! parts :=
        (fix each (l : list json) : result (list string) :=
           match l with
           | [] => Ok []
           | x :: rest =>
               let! part := match x with
                            | JNull => Ok EmptyString
                            | _ => toString x
                            end in
               let! parts := each rest in
               Ok (part :: parts)
           end) items in
      Ok (Str.join "," parts)
  | JObj fields =>
      match lookup "toString" fields with
      | Some _ => Throw (Builtin NotPrimitive)
      | None => Ok "[object Object]"
      end
  end.

Definition toString_val (v : jsval) : result string :=
  match v with None => Ok "undefined" | Some j => toString j end.

End Json.
Export Json.

(** ** The host *)

(** [item.prop]: reading a property of [null] throws; primitives and arrays
    have none of the properties the pipeline reads. *)
Definition get_prop (v : json) (k : string) : result jsval :=
  match v with
  | JNull => Throw (Builtin (NullProperty k))
  | JObj fields => Ok (lookup k fields)
  | _ => Ok None
  end.

(** A computation that may read and assign the properties of the record it
    is given: its result, or the exception it throws, and the record as the
    computation leaves it. *)
Module Rec.

Definition on_record (A : Type) : Type := json -> result A * json.

Definition ret {A : Type} (r : result A) : on_record A :=
  fun record => (r, record).

Definition bind {A B : Type} (m : on_record A) (k : A -> on_record B) : on_record B :=
  fun record =>
    match m record with
    | (Ok a, record') => k a record'
    | (Throw e, record') => (Throw e, record')
    end.

(** [record.k]. *)
Definition read (k : string) : on_record jsval :=
  fun record => (get_prop record k, record).

(** [record.k = v] on an object, the only kind of record the pipeline
    assigns to; a property holding [undefined] is skipped by
    [JSON.stringify], so the assignment of [undefined] is modelled by the
    record without the property. *)
Definition assign (k : string) (v : jsval) : on_record unit :=
  fun record =>
    (Ok tt,
     match record with
     | JObj fields =>
         match v with
         | Some j => JObj (set_field k j fields)
         | None => JObj (remove_field k fields)
         end
     | _ => record
     end).

End Rec.

Notation "'let*' x ':=' m 'in' k" := (Rec.bind m (fun x => k))
  (at level 10, x name, m at level 100, k at level 200).

Inductive fetch_result : Type :=
| FetchRejected (message : string)
| FetchResponse (status : nat) (body : string).

(** What [Math.round] returns on a quotient of byte counts. *)
Inductive rounded : Type :=
| RNaN
| RInfinity
| RInt (n : nat).

Record Host : Type := {
  JSON_parse : string -> option json;
  builtin_message : builtin_error -> string;
  (** [Math.round((processedBytes / totalSize) * 100)] in floating point *)
  round_percent : nat -> nat -> rounded
}.

(** [err.message]. *)
Definition message (H : Host) (e : exn) : string :=
  match e with
  | Builtin b => builtin_message H b
  | Rejected m => m
  | Error m => m
  end.

(** [response.ok]. *)
Definition response_ok (status : nat) : bool := (200 <=? status) && (status <=? 299).

(** ** The browser pipeline (app/src/App.jsx) *)

Module App.

Definition DEFAULT_API_URL : string := "http://192.168.1.236:9989/v1/embeddings".
Definition DEFAULT_MODEL : string := "Qwen3-Embedding-4B-GGUF".
Definition BATCH_SIZE : nat := 8.

Record config : Type := { apiUrl : string; model : string }.

(** The body of the POST request, [{model, input}], and where it goes. *)
Record request : Type := {
  req_url : string;
  req_model : string;
  req_input : list string
}.

Definition default_config : config :=
  {| apiUrl := DEFAULT_API_URL; model := DEFAULT_MODEL |}.

Inductive file_status : Type := st_pending | st_processing | st_done | st_error.

(** The [progress] a file item shows: [Math.min(99, ...)] or a literal. *)
Inductive progress_value : Type :=
| PNaN
| PInt (n : nat).

(** [Math.min(99, r)]. *)
Definition Math_min_99 (r : rounded) : progress_value :=
  match r with
  | RNaN => PNaN
  | RInfinity => PInt 99
  | RInt n => PInt (Nat.min 99 n)
  end.

(** The object URL of a [Blob] is modelled by the text of the blob. *)
Record file_item : Type := {
  status : file_status;
  progress : progress_value;
  total : nat;
  processed : nat;
  resultUrl : option string;
  error : option string
}.

(** What [addFiles] creates. *)
Definition new_item : file_item :=
  {| status := st_pending; progress := PInt 0; total := 0; processed := 0;
     resultUrl := None; error := None |}.

(** The [updates] object of [updateFileStatus]: the fields it carries. *)
Record update : Type := {
  u_status : option file_status;
  u_progress : option progress_value;
  u_processed : option nat;
  u_total : option nat;
  u_resultUrl : option string;
  u_error : option string
}.

Definition no_update : update :=
  {| u_status := None; u_progress := None; u_processed := None; u_total := None;
     u_resultUrl := None; u_error := None |}.

Definition or_else {A : Type} (o : option A) (d : A) : A :=
  match o with Some a => a | None => d end.

(** [{ ...f, ...updates }]. *)
Definition updateFileStatus (f : file_item) (u : update) : file_item :=
  {| status := or_else (u_status u) (status f);
     progress := or_else (u_progress u) (progress f);
     total := or_else (u_total u) (total f);
     processed := or_else (u_processed u) (processed f);
     resultUrl := match u_resultUrl u with Some url => Some url | None => resultUrl f end;
     error := match u_error u with Some m => Some m | None => error f end |}.

(** [getEmbeddingText]: no guard on the record, so reading [dense_context]
    of [null] throws; the template literal converts [question], then
    [answer], to a string, which throws for an object with a key "toString". *)
Definition getEmbeddingText (record : json) : result json :=
  let! dense_context := get_prop record "dense_context" in
  if truthy_val dense_context then Ok (or_else dense_context JNull)
  else
    let! question := get_prop record "question" in
    let! answer := get_prop record "answer" in
    if truthy_val question && truthy_val answer
    then
      let! q := toString_val question in
      let! a := toString_val answer in
      Ok (JStr ("Q: " +++ q +++ String Str.newline ("A: " +++ a)))
    else
      let! text := get_prop record "text" in
      if truthy_val text then Ok (or_else text JNull) else Ok (JStr EmptyString).

(** [record.embedding && Array.isArray(record.embedding)
     && record.embedding.length > 0], on a record that is not [null]. *)
Definition has_embedding (record : json) : bool :=
  match record with
  | JObj fields =>
      match lookup "embedding" fields with
      | Some (JArr (_ :: _)) => true
      | _ => false
      end
  | _ => false
  end.

(** [record.embedding = e; JSON.stringify(record)].  A property holding
    [undefined] is skipped by [JSON.stringify], so the assignment of
    [undefined] is modelled by the record without the property.  Only
    objects reach a batch. *)
Definition assign_embedding (record : json) (e : jsval) : json :=
  match record with
  | JObj fields =>
      match e with
      | Some v => JObj (set_field "embedding" v fields)
      | None => JObj (remove_field "embedding" fields)
      end
  | _ => record
  end.

(** [getEmbeddingText] as a computation on its argument, statement by
    statement: what it returns and the record it leaves. *)
Definition getEmbeddingText_on : Rec.on_record json :=
  let* dense_context := Rec.read "dense_context" in
  if truthy_val dense_context then Rec.ret (Ok (or_else dense_context JNull))
  else
    let* question := Rec.read "question" in
    let* answer := Rec.read "answer" in
    if truthy_val question && truthy_val answer
    then
      let* q := Rec.ret (toString_val question) in
      let* a := Rec.ret (toString_val answer) in
      Rec.ret (Ok (JStr ("Q: " +++ q +++ String Str.newline ("A: " +++ a))))
    else
      let* text := Rec.read "text" in
      if truthy_val text then Rec.ret (Ok (or_else text JNull))
      else Rec.ret (Ok (JStr EmptyString)).

(** [t.replace(/\n/g, ' ')] on one text; a text that is not a string has no
    [replace]. *)
Definition clean_text (t : json) : result string :=
  match t with
  | JStr s => Ok (Str.replace_newlines s)
  | _ => Throw (Builtin (NotAFunction "replace"))
  end.

Fixpoint map_result {A B : Type} (f : A -> result B) (l : list A) : result (list B) :=
  match l with
  | [] => Ok []
  | a :: rest =>
      let! b := f a in
      let! bs := map_result f rest in
      Ok (b :: bs)
  end.

(** [API Error ${response.status}${errorText ? `: ${errorText}` : ''}]. *)
Definition api_error_message (status : nat) (errorText : string) : string :=
  "API Error " +++ Str.of_nat status
    +++ (if Str.is_empty errorText then EmptyString else ": " +++ errorText).

Section WithHost.

Variable H : Host.
Variable cfg : config.
(** The provider: its answer to the [n]-th request of the run. *)
Variable fetch : nat -> request -> fetch_result.

(** The reply to a request whose [fetch] resolved ([response.ok] and
    onwards). *)
Definition read_response (status : nat) (body : string) : result (list jsval) :=
  if negb (response_ok status) then Throw (Error (api_error_message status body))
  else
    match JSON_parse H body with
    | None => Throw (Builtin (SyntaxErr body))
    | Some data =>
        let! d := get_prop data "data" in
        match d with
        | Some (JArr items) => map_result (fun item => get_prop item "embedding") items
        | _ => Throw (Error "Unexpected response format")
        end
    end.

(** [fetchBatchEmbeddings]; [calls] is the log of the requests sent so
    far in the run, the new request is added to it. *)
Definition fetchBatchEmbeddings (texts : list json) (calls : list request)
  : result (list jsval) * list request :=
  match map_result clean_text texts with
  | Throw e => (Throw e, calls)
  | Ok cleanTexts =>
      let req := {| req_url := apiUrl cfg; req_model := model cfg;
                    req_input := cleanTexts |} in
      match fetch (length calls) req with
      | FetchRejected m => (Throw (Rejected m), calls ++ [req])
      | FetchResponse status body => (read_response status body, calls ++ [req])
      end
  end.

Fixpoint push_embedded (records : list json) (embeddings : list jsval) : list string :=
  match records, embeddings with
  | record :: records', e :: embeddings' =>
      JSON_stringify (assign_embedding record e) :: push_embedded records' embeddings'
  | _, _ => []
  end.

(** [processBatch]: the new output buffer, or the error; nothing is
    pushed before the length check. *)
Definition processBatch (texts : list json) (records : list json)
           (outputBuffer : list string) (calls : list request)
  : result (list string) * list request :=
  match fetchBatchEmbeddings texts calls with
  | (Throw e, calls') => (Throw e, calls')
  | (Ok embeddings, calls') =>
      if negb (length embeddings =? length records)
      then (Throw (Error "Embedding service returned an unexpected payload"), calls')
      else (Ok (outputBuffer ++ push_embedded records embeddings), calls')
  end.

(** The local variables of [processFile], with the requests sent and the
    status updates made so far. *)
Record loop_state : Type := {
  processedBytes : nat;
  processedLines : list string;
  batch : list json;
  batchRecords : list json;
  processedCount : nat;
  calls : list request;
  updates : list update
}.

Definition initial_state : loop_state :=
  {| processedBytes := 0; processedLines := []; batch := []; batchRecords := [];
     processedCount := 0; calls := [];
     updates := [ {| u_status := Some st_processing; u_progress := Some (PInt 0);
                     u_processed := None; u_total := None; u_resultUrl := None;
                     u_error := None |} ] |}.

(** Lines 119-130: the record goes to the output or to the batch. *)
Definition dispatch (line : string) (record textToEmbed : json) (st : loop_state)
  : loop_state :=
  if has_embedding record then
    {| processedBytes := processedBytes st;
       processedLines := processedLines st ++ [JSON_stringify record];
       batch := batch st; batchRecords := batchRecords st;
       processedCount := S (processedCount st);
       calls := calls st; updates := updates st |}
  else if negb (truthy textToEmbed) then
    {| processedBytes := processedBytes st;
       processedLines := processedLines st ++ [line];
       batch := batch st; batchRecords := batchRecords st;
       processedCount := S (processedCount st);
       calls := calls st; updates := updates st |}
  else
    {| processedBytes := processedBytes st;
       processedLines := processedLines st;
       batch := batch st ++ [textToEmbed];
       batchRecords := batchRecords st ++ [record];
       processedCount := processedCount st;
       calls := calls st; updates := updates st |}.

Definition progress_update (totalSize : nat) (st : loop_state) (count : nat) : update :=
  {| u_status := None;
     u_progress := Some (Math_min_99 (round_percent H (processedBytes st) totalSize));
     u_processed := Some count; u_total := None; u_resultUrl := None;
     u_error := None |}.

(** Lines 132-144: a full batch is sent; the state when [processBatch]
    throws keeps the batch. *)
Definition flush_if_full (totalSize : nat) (st : loop_state) : loop_state * option exn :=
  if BATCH_SIZE <=? length (batch st) then
    match processBatch (batch st) (batchRecords st) (processedLines st) (calls st) with
    | (Throw e, calls') =>
        ({| processedBytes := processedBytes st; processedLines := processedLines st;
            batch := batch st; batchRecords := batchRecords st;
            processedCount := processedCount st;
            calls := calls'; updates := updates st |}, Some e)
    | (Ok outputBuffer, calls') =>
        let count := processedCount st + length (batch st) in
        ({| processedBytes := processedBytes st; processedLines := outputBuffer;
            batch := []; batchRecords := [];
            processedCount := count;
            calls := calls';
            updates := updates st ++ [progress_update totalSize st count] |}, None)
    end
  else (st, None).

(** The body of the inner [try] (lines 118-144): the state it leaves and
    what it threw, if anything. *)
Definition try_line (totalSize : nat) (line : string) (st : loop_state)
  : loop_state * option exn :=
  match JSON_parse H line with
  | None => (st, Some (Builtin (SyntaxErr line)))
  | Some record =>
      match getEmbeddingText record with
      | Throw e => (st, Some e)
      | Ok textToEmbed => flush_if_full totalSize (dispatch line record textToEmbed st)
      end
  end.

Definition add_bytes (line : string) (st : loop_state) : loop_state :=
  {| processedBytes := processedBytes st + (String.length line + 1);
     processedLines := processedLines st;
     batch := batch st; batchRecords := batchRecords st;
     processedCount := processedCount st;
     calls := calls st; updates := updates st |}.

Definition push_line (line : string) (st : loop_state) : loop_state :=
  {| processedBytes := processedBytes st;
     processedLines := processedLines st ++ [line];
     batch := batch st; batchRecords := batchRecords st;
     processedCount := processedCount st;
     calls := calls st; updates := updates st |}.

(** One turn of the [for await] loop (lines 114-150): whatever the [try]
    threw is caught, logged as a parse error, and the raw line pushed. *)
Definition loop_step (totalSize : nat) (st : loop_state) (line : string) : loop_state :=
  match try_line totalSize line (add_bytes line st) with
  | (st', None) => st'
  | (st', Some _) => push_line line st'
  end.

Definition run_loop (totalSize : nat) (lines : list string) (st : loop_state) : loop_state :=
  fold_left (loop_step totalSize) lines st.

(** [processedLines.join('\n')], the text of the blob. *)
Definition blob_text (lines : list string) : string :=
  Str.join (String Str.newline EmptyString) lines.

(** What a run leaves: the status updates in order, the requests sent, and
    the output lines behind [resultUrl] when there is one. *)
Record run : Type := {
  run_updates : list update;
  run_calls : list request;
  run_output : option (list string)
}.

Definition finish (st : loop_state) (outputBuffer : list string) (count : nat)
           (calls' : list request) : run :=
  {| run_updates := updates st ++
       [ {| u_status := Some st_done; u_progress := Some (PInt 100);
            u_processed := Some count; u_total := Some count;
            u_resultUrl := Some (blob_text outputBuffer); u_error := None |} ];
     run_calls := calls';
     run_output := Some outputBuffer |}.

Definition fail (st : loop_state) (e : exn) (calls' : list request) : run :=
  {| run_updates := updates st ++
       [ {| u_status := Some st_error; u_progress := None; u_processed := None;
            u_total := None; u_resultUrl := None; u_error := Some (message H e) |} ];
     run_calls := calls';
     run_output := None |}.

(** [processFile] on the lines [lineIterator] yields for a file of
    [totalSize] bytes. *)
Definition processFile (totalSize : nat) (lines : list string) : run :=
  let st := run_loop totalSize lines initial_state in
  if 0 <? length (batch st) then
    match processBatch (batch st) (batchRecords st) (processedLines st) (calls st) with
    | (Throw e, calls') => fail st e calls'
    | (Ok outputBuffer, calls') =>
        finish st outputBuffer (processedCount st + length (batch st)) calls'
    end
  else finish st (processedLines st) (processedCount st) (calls st).

(** The file item after the run. *)
Definition final_item (fileItem : file_item) (r : run) : file_item :=
  fold_left updateFileStatus (run_updates r) fileItem.

End WithHost.

End App.

(** ** The in-process embedder (app/src/lib/localEmbedder.js) *)

Module Local.

(** The transformers runtime: whether [pipeline('feature-extraction',
    modelId)] rejects, and what the extractor of a model returns on its
    [n]-th call ([Array.from(output.data)], a list of numbers). *)
Record runtime : Type := {
  pipeline : string -> option exn;
  extractor : string -> nat -> string -> result (list string)
}.

(** The module-level map [cachedPipelines], with the log of what was asked
    of the runtime. *)
Record state : Type := {
  cachedPipelines : list string;
  loads : list string;
  extractions : list (string * string)
}.

Definition empty_state : state :=
  {| cachedPipelines := []; loads := []; extractions := [] |}.

Definition has (modelId : string) (st : state) : bool :=
  existsb (String.eqb modelId) (cachedPipelines st).

(** [text.replace(/\s+/g, ' ').trim()]. *)
Definition clean (text : string) : string := Str.trim (Str.collapse_ws text).

Definition clean_text (text : json) : result string :=
  match text with
  | JStr s => Ok (clean s)
  | JNull => Throw (Builtin (NullProperty "replace"))
  | _ => Throw (Builtin (NotAFunction "replace"))
  end.

Section WithRuntime.

Variable R : runtime.

(** [loadPipeline]: the promise is created once per model and cached,
    also when it later rejects. *)
Definition loadPipeline (modelId : string) (st : state) : option exn * state :=
  let st' :=
    if has modelId st then st
    else {| cachedPipelines := cachedPipelines st ++ [modelId];
            loads := loads st ++ [modelId];
            extractions := extractions st |} in
  (pipeline R modelId, st').

(** The [for ... of texts] loop. *)
Fixpoint embed_each (modelId : string) (texts : list json) (st : state)
         (embeddings : list (list string)) : result (list (list string)) * state :=
  match texts with
  | [] => (Ok embeddings, st)
  | text :: rest =>
      match clean_text text with
      | Throw e => (Throw e, st)
      | Ok cleanText =>
          let st' := {| cachedPipelines := cachedPipelines st; loads := loads st;
                        extractions := extractions st ++ [(modelId, cleanText)] |} in
          match extractor R modelId (length (extractions st)) cleanText with
          | Throw e => (Throw e, st')
          | Ok data => embed_each modelId rest st' (embeddings ++ [data])
          end
      end
  end.

(** [embedTextsLocally]; [texts] is whatever the caller passed. *)
Definition embedTextsLocally (texts : jsval) (modelId : string) (st : state)
  : result (list (list string)) * state :=
  match texts with
  | Some (JArr (text :: rest)) =>
      match loadPipeline modelId st with
      | (Some e, st') => (Throw e, st')
      | (None, st') => embed_each modelId (text :: rest) st' []
      end
  | _ => (Ok [], st)
  end.

End WithRuntime.

End Local.

(** ** The command line script (scripts/embed_jsonl.js) *)

Module Cli.

Record request : Type := {
  req_url : string;
  req_model : string;
  req_input : string
}.

(** [getEmbeddingText], with its guard on values that are not objects. *)
Definition getEmbeddingText (record : json) : result json :=
  match record with
  | JObj _ | JArr _ =>
      let! dense_context := get_prop record "dense_context" in
      if truthy_val dense_context then Ok (App.or_else dense_context JNull)
      else
        let! question := get_prop record "question" in
        let! answer := get_prop record "answer" in
        if truthy_val question && truthy_val answer
        then
          let! q := toString_val question in
          let! a := toString_val answer in
          Ok (JStr ("Q: " +++ q +++ String Str.newline ("A: " +++ a)))
        else
          let! text := get_prop record "text" in
          if truthy_val text then Ok (App.or_else text JNull) else Ok (JStr EmptyString)
  | _ => Ok (JStr EmptyString)
  end.

(** The same function as a computation on its argument. *)
Definition getEmbeddingText_on : Rec.on_record json :=
  fun record =>
    match record with
    | JObj _ | JArr _ =>
        (let* dense_context := Rec.read "dense_context" in
         if truthy_val dense_context then Rec.ret (Ok (App.or_else dense_context JNull))
         else
           let* question := Rec.read "question" in
           let* answer := Rec.read "answer" in
           if truthy_val question && truthy_val answer
           then
             let* q := Rec.ret (toString_val question) in
             let* a := Rec.ret (toString_val answer) in
             Rec.ret (Ok (JStr ("Q: " +++ q +++ String Str.newline ("A: " +++ a))))
           else
             let* text := Rec.read "text" in
             if truthy_val text then Rec.ret (Ok (App.or_else text JNull))
             else Rec.ret (Ok (JStr EmptyString))) record
    | _ => (Ok (JStr EmptyString), record)
    end.

(** [v[0]] on a truthy value.  Of a string only the fact that its first
    character is a non-empty string is observed. *)
Definition index0 (v : json) : jsval :=
  match v with
  | JArr (x :: _) => Some x
  | JObj fields => lookup "0" fields
  | JStr (String c _) => Some (JStr (String c EmptyString))
  | _ => None
  end.

(** [API Error: ${response.status} ${body}]. *)
Definition api_error_message (status : nat) (body : string) : string :=
  "API Error: " +++ Str.of_nat status +++ " " +++ body.

Record state : Type := {
  processedCount : nat;
  errorCount : nat;
  skippedCount : nat;
  written : list string;           (* the chunks given to outputStream.write *)
  calls : list request;            (* requests sent to the API *)
  pipelineRequested : bool;        (* transformerPipelinePromise is set *)
  extractions : list string        (* texts given to the local extractor *)
}.

Definition initial_state : state :=
  {| processedCount := 0; errorCount := 0; skippedCount := 0; written := [];
     calls := []; pipelineRequested := false; extractions := [] |}.

Section WithHost.

Variable H : Host.
Variable EMBEDDING_PROVIDER : string.
Variable API_URL MODEL_NAME TRANSFORMER_MODEL : string.
Variable fetch : nat -> request -> fetch_result.
Variable R : Local.runtime.

(** What follows [await fetch(...)] in [fetchEmbeddingViaApi]. *)
Definition read_response (status : nat) (body : string) : result json :=
  if negb (response_ok status) then Throw (Error (api_error_message status body))
  else
    match JSON_parse H body with
    | None => Throw (Builtin (SyntaxErr body))
    | Some data =>
        let! d := get_prop data "data" in
        let first := match d with
                     | Some dv => if truthy dv then index0 dv else None
                     | None => None
                     end in
        let! embedding := match first with
                          | Some f => if truthy f then get_prop f "embedding" else Ok None
                          | None => Ok None
                          end in
        match embedding with
        | Some e =>
            if truthy e then Ok e
            else if isArray data then Ok data
                 else Throw (Error "Unexpected response format")
        | None =>
            if isArray data then Ok data
            else Throw (Error "Unexpected response format")
        end
    end.

Definition with_call (st : state) (req : request) : state :=
  {| processedCount := processedCount st; errorCount := errorCount st;
     skippedCount := skippedCount st; written := written st;
     calls := calls st ++ [req];
     pipelineRequested := pipelineRequested st; extractions := extractions st |}.

Definition fetchEmbeddingViaApi (text : json) (st : state) : result json * state :=
  match text with
  | JStr s =>
      let req := {| req_url := API_URL; req_model := MODEL_NAME;
                    req_input := Str.replace_newlines s |} in
      match fetch (length (calls st)) req with
      | FetchRejected m => (Throw (Rejected m), with_call st req)
      | FetchResponse status body => (read_response status body, with_call st req)
      end
  | _ => (Throw (Builtin (NotAFunction "replace")), st)
  end.

Definition fetchEmbeddingWithTransformers (text : json) (st : state)
  : result json * state :=
  let st1 := {| processedCount := processedCount st; errorCount := errorCount st;
                skippedCount := skippedCount st; written := written st;
                calls := calls st;
                pipelineRequested := true; extractions := extractions st |} in
  match Local.pipeline R TRANSFORMER_MODEL with
  | Some e => (Throw e, st1)
  | None =>
      match text with
      | JStr s =>
          let cleanText := Str.trim (Str.collapse_ws s) in
          let st2 := {| processedCount := processedCount st; errorCount := errorCount st;
                        skippedCount := skippedCount st; written := written st;
                        calls := calls st;
                        pipelineRequested := true;
                        extractions := extractions st ++ [cleanText] |} in
          match Local.extractor R TRANSFORMER_MODEL (length (extractions st)) cleanText with
          | Throw e => (Throw e, st2)
          | Ok data => (Ok (JArr (map JNum data)), st2)
          end
      | _ => (Throw (Builtin (NotAFunction "replace")), st1)
      end
  end.

(** [fetchEmbedding]: every failure is logged and becomes [null]. *)
Definition fetchEmbedding (text : json) (st : state) : option json * state :=
  let '(r, st') :=
    if String.eqb EMBEDDING_PROVIDER "transformers"
    then fetchEmbeddingWithTransformers text st
    else fetchEmbeddingViaApi text st in
  match r with
  | Ok e => (Some e, st')
  | Throw _ => (None, st')
  end.

Definition write (chunk : string) (st : state) : state :=
  {| processedCount := processedCount st; errorCount := errorCount st;
     skippedCount := skippedCount st; written := written st ++ [chunk];
     calls := calls st;
     pipelineRequested := pipelineRequested st; extractions := extractions st |}.

Definition count_processed (st : state) : state :=
  {| processedCount := S (processedCount st); errorCount := errorCount st;
     skippedCount := skippedCount st; written := written st; calls := calls st;
     pipelineRequested := pipelineRequested st; extractions := extractions st |}.

Definition count_error (st : state) : state :=
  {| processedCount := processedCount st; errorCount := S (errorCount st);
     skippedCount := skippedCount st; written := written st; calls := calls st;
     pipelineRequested := pipelineRequested st; extractions := extractions st |}.

Definition count_skipped (st : state) : state :=
  {| processedCount := processedCount st; errorCount := errorCount st;
     skippedCount := S (skippedCount st); written := written st; calls := calls st;
     pipelineRequested := pipelineRequested st; extractions := extractions st |}.

(** [JSON.stringify(record) + '\n']. *)
Definition output_chunk (record : json) : string :=
  JSON_stringify record +++ String Str.newline EmptyString.

(** [console.error(`\nFailed to embed record: ${record.id}`)], inside the
    [try]: when the conversion of [record.id] to a string throws, the [catch]
    counts an error once more. *)
Definition log_failed (record : json) (st : state) : state :=
  match (let! id := get_prop record "id" in toString_val id) with
  | Ok _ => st
  | Throw _ => count_error st
  end.

(** One turn of the [for await (const line of rl)] loop. *)
Definition loop_step (st : state) (line : string) : state :=
  if Str.is_blank line then st
  else
    match JSON_parse H line with
    | None => count_error st
    | Some record =>
        match getEmbeddingText record with
        | Throw _ => count_error st
        | Ok textToEmbed =>
            if negb (truthy textToEmbed)
            then write (output_chunk record) (count_skipped st)
            else if App.has_embedding record
            then count_processed (write (output_chunk record) st)
            else
              match fetchEmbedding textToEmbed st with
              | (Some embedding, st') =>
                  count_processed
                    (write (output_chunk (App.assign_embedding record (Some embedding))) st')
              | (None, st') => log_failed record (count_error st')
              end
        end
    end.

(** The script on the lines [readline] yields. *)
Definition main (lines : list string) : state :=
  fold_left loop_step lines initial_state.

End WithHost.

End Cli.

(** ** Hosts and providers of the examples *)

Module Demo.

(** [JSON.parse] on the documents of an example: a text parses to the
    document it is the serialisation of, any other text is a syntax error. *)
Definition parse_known (docs : list json) (text : string) : option json :=
  find (fun doc => String.eqb (JSON_stringify doc) text) docs.

(** Rounding of the exact quotient, halves up: [Math.round] in floating
    point agrees with it on the byte counts of the examples. *)
Definition exact_round (processedBytes totalSize : nat) : rounded :=
  if totalSize =? 0 then (if processedBytes =? 0 then RNaN else RInfinity)
  else RInt ((200 * processedBytes + totalSize) / (2 * totalSize)).

Definition messages (b : builtin_error) : string :=
  match b with
  | SyntaxErr _ => "Unexpected token in JSON"
  | NullProperty p => "Cannot read properties of null (reading " +++ p +++ ")"
  | NotAFunction m => m +++ " is not a function"
  | NotPrimitive => "Cannot convert object to primitive value"
  end.

Definition host (docs : list json) : Host :=
  {| JSON_parse := parse_known docs;
     builtin_message := messages;
     round_percent := exact_round |}.

(** [JSON.parse] given by a table of texts and the documents they parse to;
    any other text is a syntax error. *)
Definition parse_table (table : list (string * json)) (text : string) : option json :=
  option_map snd (find (fun entry => String.eqb (fst entry) text) table).

Definition host_of (table : list (string * json)) : Host :=
  {| JSON_parse := parse_table table;
     builtin_message := messages;
     round_percent := exact_round |}.

(** The OpenAI-compatible reply [{data: [{embedding: e}, ...]}]. *)
Definition reply (embeddings : list json) : json :=
  JObj [("data", JArr (map (fun e => JObj [("embedding", e)]) embeddings))].

Definition replies (e : json) (upto : nat) : list json :=
  map (fun n => reply (repeat e n)) (seq 0 (S upto)).

(** A provider that answers every text with the embedding [e]. *)
Definition stub (e : json) (n : nat) (req : App.request) : fetch_result :=
  FetchResponse 200 (JSON_stringify (reply (map (fun _ => e) (App.req_input req)))).

(** The same provider, except that its [k]-th answer is a 500. *)
Definition failing_at (k : nat) (e : json) (n : nat) (req : App.request) : fetch_result :=
  if n =? k then FetchResponse 500 "overloaded" else stub e n req.

(** The record [{"id": i, "text": "t"}]. *)
Definition text_record (i : nat) : json :=
  JObj [("id", JNum (Str.of_nat i)); ("text", JStr "t")].

Definition text_lines (n : nat) : list string :=
  map (fun i => JSON_stringify (text_record i)) (seq 1 n).

Definition text_docs (n : nat) : list json := map text_record (seq 1 n).

End Demo.

(** ** The vocabulary of the specification *)

(** The dispositions of the record classifier, read off [App.try_line]: what
    the inner [try] of [processFile] does with a line before any batch is
    sent.  A line whose text extraction throws is caught like a line that does
    not parse. *)
Inductive disposition : Type :=
| ParseError
| PassThrough (out : string)
| NeedsEmbedding (record text : json).

Definition classify (H : Host) (line : string) : disposition :=
  match JSON_parse H line with
  | None => ParseError
  | Some record =>
      match App.getEmbeddingText record with
      | Throw _ => ParseError
      | Ok textToEmbed =>
          if App.has_embedding record then PassThrough (JSON_stringify record)
          else if negb (truthy textToEmbed) then PassThrough line
          else NeedsEmbedding record textToEmbed
      end
  end.

(** The output lines that do not wait for a batch, in input order. *)
Definition immediate_lines (H : Host) (lines : list string) : list string :=
  flat_map (fun line => match classify H line with
                        | ParseError => [line]
                        | PassThrough out => [out]
                        | NeedsEmbedding _ _ => []
                        end) lines.

(** The records that need an embedding, and their texts, in input order. *)
Definition needs_records (H : Host) (lines : list string) : list json :=
  flat_map (fun line => match classify H line with
                        | NeedsEmbedding record _ => [record]
                        | _ => []
                        end) lines.

Definition needs_texts (H : Host) (lines : list string) : list json :=
  flat_map (fun line => match classify H line with
                        | NeedsEmbedding _ text => [text]
                        | _ => []
                        end) lines.

(** The lines as the classifier hands them on, in input order: the output of
    a line that does not wait for a batch, or the record that does. *)
Definition classified (H : Host) (lines : list string) : list (string + json) :=
  map (fun line => match classify H line with
                   | ParseError => inl line
                   | PassThrough out => inl out
                   | NeedsEmbedding record _ => inr record
                   end) lines.

(** The order of the output, batch-flush order: an item that does not wait
    is output when it is read; an item that waits joins the waiting ones and
    is output with them when they are [size], or at the end of the stream. *)
Fixpoint flush_order {A B : Type} (size : nat) (waiting : list B) (items : list (A + B))
  : list (A + B) :=
  match items with
  | [] => map inr waiting
  | inl x :: rest => inl x :: flush_order size waiting rest
  | inr y :: rest =>
      let waiting' := waiting ++ [y] in
      if size <=? length waiting'
      then map inr waiting' ++ flush_order size [] rest
      else flush_order size waiting' rest
  end.

(** The records among the items. *)
Definition records_of {A B : Type} (items : list (A + B)) : list B :=
  flat_map (fun item => match item with inl _ => [] | inr y => [y] end) items.

(** The output lines of items in output order: a line as it is, a record
    serialised with the embedding that is its by position. *)
Fixpoint render_outputs (items : list (string + json)) (embeddings : list jsval)
  : list string :=
  match items with
  | [] => []
  | inl out :: rest => out :: render_outputs rest embeddings
  | inr record :: rest =>
      match embeddings with
      | e :: embeddings' =>
          JSON_stringify (App.assign_embedding record e) :: render_outputs rest embeddings'
      | [] => render_outputs rest []
      end
  end.

(** The strings among a list of texts. *)
Definition strings_of (texts : list json) : list string :=
  flat_map (fun t => match t with JStr s => [s] | _ => [] end) texts.

Definition is_string (t : json) : bool :=
  match t with JStr _ => true | _ => false end.

(** Every text to embed is a string (a [dense_context] or [text] holding
    another kind of value makes [replace] fail). *)
Definition texts_are_strings (H : Host) (lines : list string) : Prop :=
  forallb is_string (needs_texts H lines) = true.

(** The batcher of the specification (section 4.3): each item is appended to
    the current batch; a batch that reaches [size] is emitted at once and a new
    one started.  The result is the batches emitted and the batch left open. *)
Fixpoint batcher {A : Type} (size : nat) (current : list A) (items : list A)
  : list (list A) * list A :=
  match items with
  | [] => ([], current)
  | x :: rest =>
      let current' := current ++ [x] in
      if size <=? length current'
      then let '(emitted, open) := batcher size [] rest in (current' :: emitted, open)
      else batcher size current' rest
  end.

(** On exhaustion of the stream a partial batch that is not empty is emitted
    too. *)
Definition batches {A : Type} (size : nat) (items : list A) : list (list A) :=
  let '(emitted, open) := batcher size [] items in
  match open with
  | [] => emitted
  | _ :: _ => emitted ++ [open]
  end.

(** [m] interleaves [l1] and [l2]: both keep their order in [m], and [m] has
    nothing else. *)
Inductive Interleave {A : Type} : list A -> list A -> list A -> Prop :=
| Interleave_nil : Interleave [] [] []
| Interleave_left x l1 l2 m : Interleave l1 l2 m -> Interleave (x :: l1) l2 (x :: m)
| Interleave_right x l1 l2 m : Interleave l1 l2 m -> Interleave l1 (x :: l2) (x :: m).

(** A provider that answers every request of at most [BATCH_SIZE] texts with
    a well-formed reply of the requested length. *)
Definition answers_all (H : Host) (fetch : nat -> App.request -> fetch_result) : Prop :=
  forall n req,
    length (App.req_input req) <= App.BATCH_SIZE ->
    exists status body embeddings,
      fetch n req = FetchResponse status body
      /\ App.read_response H status body = Ok embeddings
      /\ length embeddings = length (App.req_input req).

(** The record already carries a non-empty [embedding] array. *)
Definition already_embedded (H : Host) (line : string) : bool :=
  match JSON_parse H line with
  | Some record => App.has_embedding record
  | None => false
  end.

(** The text extraction of the record of the line returns. *)
Definition extracts (H : Host) (line : string) : bool :=
  match JSON_parse H line with
  | Some record =>
      match App.getEmbeddingText record with
      | Ok _ => true
      | Throw _ => false
      end
  | None => false
  end.

(** The record of the line carries an embedding and its text extraction
    returns. *)
Definition passes_through (H : Host) (line : string) : bool :=
  already_embedded H line && extracts H line.

(** The serialisation of the record of a line parses again, to the same
    record. *)
Definition round_trips (H : Host) (line : string) : Prop :=
  forall record,
    JSON_parse H line = Some record ->
    JSON_parse H (JSON_stringify record) = Some record.

(** [JSON.stringify(JSON.parse(line))]. *)
Definition reserialise (H : Host) (line : string) : string :=
  match JSON_parse H line with
  | Some record => JSON_stringify record
  | None => line
  end.

(** The value converts to a string: it is not, and does not hold in nested
    arrays, an object with a key "toString". *)
Fixpoint printable (v : json) : bool :=
  match v with
  | JArr items => forallb printable items
  | JObj fields =>
      match lookup "toString" fields with
      | Some _ => false
      | None => true
      end
  | _ => true
  end.

(** The combination "Q: {question}", newline, "A: {answer}" of section 3. *)
Definition question_answer (question answer : json) : result json :=
  let! q := toString question in
  let! a := toString answer in
  Ok (JStr ("Q: " +++ q +++ String Str.newline ("A: " +++ a))).

(** The text extraction as section 3 words it: the first field present, in
    the order [dense_context], [question] with [answer], [text]. *)
Definition embeddable_text_by_presence (fields : list (string * json)) : result json :=
  match lookup "dense_context" fields with
  | Some dense_context => Ok dense_context
  | None =>
      match lookup "question" fields, lookup "answer" fields with
      | Some question, Some answer => question_answer question answer
      | _, _ =>
          match lookup "text" fields with
          | Some text => Ok text
          | None => Ok (JStr EmptyString)
          end
      end
  end.

(** The value of a field when it is truthy. *)
Definition truthy_field (k : string) (fields : list (string * json)) : option json :=
  match lookup k fields with
  | Some v => if truthy v then Some v else None
  | None => None
  end.

(** The same priority order on truthy fields. *)
Definition embeddable_text_by_truthiness (fields : list (string * json)) : result json :=
  match truthy_field "dense_context" fields with
  | Some dense_context => Ok dense_context
  | None =>
      match truthy_field "question" fields, truthy_field "answer" fields with
      | Some question, Some answer => question_answer question answer
      | _, _ =>
          match truthy_field "text" fields with
          | Some text => Ok text
          | None => Ok (JStr EmptyString)
          end
      end
  end.

(** The progress stays short of 100. *)
Definition below_100 (p : App.progress_value) : Prop :=
  match p with
  | App.PNaN => True
  | App.PInt n => n <= 99
  end.

(** The argument is an array with at least one element. *)
Definition nonempty_array (texts : jsval) : bool :=
  match texts with
  | Some (JArr (_ :: _)) => true
  | _ => false
  end.

(** The request [fetchBatchEmbeddings] sends for the cleaned texts [input]. *)
Definition request_for (cfg : App.config) (input : list string) : App.request :=
  {| App.req_url := App.apiUrl cfg; App.req_model := App.model cfg;
     App.req_input := input |}.

(** The texts of a batch as they are submitted. *)
Definition cleaned (texts : list json) : list string :=
  map Str.replace_newlines (strings_of texts).

(** The batch of a loop state is open: it holds strings, fewer than
    [BATCH_SIZE], with one record each. *)
Definition open_batch (st : App.loop_state) : Prop :=
  App.batch st = map JStr (strings_of (App.batch st))
  /\ length (App.batch st) < App.BATCH_SIZE
  /\ length (App.batchRecords st) = length (App.batch st).

(** The value of the field [id] of the record on a line, the stable
    identifying field of section 8. *)
Definition line_id (H : Host) (line : string) : option json :=
  match JSON_parse H line with
  | Some (JObj fields) => lookup "id" fields
  | _ => None
  end.

(** The size of the file whose non-blank lines are [lines], each followed by
    one newline. *)
Definition file_size (lines : list string) : nat :=
  fold_right (fun line n => String.length line + 1 + n) 0 lines.

(** The lines that are not blank. *)
Definition non_blank (lines : list string) : list string :=
  filter (fun line => negb (Str.is_blank line)) lines.

(** The progress as section 4.6 words it: [min(99, consumedBytes / totalBytes)]. *)
Definition progress_as_stated (consumedBytes totalBytes : nat) : QArith_base.Q :=
  Qminmax.Qmin (QArith_base.inject_Z (BinInt.Z.of_nat 99))
               (QArith_base.Qmake (BinInt.Z.of_nat consumedBytes)
                                  (BinPos.Pos.of_nat totalBytes)).

(** The same read as a percentage: [min(99, 100 * consumedBytes / totalBytes)]. *)
Definition percentage_as_stated (consumedBytes totalBytes : nat) : QArith_base.Q :=
  Qminmax.Qmin (QArith_base.inject_Z (BinInt.Z.of_nat 99))
               (QArith_base.Qmake (BinInt.Z.of_nat (100 * consumedBytes))
                                  (BinPos.Pos.of_nat totalBytes)).

(** The update that follows a batch sent from the loop. *)
Definition is_progress_update (H : Host) (totalSize : nat) (u : App.update) : Prop :=
  exists processedBytes count,
    u = {| App.u_status := None;
           App.u_progress := Some (App.Math_min_99 (round_percent H processedBytes totalSize));
           App.u_processed := Some count; App.u_total := None;
           App.u_resultUrl := None; App.u_error := None |}.

(** The first update of every run. *)
Definition processing_update : App.update :=
  {| App.u_status := Some App.st_processing; App.u_progress := Some (App.PInt 0);
     App.u_processed := None; App.u_total := None; App.u_resultUrl := None;
     App.u_error := None |}.

(** The chunk the script writes for a line: the record of the line, as it was
    parsed or with the embedding the provider returned. *)
Definition cli_line_output (H : Host) (line chunk : string) : Prop :=
  exists record,
    JSON_parse H line = Some record
    /\ (chunk = Cli.output_chunk record
        \/ exists e, chunk = Cli.output_chunk (App.assign_embedding record (Some e))).

(** What was written line by line: at most one chunk per line, and the chunk
    of a line is the output of that line. *)
Definition written_in_order (H : Host) (lines : list string) (written : list string) : Prop :=
  exists outs : list (option string),
    Forall2 (fun line o => match o with
                           | Some chunk => cli_line_output H line chunk
                           | None => True
                           end) lines outs
    /\ written = flat_map (fun o => match o with Some chunk => [chunk] | None => [] end) outs.

(** ** Inputs of the examples *)

(** A record whose [question] is present but empty. *)
Definition empty_question_fields : list (string * json) :=
  [("question", JStr EmptyString); ("answer", JStr "yes"); ("text", JStr "t")].

(** The record [{"question": {"toString": 1}, "answer": "a"}]. *)
Definition unprintable_question_fields : list (string * json) :=
  [("question", JObj [("toString", JNum "1")]); ("answer", JStr "a")].

(** A runtime whose model loads and whose extractor returns one number. *)
Definition unit_runtime : Local.runtime :=
  {| Local.pipeline := fun _ => None;
     Local.extractor := fun _ _ _ => Ok ["1"] |}.

(** A text with two spaces in a row and no newline. *)
Definition two_spaces : string := "a  b".

(** The embedding [[0.1]]. *)
Definition e01 : json := JArr [JNum "0.1"].

(** The record [{"id": i, "text": "t", "embedding": [0.1]}]. *)
Definition embedded_record (i : nat) : json :=
  JObj [("id", JNum (Str.of_nat i)); ("text", JStr "t"); ("embedding", e01)].

(** The record [{"id": i}], which has no text to embed. *)
Definition bare_record (i : nat) : json := JObj [("id", JNum (Str.of_nat i))].

(** Twenty records with a text; the host knows them and the replies to
    requests of up to nine texts. *)
Definition twenty_lines : list string := Demo.text_lines 20.

Definition twenty_host : Host := Demo.host (Demo.text_docs 20 ++ Demo.replies e01 9).

(** A record with a text followed by a record without. *)
Definition text_then_bare : list string :=
  [JSON_stringify (Demo.text_record 1); JSON_stringify (bare_record 2)].

Definition text_then_bare_host : Host :=
  Demo.host ([Demo.text_record 1; bare_record 2; embedded_record 1; embedded_record 2]
             ++ Demo.replies e01 8).

(** An embedded record on a line that starts with two spaces. *)
Definition spaced_line : string := "  " +++ JSON_stringify (embedded_record 1).

Definition spaced_host : Host :=
  Demo.host_of [(spaced_line, embedded_record 1);
                (JSON_stringify (embedded_record 1), embedded_record 1)].

(** The record [{"question": {"toString": 1}, "answer": "a",
    "embedding": [0.1]}]. *)
Definition unprintable_embedded : json :=
  JObj (unprintable_question_fields ++ [("embedding", e01)]).

Definition unprintable_host : Host := Demo.host [unprintable_embedded].

(** Two records that already carry an embedding. *)
Definition embedded_lines : list string :=
  [JSON_stringify (embedded_record 1); JSON_stringify (embedded_record 2)].

(** The three lines of the malformed-line example of section 8:
    [{"text":"a"}], [NOT_JSON], [{"text":"b"}]. *)
Definition text_a : json := JObj [("text", JStr "a")].
Definition text_b : json := JObj [("text", JStr "b")].

Definition three_lines : list string :=
  [JSON_stringify text_a; "NOT_JSON"; JSON_stringify text_b].

Definition three_host : Host := Demo.host ([text_a; text_b] ++ Demo.replies e01 8).

(** [{"text":"a","embedding":[0.1]}]. *)
Definition text_embedded (t : string) : json :=
  JObj [("text", JStr t); ("embedding", e01)].

(** A provider of the script that answers every request with [[0.1]] in the
    OpenAI shape. *)
Definition cli_stub (n : nat) (req : Cli.request) : fetch_result :=
  FetchResponse 200 (JSON_stringify (Demo.reply [e01])).

(** The failure-abort example of section 8: twenty records, the provider
    answers the second request with a 500. *)
Definition second_batch_fails : App.run :=
  App.processFile twenty_host App.default_config (Demo.failing_at 1 e01)
                  (file_size twenty_lines) twenty_lines.

(** Twenty records with a provider that answers. *)
Definition twenty_run : App.run :=
  App.processFile twenty_host App.default_config (Demo.stub e01)
                  (file_size twenty_lines) twenty_lines.

(** A bare array as the body of a reply, [[0.5]], and a host that knows it. *)
Definition bare_array : json := JArr [JNum "0.5"].

Definition bare_array_host : Host := Demo.host [text_a; bare_array].

Definition bare_array_reply (n : nat) (req : Cli.request) : fetch_result :=
  FetchResponse 200 (JSON_stringify bare_array).

(** The three lines of section 8 with a provider that answers. *)
Definition three_run : App.run :=
  App.processFile three_host App.default_config (Demo.stub e01)
                  (file_size three_lines) three_lines.

(** ** The line source and the file list (app/src/App.jsx) *)

Module Ui.

(** [buffer.split('\n')]: the first piece and the pieces after it. *)
Fixpoint split_first (s : string) : string * list string :=
  match s with
  | EmptyString => (EmptyString, [])
  | String c rest =>
      let '(piece, pieces) := split_first rest in
      if Ascii.eqb c Str.newline then (EmptyString, piece :: pieces)
      else (String c piece, pieces)
  end.

Definition split_newline (s : string) : list string :=
  let '(piece, pieces) := split_first s in piece :: pieces.

(** The body of the [while] loop of [lineIterator], on the texts the decoder
    returns for the chunks still to come.  With a chunk: the buffer grows, is
    split, keeps its last piece ([lines.pop()]) and the other pieces that are
    not blank are yielded.  With the reader done: the loop runs once more when
    the buffer is not empty, and yields it whole. *)
Fixpoint lineIterator_from (buffer : string) (chunks : list string) : list string :=
  match chunks with
  | [] =>
      if Str.is_empty buffer then []
      else filter (fun line => negb (Str.is_blank line)) (split_newline buffer)
  | chunk :: rest =>
      let lines := split_newline (buffer +++ chunk) in
      filter (fun line => negb (Str.is_blank line)) (removelast lines)
      ++ lineIterator_from (last lines EmptyString) rest
  end.

(** [lineIterator(file)] on the decoded chunks of the stream of the file. *)
Definition lineIterator (chunks : list string) : list string :=
  lineIterator_from EmptyString chunks.

(** A [File]: its name, its size in bytes and the decoded chunks of its
    stream. *)
Record File : Type := {
  name : string;
  size : nat;
  chunks : list string
}.

(** An element of the [files] state: the file, its id and the fields
    [status], [progress], [total], [processed], [resultUrl], [error]. *)
Record entry : Type := {
  file : File;
  id : string;
  item : App.file_item
}.

(** [addFiles]; every file comes with the id [Math.random] gave it. *)
Definition addFiles (fileList : list (File * string)) (files : list entry) : list entry :=
  files ++ map (fun fi => {| file := fst fi; id := snd fi; item := App.new_item |}) fileList.

(** [removeFile]. *)
Definition removeFile (isProcessing : bool) (i : string) (files : list entry) : list entry :=
  if isProcessing then files
  else filter (fun f => negb (String.eqb (id f) i)) files.

(** [clearAll]. *)
Definition clearAll (isProcessing : bool) (files : list entry) : list entry :=
  if isProcessing then files else [].

(** [updateFileStatus(id, updates)] on the [files] state. *)
Definition updateFileStatus (i : string) (u : App.update) (files : list entry) : list entry :=
  map (fun f => if String.eqb (id f) i
                then {| file := file f; id := id f;
                        item := App.updateFileStatus (item f) u |}
                else f) files.

(** [processFile(fileItem)] as the [files] state sees it: the updates of the
    run, applied in order to the entries with the id of [fileItem]. *)
Definition processFile (H : Host) (cfg : App.config)
           (fetch : nat -> App.request -> fetch_result)
           (fileItem : entry) (files : list entry) : list entry :=
  fold_left (fun fs u => updateFileStatus (id fileItem) u fs)
            (App.run_updates
               (App.processFile H cfg fetch (size (file fileItem))
                                (lineIterator (chunks (file fileItem)))))
            files.

Definition is_pending (f : entry) : bool :=
  match App.status (item f) with
  | App.st_pending | App.st_error => true
  | _ => false
  end.

(** The [for] loop of [startProcessing]; [fetch_for k] is the provider while
    the [k]-th file is processed. *)
Fixpoint process_all (H : Host) (cfg : App.config)
         (fetch_for : nat -> nat -> App.request -> fetch_result)
         (k : nat) (pendingFiles : list entry) (files : list entry) : list entry :=
  match pendingFiles with
  | [] => files
  | f :: rest =>
      process_all H cfg fetch_for (S k) rest (processFile H cfg (fetch_for k) f files)
  end.

(** [startProcessing]: the files that are pending or failed when it is
    called are processed one after the other. *)
Definition startProcessing (H : Host) (cfg : App.config)
           (fetch_for : nat -> nat -> App.request -> fetch_result)
           (files : list entry) : list entry :=
  process_all H cfg fetch_for 0 (filter is_pending files) files.

(** What is left of [s] after the prefix [pat], when [s] starts with it. *)
Fixpoint strip_prefix (pat s : string) : option string :=
  match pat with
  | EmptyString => Some s
  | String p pat' =>
      match s with
      | EmptyString => None
      | String c s' => if Ascii.eqb p c then strip_prefix pat' s' else None
      end
  end.

(** [s.replace(pat, rep)] with a string pattern: the first occurrence only. *)
Fixpoint replace_first (pat rep s : string) : string :=
  match strip_prefix pat s with
  | Some rest => rep +++ rest
  | None =>
      match s with
      | EmptyString => EmptyString
      | String c s' => String c (replace_first pat rep s')
      end
  end.

(** [f.file.name.replace('.jsonl', '.embedded.jsonl')]. *)
Definition download_name (fileName : string) : string :=
  replace_first ".jsonl" ".embedded.jsonl" fileName.

(** [downloadAll]: the link and the file name of every download. *)
Definition downloadAll (files : list entry) : list (option string * string) :=
  map (fun f => (App.resultUrl (item f), download_name (name (file f))))
      (filter (fun f => match App.status (item f) with
                        | App.st_done => true
                        | _ => false
                        end) files).

(** [files.reduce((acc, f) => acc + (f.processed || 0), 0)]. *)
Definition processedRecords (files : list entry) : nat :=
  fold_left (fun acc f => acc + App.processed (item f)) files 0.

End Ui.

(** ** The batch script (scripts/batch_embed.sh) *)

Module Sh.

Definition INPUT_DIR : string := "jsonl".
Definition OUTPUT_SUFFIX : string := ".embedded.jsonl".

(** The pattern [*suffix] of the [[[ ... == ... ]]] test. *)
Fixpoint ends_with (suffix s : string) : bool :=
  String.eqb s suffix
  || match s with
     | EmptyString => false
     | String _ rest => ends_with suffix rest
     end.

(** The part of a path after its last slash. *)
Fixpoint after_last_slash (path : string) : string :=
  match path with
  | EmptyString => EmptyString
  | String c rest =>
      if Ascii.eqb c "/"%char then after_last_slash rest
      else if existsb (Ascii.eqb "/"%char) (list_ascii_of_string rest)
           then after_last_slash rest
           else path
  end.

(** The name without a trailing [suffix], when it has one. *)
Fixpoint strip_suffix (suffix s : string) : option string :=
  if String.eqb s suffix then Some EmptyString
  else match s with
       | EmptyString => None
       | String c rest =>
           match strip_suffix suffix rest with
           | Some stem => Some (String c stem)
           | None => None
           end
       end.

(** [basename "$file" suffix] on a path without trailing slash: the suffix
    is removed unless it is the whole name. *)
Definition basename (path suffix : string) : string :=
  let base := after_last_slash path in
  match strip_suffix suffix base with
  | Some stem => if Str.is_empty stem then base else stem
  | None => base
  end.

(** [$(...)]: the output of the command without its trailing newlines. *)
Fixpoint command_substitution (output : string) : string :=
  match output with
  | EmptyString => EmptyString
  | String c rest =>
      let rest' := command_substitution rest in
      if Str.is_empty rest' && Ascii.eqb c Str.newline then EmptyString
      else String c rest'
  end.

(** [filename=$(basename "$file" .jsonl)] and
    [output_file="$INPUT_DIR/${filename}${OUTPUT_SUFFIX}"]. *)
Definition output_file (path : string) : string :=
  let filename := command_substitution (basename path ".jsonl") in
  INPUT_DIR +++ "/" +++ filename +++ OUTPUT_SUFFIX.

(** The loop: the arguments of every [node "$SCRIPT" "$file" "$output_file"],
    on the paths the glob [jsonl/*.jsonl] expands to. *)
Definition invocations (paths : list string) : list (string * string) :=
  map (fun path => (path, output_file path))
      (filter (fun path => negb (ends_with OUTPUT_SUFFIX path)) paths).

End Sh.

(** The characters of a string. *)
Definition chars (s : string) : list ascii := list_ascii_of_string s.

(** No number of the value prints with a newline ([Number.prototype.toString]
    never does). *)
Fixpoint numbers_on_one_line (v : json) : bool :=
  match v with
  | JNum repr => negb (existsb (Ascii.eqb Str.newline) (chars repr))
  | JArr items => forallb numbers_on_one_line items
  | JObj fields => forallb (fun kv => numbers_on_one_line (snd kv)) fields
  | _ => true
  end.

(** A line as [lineIterator] yields them: not blank and without newline. *)
Definition proper_line (line : string) : Prop :=
  Str.is_blank line = false /\ ~ In Str.newline (chars line).

(** The entry is done or failed. *)
Definition settled (f : Ui.entry) : Prop :=
  App.status (Ui.item f) = App.st_done \/ App.status (Ui.item f) = App.st_error.

(** The pattern occurs in the string. *)
Fixpoint occurs (pat s : string) : bool :=
  match Ui.strip_prefix pat s with
  | Some _ => true
  | None =>
      match s with
      | EmptyString => false
      | String _ rest => occurs pat rest
      end
  end.

(** The text of a stream: its decoded chunks one after the other. *)
Definition content (chunks : list string) : string :=
  fold_right String.append EmptyString chunks.

(** What [JSON.parse] returns never holds a number that prints with a
    newline. *)
Definition parses_numbers_on_one_line (H : Host) : Prop :=
  forall text v, JSON_parse H text = Some v -> numbers_on_one_line v = true.

(** A record that can wait in a batch: an object. *)
Definition object_record (record : json) : Prop :=
  (exists fields, record = JObj fields) /\ numbers_on_one_line record = true.

Definition embedding_on_one_line (e : jsval) : Prop :=
  match e with
  | Some v => numbers_on_one_line v = true
  | None => True
  end.

(** The output holds proper lines and the batch holds objects. *)
Definition output_invariant (st : App.loop_state) : Prop :=
  Forall proper_line (App.processedLines st)
  /\ Forall object_record (App.batchRecords st).

(** The embedding is an array that is not empty. *)
Definition nonempty_vector (e : jsval) : bool :=
  match e with
  | Some (JArr (_ :: _)) => true
  | _ => false
  end.

(** The lines the inner [catch] of the loop does not see: they parse and the
    text extraction of their record returns. *)
Definition counted_lines (H : Host) (lines : list string) : list string :=
  filter (fun line => match classify H line with
                      | ParseError => false
                      | _ => true
                      end) lines.

(** How [startProcessing] relates an entry to what it becomes, [ids] being
    the ids of the files it processes: the file and the id stay, an entry that
    was settled stays settled, an entry with one of the ids ends settled, and
    an entry with none of them is left as it was. *)
Definition processed_as (ids : list string) (f f' : Ui.entry) : Prop :=
  Ui.id f' = Ui.id f
  /\ Ui.file f' = Ui.file f
  /\ (settled f -> settled f')
  /\ (In (Ui.id f) ids -> settled f')
  /\ (~ In (Ui.id f) ids -> f' = f).

(** What the extractor returns for the texts [ss], asked one after the other
    from its [n]-th call on. *)
Fixpoint extractor_outputs (R : Local.runtime) (modelId : string) (n : nat)
         (ss : list string) : list (result (list string)) :=
  match ss with
  | [] => []
  | s :: rest =>
      Local.extractor R modelId n (Local.clean s)
      :: extractor_outputs R modelId (S n) rest
  end.

(** The cache holds the models that were loaded, each once. *)
Definition cache_consistent (st : Local.state) : Prop :=
  Local.cachedPipelines st = Local.loads st /\ NoDup (Local.loads st).

Definition has_slash (s : string) : bool :=
  existsb (Ascii.eqb "/"%char) (chars s).

(** The [id] of the record on the line converts to a string, so that the
    log of a failed record does not throw. *)
Definition id_prints (H : Host) (line : string) : bool :=
  match JSON_parse H line with
  | Some (JObj fields) =>
      match lookup "id" fields with
      | Some id => printable id
      | None => true
      end
  | _ => true
  end.

(** The counters and the output after [n] non-blank lines, [failed] of which
    were not written: a line is a success, skipped or failed, the lines
    written are the successes and the skipped ones, and a failed line is
    counted in [errorCount] once or twice. *)
Definition counters_within (n failed : nat) (st : Cli.state) : Prop :=
  Cli.processedCount st + Cli.skippedCount st + failed = n
  /\ length (Cli.written st) = Cli.processedCount st + Cli.skippedCount st
  /\ failed <= Cli.errorCount st <= 2 * failed.

(** The same with every failed line counted once. *)
Definition counters_add_up (n : nat) (st : Cli.state) : Prop :=
  Cli.processedCount st + Cli.skippedCount st + Cli.errorCount st = n
  /\ length (Cli.written st) = Cli.processedCount st + Cli.skippedCount st.

(** The provider calls logged so far: at most [n], and to one provider. *)
Definition logs_within (EMBEDDING_PROVIDER : string) (n : nat) (st : Cli.state) : Prop :=
  length (Cli.calls st) + length (Cli.extractions st) <= n
  /\ (if String.eqb EMBEDDING_PROVIDER "transformers"
      then Cli.calls st = []
      else Cli.extractions st = [] /\ Cli.pipelineRequested st = false).

(** A stream of two lines, cut inside both. *)
Definition cut_lines : list string := ["ab"; "cd"].

Definition cut_chunks : list string :=
  ["a"; String "b" (String Str.newline "c"); "d"].

(** The three lines of section 8 as a stream cut inside the second line, and
    the output of a run on them. *)
Definition three_chunks : list string :=
  [JSON_stringify text_a +++ String Str.newline "NOT_";
   "JSON" +++ String Str.newline (JSON_stringify text_b)].

Definition three_output : list string :=
  ["NOT_JSON"; JSON_stringify (text_embedded "a"); JSON_stringify (text_embedded "b")].

(** Two texts for the in-process embedder, and the state it leaves. *)
Definition local_model : string := "Xenova/all-MiniLM-L6-v2".

Definition two_texts : list json := [JStr two_spaces; JStr "c"].

Definition two_texts_state : Local.state :=
  {| Local.cachedPipelines := [local_model];
     Local.loads := [local_model];
     Local.extractions := [(local_model, "a b"); (local_model, "c")] |}.

(** Every entry that is [done] has a result to download. *)
Definition linked (f : Ui.entry) : Prop :=
  App.status (Ui.item f) = App.st_done ->
  exists url, App.resultUrl (Ui.item f) = Some url.

(** Two uploads, the first with the twenty records of section 8 in one chunk,
    the second empty. *)
Definition two_uploads : list (Ui.File * string) :=
  [({| Ui.name := "faq.jsonl"; Ui.size := file_size twenty_lines;
       Ui.chunks := [App.blob_text twenty_lines] |}, "k3j9x0a1b");
   ({| Ui.name := "empty.json"; Ui.size := 0; Ui.chunks := [] |}, "z8y7w6v5u")].

(** ** Words of a text *)

(** The local providers clean a text by white space characters, not by
    bytes: a text is read as a sequence of tokens, one per white space
    character (whatever its length in bytes) and one per other byte. *)
Inductive token : Type := White | Byte (c : ascii).

(** The tokens of a text; [skip] counts the bytes of the current white
    space character still to be passed over. *)
Fixpoint tokens_from (skip : nat) (s : string) : list token :=
  match s with
  | EmptyString => []
  | String c rest =>
      match skip with
      | S k => tokens_from k rest
      | O =>
          match Str.ws_len s with
          | O => Byte c :: tokens_from 0 rest
          | S k => White :: tokens_from k rest
          end
      end
  end.

Definition is_white (t : token) : bool := match t with White => true | Byte _ => false end.

(** Every run of white space tokens becomes one; [in_run] tells that the
    run already has its token. *)
Fixpoint squash (in_run : bool) (ts : list token) : list token :=
  match ts with
  | [] => []
  | White :: rest => if in_run then squash true rest else White :: squash true rest
  | Byte c :: rest => Byte c :: squash false rest
  end.

(** The bytes of a token sequence, a white space token printed as one space. *)
Fixpoint render (ts : list token) : string :=
  match ts with
  | [] => EmptyString
  | White :: rest => String Str.space (render rest)
  | Byte c :: rest => String c (render rest)
  end.

(** No byte token of the sequence, printed, starts a white space character. *)
Fixpoint plain (ts : list token) : Prop :=
  match ts with
  | [] => True
  | White :: rest => plain rest
  | Byte c :: rest => Str.ws_len (String c (render rest)) = 0 /\ plain rest
  end.

(** The sequence without its leading white space tokens. *)
Fixpoint drop_white (ts : list token) : list token :=
  match ts with
  | White :: rest => drop_white rest
  | _ => ts
  end.

(** The sequence without its trailing white space tokens. *)
Fixpoint strip_end (ts : list token) : list token :=
  match ts with
  | [] => []
  | t :: rest => if forallb is_white ts then [] else t :: strip_end rest
  end.

(** The words of a token sequence: the maximal runs of bytes between white
    space, in order; [current] is the word being read. *)
Fixpoint words_of (current : string) (ts : list token) : list string :=
  match ts with
  | [] => if Str.is_empty current then [] else [current]
  | White :: rest =>
      (if Str.is_empty current then [] else [current]) ++ words_of EmptyString rest
  | Byte c :: rest => words_of (current +++ String c EmptyString) rest
  end.

Definition tokens (s : string) : list token := tokens_from 0 s.

(** The words of a text: its maximal runs of bytes that are not white space. *)
Definition words (s : string) : list string := words_of EmptyString (tokens s).

(** The text [  a<LF><TAB> b  ]: white space at both ends and a run inside. *)
Definition padded_text : string :=
  "  a" +++ String Str.newline (String (ascii_of_nat 9) " b  ").

(** * Properties *)

(** Induction on JSON values, through the items of arrays and the values of
    objects. *)
Lemma json_induction (P : json -> Prop) :
  P JNull ->
  (forall b, P (JBool b)) ->
  (forall repr, P (JNum repr)) ->
  (forall s, P (JStr s)) ->
  (forall items, Forall P items -> P (JArr items)) ->
  (forall fields, Forall (fun kv => P (snd kv)) fields -> P (JObj fields)) ->
  forall v, P v.
Proof.
  intros Hnull Hbool Hnum Hstr Harr Hobj.
  fix IH 1. intros [|b|repr|s|items|fields].
  - exact Hnull.
  - apply Hbool.
  - apply Hnum.
  - apply Hstr.
  - apply Harr. induction items as [|item items IHitems]; constructor.
    + apply IH.
    + exact IHitems.
  - apply Hobj. induction fields as [|[k v] fields IHfields]; constructor.
    + apply IH.
    + exact IHfields.
Qed.

(** ** Text extraction *)

(** C7, as stated, fails: with [question] and [answer] both present the
    extraction still returns [text] when [question] is the empty string; the
    extraction raises when [question] is an object with a key "toString"; and
    in the browser the extraction of the record [null] raises. *)
Lemma C7_counterexample :
  App.getEmbeddingText (JObj empty_question_fields) = Ok (JStr "t")
  /\ App.getEmbeddingText (JObj empty_question_fields)
     <> embeddable_text_by_presence empty_question_fields
  /\ App.getEmbeddingText (JObj unprintable_question_fields)
     = Throw (Builtin NotPrimitive)
  /\ Cli.getEmbeddingText (JObj unprintable_question_fields)
     = Throw (Builtin NotPrimitive)
  /\ App.getEmbeddingText JNull = Throw (Builtin (NullProperty "dense_context")).
Proof.
  split; [reflexivity|]. split; [vm_compute; discriminate|].
  split; [reflexivity|]. split; reflexivity.
Qed.

Lemma truthy_field_spec (k : string) (fields : list (string * json)) :
  truthy_field k fields
  = if truthy_val (lookup k fields) then lookup k fields else None.
Proof.
  unfold truthy_field, truthy_val.
  destruct (lookup k fields) as [v|]; [destruct (truthy v)|]; reflexivity.
Qed.

(** On an object the browser's extraction takes the first truthy candidate. *)
Lemma app_text_of_object (fields : list (string * json)) :
  App.getEmbeddingText (JObj fields) = embeddable_text_by_truthiness fields.
Proof.
  unfold App.getEmbeddingText, embeddable_text_by_truthiness, question_answer, get_prop.
  cbn [bind]. rewrite !truthy_field_spec.
  destruct (lookup "dense_context" fields) as [dc|] eqn:Edc; cbn [truthy_val].
  - destruct (truthy dc); [reflexivity|].
    destruct (lookup "question" fields) as [q|], (lookup "answer" fields) as [a|];
      cbn [truthy_val andb];
      repeat match goal with
             | |- context [truthy ?v] => destruct (truthy v); cbn [andb]
             end;
      try reflexivity;
      destruct (lookup "text" fields) as [t|]; cbn [truthy_val];
      try destruct (truthy t); reflexivity.
  - destruct (lookup "question" fields) as [q|], (lookup "answer" fields) as [a|];
      cbn [truthy_val andb];
      repeat match goal with
             | |- context [truthy ?v] => destruct (truthy v); cbn [andb]
             end;
      try reflexivity;
      destruct (lookup "text" fields) as [t|]; cbn [truthy_val];
      try destruct (truthy t); reflexivity.
Qed.

(** On an object the script's extraction is the browser's. *)
Lemma cli_text_of_object (fields : list (string * json)) :
  Cli.getEmbeddingText (JObj fields) = App.getEmbeddingText (JObj fields).
Proof. reflexivity. Qed.

(** The conversion of the items of an array. *)
Lemma toString_items (items : list json) :
  Forall (fun v => if printable v then exists s, toString v = Ok s
                   else toString v = Throw (Builtin NotPrimitive)) items ->
  if forallb printable items then exists s, toString (JArr items) = Ok s
  else toString (JArr items) = Throw (Builtin NotPrimitive).
Proof.
  intros Hall. cbn [toString].
  induction Hall as [|x items Hx _ IH]; cbn [forallb]; [eexists; reflexivity|].
  destruct (printable x) eqn:Hp; cbn [andb].
  - assert (Hpart : exists part, match x with
                                 | JNull => Ok EmptyString
                                 | _ => toString x
                                 end = Ok part)
      by (destruct Hx as [s Hs]; destruct x; eauto).
    destruct Hpart as [part ->]. cbn [bind].
    destruct (forallb printable items).
    + destruct IH as [s Hs].
      match type of Hs with
      | bind ?e _ = _ => destruct e as [parts|e'] eqn:He; [|discriminate Hs]
      end.
      cbn [bind]. eexists. reflexivity.
    + match type of IH with
      | bind ?e _ = _ => destruct e as [parts|e'] eqn:He
      end; [discriminate IH|].
      cbn [bind] in IH |- *. exact IH.
  - destruct x; try discriminate Hp; rewrite Hx; reflexivity.
Qed.

(** ToString throws on the values that are not printable, and on no other. *)
Lemma toString_printable (v : json) :
  if printable v then exists s, toString v = Ok s
  else toString v = Throw (Builtin NotPrimitive).
Proof.
  induction v as [|b|repr|s|items IH|fields _] using json_induction;
    try (cbn; eexists; reflexivity).
  - destruct b; cbn; eexists; reflexivity.
  - cbn [printable]. apply toString_items. exact IH.
  - cbn [printable toString]. destruct (lookup "toString" fields); [reflexivity|].
    eexists. reflexivity.
Qed.

Lemma question_answer_spec (question answer : json) :
  if printable question && printable answer
  then exists text, question_answer question answer = Ok (JStr text)
  else question_answer question answer = Throw (Builtin NotPrimitive).
Proof.
  unfold question_answer.
  pose proof (toString_printable question) as Hq.
  pose proof (toString_printable answer) as Ha.
  destruct (printable question); cbn [andb].
  - destruct Hq as [q ->]. cbn [bind].
    destruct (printable answer).
    + destruct Ha as [a ->]. cbn [bind]. eexists. reflexivity.
    + rewrite Ha. reflexivity.
  - rewrite Hq. reflexivity.
Qed.

(** When the extraction raises on an object: it reached the combination and
    [question] or [answer] does not convert to a string. *)
Lemma text_raises (fields : list (string * json)) (e : exn) :
  embeddable_text_by_truthiness fields = Throw e ->
  e = Builtin NotPrimitive
  /\ truthy_field "dense_context" fields = None
  /\ exists question answer,
       truthy_field "question" fields = Some question
       /\ truthy_field "answer" fields = Some answer
       /\ printable question && printable answer = false.
Proof.
  unfold embeddable_text_by_truthiness.
  destruct (truthy_field "dense_context" fields); [discriminate|].
  destruct (truthy_field "question" fields) as [q|];
    [destruct (truthy_field "answer" fields) as [a|]|];
    try (destruct (truthy_field "text" fields); discriminate).
  pose proof (question_answer_spec q a) as Hqa.
  destruct (printable q && printable a) eqn:Hp.
  - destruct Hqa as [text ->]. discriminate.
  - rewrite Hqa. intros [= <-]. split; [reflexivity|]. split; [reflexivity|].
    exists q, a. split; [reflexivity|]. split; [reflexivity|exact Hp].
Qed.

Lemma truthy_field_truthy (k : string) (fields : list (string * json)) (v : json) :
  truthy_field k fields = Some v -> truthy v = true.
Proof.
  unfold truthy_field. destruct (lookup k fields) as [w|]; [|discriminate].
  destruct (truthy w) eqn:Hw; [|discriminate]. intros [= <-]. exact Hw.
Qed.

(** A text that is not truthy is the empty string. *)
Lemma text_falsy (fields : list (string * json)) (text : json) :
  embeddable_text_by_truthiness fields = Ok text ->
  truthy text = false -> text = JStr EmptyString.
Proof.
  unfold embeddable_text_by_truthiness, question_answer.
  destruct (truthy_field "dense_context" fields) as [dc|] eqn:Hdc.
  { intros [= <-] Hf. rewrite (truthy_field_truthy _ _ _ Hdc) in Hf. discriminate Hf. }
  assert (Htext : match truthy_field "text" fields with
                  | Some t => Ok t
                  | None => Ok (JStr EmptyString)
                  end = Ok text -> truthy text = false -> text = JStr EmptyString).
  { destruct (truthy_field "text" fields) as [t|] eqn:Ht.
    - intros [= <-] Hf. rewrite (truthy_field_truthy _ _ _ Ht) in Hf. discriminate Hf.
    - intros [= <-] _. reflexivity. }
  destruct (truthy_field "question" fields) as [q|]; [|exact Htext].
  destruct (truthy_field "answer" fields) as [a|]; [|exact Htext].
  destruct (toString q) as [qs|e]; cbn [bind]; [|discriminate].
  destruct (toString a) as [as_|e]; cbn [bind]; [|discriminate].
  intros [= <-] Hf. discriminate Hf.
Qed.

(** The extraction, statement by statement, leaves the record as it was. *)
Lemma app_text_on_record (record : json) :
  App.getEmbeddingText_on record = (App.getEmbeddingText record, record).
Proof.
  unfold App.getEmbeddingText_on, App.getEmbeddingText, Rec.bind, Rec.read, Rec.ret.
  destruct (get_prop record "dense_context") as [dc|e]; cbn [bind]; [|reflexivity].
  destruct (truthy_val dc); [reflexivity|].
  destruct (get_prop record "question") as [q|e]; cbn [bind]; [|reflexivity].
  destruct (get_prop record "answer") as [a|e]; cbn [bind]; [|reflexivity].
  destruct (truthy_val q && truthy_val a).
  - destruct (toString_val q) as [qs|e]; cbn [bind]; [|reflexivity].
    destruct (toString_val a) as [as_|e]; cbn [bind]; reflexivity.
  - destruct (get_prop record "text") as [t|e]; cbn [bind]; [|reflexivity].
    destruct (truthy_val t); reflexivity.
Qed.

(** The assignment of the embedding, the one assignment of the pipeline, does
    change the record. *)
Lemma assign_on_record (record : json) (e : jsval) :
  Rec.assign "embedding" e record = (Ok tt, App.assign_embedding record e).
Proof. destruct record; reflexivity. Qed.

Lemma cli_text_on_record (record : json) :
  Cli.getEmbeddingText_on record = (Cli.getEmbeddingText record, record).
Proof.
  pose proof (app_text_on_record record) as Happ.
  destruct record; try reflexivity; exact Happ.
Qed.

(** C7, amended: on every record that is a JSON object both programs return
    the first truthy candidate in the order [dense_context] verbatim, then
    "Q: question, newline, A: answer" when [question] and [answer] are both
    truthy, then [text] verbatim, then the empty string.  The extraction
    raises exactly when it reaches the combination and [question] or [answer]
    does not convert to a string (it is, or holds in nested arrays, an object
    with a key "toString"), and then with a TypeError; whether it returns or
    raises, it leaves the record as it was. *)
Theorem C7_text_priority (fields : list (string * json)) :
  App.getEmbeddingText (JObj fields) = embeddable_text_by_truthiness fields
  /\ Cli.getEmbeddingText (JObj fields) = embeddable_text_by_truthiness fields
  /\ (forall e, embeddable_text_by_truthiness fields = Throw e -> e = Builtin NotPrimitive)
  /\ ((exists e, embeddable_text_by_truthiness fields = Throw e)
      <-> truthy_field "dense_context" fields = None
          /\ exists question answer,
               truthy_field "question" fields = Some question
               /\ truthy_field "answer" fields = Some answer
               /\ printable question && printable answer = false)
  /\ snd (App.getEmbeddingText_on (JObj fields)) = JObj fields
  /\ snd (Cli.getEmbeddingText_on (JObj fields)) = JObj fields
  /\ fst (App.getEmbeddingText_on (JObj fields)) = App.getEmbeddingText (JObj fields)
  /\ fst (Cli.getEmbeddingText_on (JObj fields)) = Cli.getEmbeddingText (JObj fields).
Proof.
  split; [apply app_text_of_object|].
  split; [rewrite cli_text_of_object; apply app_text_of_object|].
  rewrite app_text_on_record, cli_text_on_record. cbn [fst snd].
  pose proof (text_raises fields) as Hraise.
  split; [intros e He; exact (proj1 (Hraise e He))|].
  split; [|split; [reflexivity|split; [reflexivity|split; reflexivity]]].
  split.
  - intros [e He]. exact (proj2 (Hraise e He)).
  - intros (Hdc & q & a & Hq & Ha & Hp).
    unfold embeddable_text_by_truthiness. rewrite Hdc, Hq, Ha.
    pose proof (question_answer_spec q a) as Hqa. rewrite Hp in Hqa.
    eexists. exact Hqa.
Qed.

(** ** The local embedder *)

(** C10: called with something that is not an array, or with an empty array,
    [embedTextsLocally] returns the empty list and leaves the pipeline cache
    and the logs of model loads and extractor calls as they were. *)
Theorem C10_nothing_to_embed (R : Local.runtime) (texts : jsval) (modelId : string)
        (st : Local.state) :
  nonempty_array texts = false ->
  Local.embedTextsLocally R texts modelId st = (Ok [], st).
Proof.
  intros Hne. unfold Local.embedTextsLocally.
  destruct texts as [[| | | |[|text rest]|]|]; try reflexivity.
  discriminate Hne.
Qed.

Lemma C10_witness :
  Local.embedTextsLocally unit_runtime (Some (JArr [])) "Xenova/all-MiniLM-L6-v2"
                          Local.empty_state = (Ok [], Local.empty_state)
  /\ Local.embedTextsLocally unit_runtime (Some (JStr "text")) "Xenova/all-MiniLM-L6-v2"
                             Local.empty_state = (Ok [], Local.empty_state)
  /\ Local.embedTextsLocally unit_runtime None "Xenova/all-MiniLM-L6-v2"
                             Local.empty_state = (Ok [], Local.empty_state).
Proof.
  split; [|split]; apply C10_nothing_to_embed; reflexivity.
Defined.

(** ** Cleaning of the texts sent to a provider *)

Lemma replace_newlines_length (t : string) :
  String.length (Str.replace_newlines t) = String.length t.
Proof.
  unfold Str.replace_newlines.
  induction t as [|c t IH]; simpl; [reflexivity|now rewrite IH].
Qed.

Lemma replace_newlines_get (t : string) (i : nat) :
  String.get i (Str.replace_newlines t)
  = option_map (fun c => if Ascii.eqb c Str.newline then Str.space else c)
               (String.get i t).
Proof.
  unfold Str.replace_newlines. revert i.
  induction t as [|c t IH]; intros [|i]; simpl; try reflexivity.
  apply IH.
Qed.

Lemma map_result_clean_inv (texts : list json) (cleanTexts : list string) :
  App.map_result App.clean_text texts = Ok cleanTexts ->
  texts = map JStr (strings_of texts)
  /\ cleanTexts = map Str.replace_newlines (strings_of texts).
Proof.
  revert cleanTexts.
  induction texts as [|t texts IH]; intros cleanTexts Hm; simpl in Hm.
  - inversion Hm. split; reflexivity.
  - destruct t; simpl in Hm; try discriminate.
    destruct (App.map_result App.clean_text texts) as [bs|e]; simpl in Hm; [|discriminate].
    inversion Hm; subst. destruct (IH bs eq_refl) as [Ht Hc].
    simpl. split; [f_equal; exact Ht | f_equal; exact Hc].
Qed.

Lemma map_result_clean_strings (ss : list string) :
  App.map_result App.clean_text (map JStr ss) = Ok (map Str.replace_newlines ss).
Proof.
  induction ss as [|s ss IH]; simpl; [reflexivity|].
  rewrite IH. reflexivity.
Qed.

Lemma strings_of_map_JStr (ss : list string) : strings_of (map JStr ss) = ss.
Proof.
  induction ss as [|s ss IH]; simpl; [reflexivity|now rewrite IH].
Qed.

(** The only request [fetchBatchEmbeddings] adds to the log carries the texts
    with their newlines replaced. *)
Lemma fetchBatchEmbeddings_request (H : Host) (cfg : App.config)
      (fetch : nat -> App.request -> fetch_result)
      (texts : list json) (calls : list App.request) :
  let calls' := snd (App.fetchBatchEmbeddings H cfg fetch texts calls) in
  calls' = calls
  \/ calls' = calls ++ [ {| App.req_url := App.apiUrl cfg;
                            App.req_model := App.model cfg;
                            App.req_input := map Str.replace_newlines (strings_of texts) |} ].
Proof.
  unfold App.fetchBatchEmbeddings.
  destruct (App.map_result App.clean_text texts) as [cleanTexts|e] eqn:Hm; simpl.
  - destruct (map_result_clean_inv _ _ Hm) as [_ Hc]. subst cleanTexts.
    right.
    destruct (fetch _ _); reflexivity.
  - left. reflexivity.
Qed.

Lemma trim_start_sub (c : ascii) (s : string) (skip : nat) :
  In c (list_ascii_of_string (Str.trim_start_from skip s)) ->
  In c (list_ascii_of_string s).
Proof.
  revert skip.
  induction s as [|a s IH]; intros skip Hin; [exact Hin|].
  cbn [Str.trim_start_from] in Hin.
  destruct skip as [|k].
  - destruct (Str.ws_len (String a s)) as [|k]; [exact Hin|].
    right. exact (IH _ Hin).
  - right. exact (IH _ Hin).
Qed.

Lemma trim_end_sub (c : ascii) (s : string) :
  In c (list_ascii_of_string (Str.trim_end s)) -> In c (list_ascii_of_string s).
Proof.
  induction s as [|a s IH]; intros Hin; [exact Hin|].
  cbn [Str.trim_end] in Hin.
  destruct (Str.all_ws (String a s)); [destruct Hin|].
  destruct Hin as [Heq|Hin]; [left; exact Heq | right; exact (IH Hin)].
Qed.

Lemma ws_len_newline (rest : string) : Str.ws_len (String Str.newline rest) = 1.
Proof. reflexivity. Qed.

Lemma collapse_ws_no_newline (s : string) (skip : nat) (in_run : bool) :
  ~ In Str.newline (list_ascii_of_string (Str.collapse_ws_from skip in_run s)).
Proof.
  revert skip in_run.
  induction s as [|a s IH]; intros skip in_run Hin; [exact Hin|].
  cbn [Str.collapse_ws_from] in Hin.
  destruct skip as [|k]; [|exact (IH _ _ Hin)].
  destruct (Str.ws_len (String a s)) as [|k] eqn:Hws.
  - destruct Hin as [Heq|Hin]; [|exact (IH _ _ Hin)].
    subst a. rewrite ws_len_newline in Hws. discriminate.
  - destruct in_run.
    + exact (IH _ _ Hin).
    + destruct Hin as [Heq|Hin]; [discriminate Heq|exact (IH _ _ Hin)].
Qed.

(** What the local providers submit has no newline left. *)
Lemma local_clean_no_newline (s : string) :
  ~ In Str.newline (list_ascii_of_string (Local.clean s)).
Proof.
  unfold Local.clean, Str.trim, Str.collapse_ws. intros Hin.
  apply trim_end_sub, trim_start_sub in Hin.
  exact (collapse_ws_no_newline _ _ _ Hin).
Qed.

(** Every text the local embedder hands to the extractor is the cleaned form
    of one of its input texts, in order. *)
Lemma embed_each_extractions (R : Local.runtime) (modelId : string)
      (texts : list json) (st : Local.state) (acc : list (list string)) :
  exists k,
    Local.extractions (snd (Local.embed_each R modelId texts st acc))
    = Local.extractions st
      ++ map (fun s => (modelId, Local.clean s)) (strings_of (firstn k texts)).
Proof.
  revert st acc.
  induction texts as [|t texts IH]; intros st acc.
  - exists 0. simpl. now rewrite app_nil_r.
  - cbn [Local.embed_each].
    destruct (Local.clean_text t) as [cleanText|e] eqn:Hc.
    + destruct t; simpl in Hc; try discriminate. inversion Hc; subst cleanText.
      destruct (Local.extractor R modelId (length (Local.extractions st)) (Local.clean s))
        as [data|e].
      * destruct (IH {| Local.cachedPipelines := Local.cachedPipelines st;
                        Local.loads := Local.loads st;
                        Local.extractions := Local.extractions st
                                             ++ [(modelId, Local.clean s)] |}
                     (acc ++ [data])) as [k Hk].
        exists (S k). rewrite Hk. simpl. now rewrite <- app_assoc.
      * exists 1. simpl. reflexivity.
    + exists 0. simpl. now rewrite app_nil_r.
Qed.

Lemma collapse_tokens (s : string) :
  forall skip in_run,
    Str.collapse_ws_from skip in_run s = render (squash in_run (tokens_from skip s)).
Proof.
  induction s as [|c s IH]; intros skip in_run; [reflexivity|].
  cbn [Str.collapse_ws_from tokens_from].
  destruct skip as [|k]; [|apply IH].
  destruct (Str.ws_len (String c s)) as [|k].
  - cbn [squash render]. rewrite IH. reflexivity.
  - cbn [squash]. destruct in_run; cbn [render]; rewrite IH; reflexivity.
Qed.

Lemma ws_len_three (c c1 c2 : ascii) (x y : string) :
  Str.ws_len (String c (String c1 (String c2 x)))
  = Str.ws_len (String c (String c1 (String c2 y))).
Proof. reflexivity. Qed.

Lemma ws_len_space (x : string) : Str.ws_len (String Str.space x) = 1.
Proof. reflexivity. Qed.

Lemma ws_len_before_space (c : ascii) (rest x : string) :
  Str.ws_len (String c rest) = 0 ->
  Str.ws_len (String c (String Str.space x)) = 0.
Proof.
  unfold Str.ws_len.
  destruct ((nat_of_ascii c =? 9) || (nat_of_ascii c =? 10) || (nat_of_ascii c =? 11)
            || (nat_of_ascii c =? 12) || (nat_of_ascii c =? 13) || (nat_of_ascii c =? 32));
    [discriminate|].
  intros _.
  change (nat_of_ascii Str.space) with 32.
  cbn [Nat.eqb]. rewrite ?andb_false_r. cbn [andb].
  destruct x as [|c2 x]; reflexivity.
Qed.

Lemma ws_len_before_space2 (c c1 c2 : ascii) (rest x : string) :
  Str.ws_len (String c (String c1 (String c2 rest))) = 0 ->
  Str.ws_len (String c (String c1 (String Str.space x))) = 0.
Proof.
  unfold Str.ws_len.
  destruct ((nat_of_ascii c =? 9) || (nat_of_ascii c =? 10) || (nat_of_ascii c =? 11)
            || (nat_of_ascii c =? 12) || (nat_of_ascii c =? 13) || (nat_of_ascii c =? 32));
    [discriminate|].
  destruct ((nat_of_ascii c =? 194) && (nat_of_ascii c1 =? 160)); [discriminate|].
  intros _.
  change (nat_of_ascii Str.space) with 32.
  cbn [Nat.eqb Nat.leb]. rewrite ?andb_false_r, ?orb_false_r. cbn [andb orb].
  rewrite ?andb_false_r. reflexivity.
Qed.

(** A byte that starts no white space in the text starts none in the collapsed text. *)
Lemma ws_len_stable (c : ascii) (rest : string) :
  Str.ws_len (String c rest) = 0 ->
  Str.ws_len (String c (Str.collapse_ws_from 0 false rest)) = 0.
Proof.
  intros H0.
  destruct rest as [|c1 rest1]; [exact H0|].
  cbn [Str.collapse_ws_from].
  destruct (Str.ws_len (String c1 rest1)) as [|k].
  - destruct rest1 as [|c2 rest2]; [exact H0|].
    cbn [Str.collapse_ws_from].
    destruct (Str.ws_len (String c2 rest2)) as [|k2].
    + rewrite (ws_len_three c c1 c2 _ rest2). exact H0.
    + exact (ws_len_before_space2 c c1 c2 rest2 _ H0).
  - exact (ws_len_before_space c _ _ H0).
Qed.

Lemma squash_plain (s : string) :
  forall skip in_run, plain (squash in_run (tokens_from skip s)).
Proof.
  induction s as [|c s IH]; intros skip in_run; [exact I|].
  cbn [tokens_from]. destruct skip as [|k]; [|apply IH].
  destruct (Str.ws_len (String c s)) as [|k] eqn:Hws.
  - cbn [squash plain]. split; [|apply IH].
    rewrite <- collapse_tokens. apply ws_len_stable. exact Hws.
  - cbn [squash]. destruct in_run; cbn [plain]; apply IH.
Qed.

Lemma all_ws_render (ts : list token) :
  plain ts -> Str.all_ws (render ts) = forallb is_white ts.
Proof.
  unfold Str.all_ws.
  induction ts as [|[|c] ts IH]; intros Hp; [reflexivity| |].
  - cbn [render Str.all_ws_from forallb is_white andb]. rewrite ws_len_space. apply IH. exact Hp.
  - destruct Hp as [Hc _]. cbn [render Str.all_ws_from forallb is_white andb].
    rewrite Hc. reflexivity.
Qed.

Lemma trim_start_render (ts : list token) :
  plain ts -> Str.trim_start_from 0 (render ts) = render (drop_white ts).
Proof.
  induction ts as [|[|c] ts IH]; intros Hp; [reflexivity| |].
  - cbn [render Str.trim_start_from drop_white]. rewrite ws_len_space. apply IH. exact Hp.
  - destruct Hp as [Hc _]. cbn [render Str.trim_start_from drop_white].
    rewrite Hc. reflexivity.
Qed.

Lemma trim_end_render (ts : list token) :
  plain ts -> Str.trim_end (render ts) = render (strip_end ts).
Proof.
  induction ts as [|t ts IH]; intros Hp; [reflexivity|].
  assert (Hall : Str.all_ws (render (t :: ts)) = forallb is_white (t :: ts))
    by (apply all_ws_render; exact Hp).
  assert (Hrest : plain ts) by (destruct t; [exact Hp|exact (proj2 Hp)]).
  cbn [strip_end].
  destruct t; cbn [render Str.trim_end] in *; rewrite Hall;
    destruct (forallb is_white _); cbn [render]; try reflexivity;
    rewrite (IH Hrest); reflexivity.
Qed.

Lemma drop_white_squash (ts : list token) (in_run : bool) :
  drop_white (squash in_run ts) = squash true ts.
Proof.
  revert in_run. induction ts as [|[|c] ts IH]; intros in_run; [reflexivity| |reflexivity].
  cbn [squash]. destruct in_run; cbn [drop_white]; apply IH.
Qed.

Lemma forallb_white_squash (ts : list token) (in_run : bool) :
  forallb is_white (squash in_run ts) = forallb is_white ts.
Proof.
  revert in_run. induction ts as [|[|c] ts IH]; intros in_run; [reflexivity| |reflexivity].
  cbn [squash]. destruct in_run; cbn [forallb is_white andb]; apply IH.
Qed.

Lemma append_byte_not_empty (current : string) (c : ascii) :
  Str.is_empty (current +++ String c EmptyString) = false.
Proof. destruct current; reflexivity. Qed.

Lemma words_of_started (ts : list token) :
  forall current, Str.is_empty current = false -> words_of current ts <> [].
Proof.
  induction ts as [|[|c] ts IH]; intros current Hcur; cbn [words_of].
  - rewrite Hcur. discriminate.
  - rewrite Hcur. discriminate.
  - apply IH, append_byte_not_empty.
Qed.

Lemma words_of_white (ts : list token) :
  forallb is_white ts = true -> words_of EmptyString ts = [].
Proof.
  induction ts as [|[|c] ts IH]; intros Hall; [reflexivity| |discriminate].
  cbn [words_of Str.is_empty app]. apply IH. exact Hall.
Qed.

Lemma words_of_not_white (ts : list token) :
  forallb is_white ts = false -> words_of EmptyString ts <> [].
Proof.
  induction ts as [|[|c] ts IH]; intros Hall; [discriminate| |].
  - cbn [words_of Str.is_empty app]. apply IH. exact Hall.
  - cbn [words_of]. apply words_of_started. reflexivity.
Qed.

Lemma append_empty_r (s : string) : s +++ EmptyString = s.
Proof.
  induction s as [|c s IH]; simpl; [reflexivity|now rewrite IH].
Qed.

Lemma append_associative (a b c : string) : (a +++ b) +++ c = a +++ (b +++ c).
Proof.
  induction a as [|x a IH]; simpl; [reflexivity|now rewrite IH].
Qed.

Lemma join_cons (sep x : string) (rest : list string) :
  rest <> [] -> Str.join sep (x :: rest) = x +++ sep +++ Str.join sep rest.
Proof. destruct rest; [congruence|reflexivity]. Qed.

(** The collapsed and trimmed tokens, rendered, are the words joined by one space. *)
Lemma render_words (ts : list token) :
  (forall current, Str.is_empty current = false ->
     current +++ render (strip_end (squash false ts))
     = Str.join " " (words_of current ts))
  /\ render (strip_end (squash true ts)) = Str.join " " (words_of EmptyString ts).
Proof.
  induction ts as [|[|c] ts [IH1 IH2]].
  - split; [|reflexivity]. intros current Hcur. cbn [squash strip_end render words_of].
    rewrite Hcur. apply append_empty_r.
  - split.
    + intros current Hcur. cbn [squash strip_end words_of]. rewrite Hcur.
      cbn [forallb is_white andb app]. rewrite forallb_white_squash.
      destruct (forallb is_white ts) eqn:Hall.
      * rewrite (words_of_white ts Hall). cbn [render Str.join]. apply append_empty_r.
      * rewrite (join_cons _ _ _ (words_of_not_white ts Hall)).
        cbn [render]. rewrite <- IH2. reflexivity.
    + cbn [squash words_of Str.is_empty app]. exact IH2.
  - split.
    + intros current Hcur. cbn [squash strip_end forallb is_white andb render words_of].
      rewrite <- (IH1 _ (append_byte_not_empty current c)).
      rewrite append_associative. reflexivity.
    + cbn [squash strip_end forallb is_white andb render words_of String.append].
      rewrite <- (IH1 (String c EmptyString) eq_refl). reflexivity.
Qed.

Lemma clean_words (s : string) : Local.clean s = Str.join " " (words s).
Proof.
  unfold Local.clean, Str.trim, Str.collapse_ws, words, tokens.
  rewrite collapse_tokens.
  rewrite (trim_start_render _ (squash_plain s 0 false)).
  rewrite drop_white_squash.
  assert (Hp : plain (squash true (tokens_from 0 s))) by apply squash_plain.
  rewrite (trim_end_render _ Hp).
  exact (proj2 (render_words _)).
Qed.

Lemma words_of_not_empty (ts : list token) :
  forall current, Forall (fun w => Str.is_empty w = false) (words_of current ts).
Proof.
  induction ts as [|[|c] ts IH]; intros current; cbn [words_of].
  - destruct (Str.is_empty current) eqn:Hcur; [constructor|].
    constructor; [exact Hcur|constructor].
  - apply Forall_app. split; [|apply IH].
    destruct (Str.is_empty current) eqn:Hcur; [constructor|].
    constructor; [exact Hcur|constructor].
  - apply IH.
Qed.

(** C9, as stated, fails for the local provider: a text with two spaces and
    no newline is submitted with one space. *)
Lemma C9_counterexample :
  Local.extractions
    (snd (Local.embedTextsLocally unit_runtime (Some (JArr [JStr two_spaces]))
                                  "Xenova/all-MiniLM-L6-v2" Local.empty_state))
  = [("Xenova/all-MiniLM-L6-v2", "a b")]
  /\ Local.clean two_spaces <> Str.replace_newlines two_spaces.
Proof.
  split; [reflexivity|].
  vm_compute. discriminate.
Qed.

(** C9, amended: the remote providers (the browser's [fetchBatchEmbeddings]
    and the script's [fetchEmbeddingViaApi]) submit each text with every
    newline replaced by one space and every other character kept; the local
    providers ([embedTextsLocally] and the script's
    [fetchEmbeddingWithTransformers]) submit [text.replace(/\s+/g, ' ').trim()],
    which is the words of the text (its maximal runs of bytes that are not
    white space, none of them empty) joined by single spaces: no newline is
    left, every run of white space inside the text becomes one space, and
    white space at either end is dropped. *)
Theorem C9_text_cleaning :
  (forall t : string,
      String.length (Str.replace_newlines t) = String.length t
      /\ forall i, String.get i (Str.replace_newlines t)
                   = option_map (fun c => if Ascii.eqb c Str.newline then Str.space else c)
                                (String.get i t))
  /\ (forall H cfg fetch texts calls,
         let calls' := snd (App.fetchBatchEmbeddings H cfg fetch texts calls) in
         calls' = calls
         \/ calls' = calls ++ [ {| App.req_url := App.apiUrl cfg;
                                   App.req_model := App.model cfg;
                                   App.req_input :=
                                     map Str.replace_newlines (strings_of texts) |} ])
  /\ (forall H API_URL MODEL_NAME fetch s st,
         Cli.calls (snd (Cli.fetchEmbeddingViaApi H API_URL MODEL_NAME fetch (JStr s) st))
         = Cli.calls st ++ [ {| Cli.req_url := API_URL; Cli.req_model := MODEL_NAME;
                                Cli.req_input := Str.replace_newlines s |} ])
  /\ (forall R modelId texts st acc, exists k,
         Local.extractions (snd (Local.embed_each R modelId texts st acc))
         = Local.extractions st
           ++ map (fun s => (modelId, Local.clean s)) (strings_of (firstn k texts)))
  /\ (forall TRANSFORMER_MODEL R s st,
         let st' := snd (Cli.fetchEmbeddingWithTransformers TRANSFORMER_MODEL R (JStr s) st) in
         Cli.extractions st' = Cli.extractions st
         \/ Cli.extractions st' = Cli.extractions st ++ [Local.clean s])
  /\ (forall s, ~ In Str.newline (list_ascii_of_string (Local.clean s)))
  /\ (forall s,
         Local.clean s = Str.join " " (words s)
         /\ Forall (fun w => Str.is_empty w = false) (words s))
  /\ words padded_text = ["a"; "b"]
  /\ Local.clean padded_text = "a b".
Proof.
  split; [|split; [|split; [|split; [|split; [|split; [|split; [|split]]]]]]].
  - intros t. split; [apply replace_newlines_length | apply replace_newlines_get].
  - intros. apply fetchBatchEmbeddings_request.
  - intros. unfold Cli.fetchEmbeddingViaApi.
    destruct (fetch _ _); reflexivity.
  - intros. apply embed_each_extractions.
  - intros. unfold Cli.fetchEmbeddingWithTransformers in st'. subst st'.
    destruct (Local.pipeline R TRANSFORMER_MODEL); [left; reflexivity|].
    right. destruct (Local.extractor R _ _ _); reflexivity.
  - apply local_clean_no_newline.
  - intros s. split; [apply clean_words | apply words_of_not_empty].
  - reflexivity.
  - reflexivity.
Qed.

(** ** The loop of [processFile], line by line *)

Section AppSteps.

Variable H : Host.
Variable cfg : App.config.
Variable fetch : nat -> App.request -> fetch_result.
Variable totalSize : nat.

Lemma try_line_classify (line : string) (st : App.loop_state) :
  match classify H line with
  | ParseError => exists e, App.try_line H cfg fetch totalSize line st = (st, Some e)
  | PassThrough out =>
      App.try_line H cfg fetch totalSize line st
      = App.flush_if_full H cfg fetch totalSize
          {| App.processedBytes := App.processedBytes st;
             App.processedLines := App.processedLines st ++ [out];
             App.batch := App.batch st; App.batchRecords := App.batchRecords st;
             App.processedCount := S (App.processedCount st);
             App.calls := App.calls st; App.updates := App.updates st |}
  | NeedsEmbedding record text =>
      App.try_line H cfg fetch totalSize line st
      = App.flush_if_full H cfg fetch totalSize
          {| App.processedBytes := App.processedBytes st;
             App.processedLines := App.processedLines st;
             App.batch := App.batch st ++ [text];
             App.batchRecords := App.batchRecords st ++ [record];
             App.processedCount := App.processedCount st;
             App.calls := App.calls st; App.updates := App.updates st |}
  end.
Proof.
  unfold classify, App.try_line, App.dispatch.
  destruct (JSON_parse H line) as [record|]; [|eexists; reflexivity].
  destruct (App.getEmbeddingText record) as [text|e]; [|eexists; reflexivity].
  destruct (App.has_embedding record); [reflexivity|].
  destruct (negb (truthy text)); reflexivity.
Qed.

(** A line that does not parse: the raw line is pushed, nothing else moves. *)
Lemma step_parse_error (line : string) (st : App.loop_state) :
  classify H line = ParseError ->
  App.loop_step H cfg fetch totalSize st line
  = App.push_line line (App.add_bytes line st).
Proof.
  intros Hc. unfold App.loop_step.
  pose proof (try_line_classify line (App.add_bytes line st)) as Ht.
  rewrite Hc in Ht. destruct Ht as [e Ht]. rewrite Ht. reflexivity.
Qed.

Lemma flush_not_full (st : App.loop_state) :
  length (App.batch st) < App.BATCH_SIZE ->
  App.flush_if_full H cfg fetch totalSize st = (st, None).
Proof.
  intros Hlt. unfold App.flush_if_full.
  destruct (App.BATCH_SIZE <=? length (App.batch st)) eqn:Hle; [|reflexivity].
  apply Nat.leb_le in Hle. lia.
Qed.

Lemma step_pass_through (line out : string) (st : App.loop_state) :
  classify H line = PassThrough out ->
  length (App.batch st) < App.BATCH_SIZE ->
  App.loop_step H cfg fetch totalSize st line
  = {| App.processedBytes := App.processedBytes st + (String.length line + 1);
       App.processedLines := App.processedLines st ++ [out];
       App.batch := App.batch st; App.batchRecords := App.batchRecords st;
       App.processedCount := S (App.processedCount st);
       App.calls := App.calls st; App.updates := App.updates st |}.
Proof.
  intros Hc Hlt. unfold App.loop_step.
  pose proof (try_line_classify line (App.add_bytes line st)) as Ht.
  rewrite Hc in Ht. rewrite Ht.
  rewrite flush_not_full by exact Hlt. reflexivity.
Qed.

Lemma step_needs_open (line : string) (record text : json) (st : App.loop_state) :
  classify H line = NeedsEmbedding record text ->
  S (length (App.batch st)) < App.BATCH_SIZE ->
  App.loop_step H cfg fetch totalSize st line
  = {| App.processedBytes := App.processedBytes st + (String.length line + 1);
       App.processedLines := App.processedLines st;
       App.batch := App.batch st ++ [text];
       App.batchRecords := App.batchRecords st ++ [record];
       App.processedCount := App.processedCount st;
       App.calls := App.calls st; App.updates := App.updates st |}.
Proof.
  intros Hc Hlt. unfold App.loop_step.
  pose proof (try_line_classify line (App.add_bytes line st)) as Ht.
  rewrite Hc in Ht. rewrite Ht.
  rewrite flush_not_full; [reflexivity|].
  cbn [App.batch App.add_bytes]. rewrite length_app. simpl. lia.
Qed.

Lemma push_embedded_length (records : list json) (embeddings : list jsval) :
  length embeddings = length records ->
  length (App.push_embedded records embeddings) = length records.
Proof.
  revert embeddings.
  induction records as [|r records IH]; intros [|e embeddings] Hl;
    simpl in *; try reflexivity; try discriminate.
  f_equal. apply IH. lia.
Qed.

Lemma push_embedded_app (records1 records2 : list json) (embs1 embs2 : list jsval) :
  length embs1 = length records1 ->
  App.push_embedded (records1 ++ records2) (embs1 ++ embs2)
  = App.push_embedded records1 embs1 ++ App.push_embedded records2 embs2.
Proof.
  revert embs1.
  induction records1 as [|r records1 IH]; intros [|e embs1] Hl;
    simpl in *; try reflexivity; try discriminate.
  f_equal. apply IH. lia.
Qed.

(** With a provider that answers, a batch of strings of at most [BATCH_SIZE]
    goes out in one request and every record comes back embedded. *)
Lemma processBatch_answers (ss : list string) (records : list json)
      (outputBuffer : list string) (calls : list App.request) :
  answers_all H fetch ->
  length ss <= App.BATCH_SIZE ->
  length records = length ss ->
  exists embeddings,
    length embeddings = length records
    /\ App.processBatch H cfg fetch (map JStr ss) records outputBuffer calls
       = (Ok (outputBuffer ++ App.push_embedded records embeddings),
          calls ++ [request_for cfg (map Str.replace_newlines ss)]).
Proof.
  intros Hans Hle Hlen.
  unfold App.processBatch, App.fetchBatchEmbeddings.
  rewrite map_result_clean_strings.
  fold (request_for cfg (map Str.replace_newlines ss)).
  destruct (Hans (length calls) (request_for cfg (map Str.replace_newlines ss)))
    as (status & body & embeddings & Hf & Hr & Hl).
  { simpl. rewrite length_map. exact Hle. }
  rewrite Hf, Hr.
  simpl in Hl. rewrite length_map in Hl.
  exists embeddings. split; [lia|].
  replace (length embeddings =? length records) with true
    by (symmetry; apply Nat.eqb_eq; lia).
  reflexivity.
Qed.

End AppSteps.

(** ** Runs in which every dispatch is answered *)

Lemma Interleave_length {A : Type} (l1 l2 m : list A) :
  Interleave l1 l2 m -> length m = length l1 + length l2.
Proof.
  induction 1; simpl; lia.
Qed.

Lemma Interleave_prepend_right {A : Type} (p l1 l2 m : list A) :
  Interleave l1 l2 m -> Interleave l1 (p ++ l2) (p ++ m).
Proof.
  intros Hi. induction p as [|x p IH]; simpl; [exact Hi|].
  apply Interleave_right. exact IH.
Qed.

Lemma Interleave_append_right {A : Type} (p l1 l2 m : list A) :
  Interleave l1 l2 m -> Interleave l1 (l2 ++ p) (m ++ p).
Proof.
  induction 1; simpl.
  - induction p as [|x p IH]; simpl; [constructor|].
    apply Interleave_right. exact IH.
  - apply Interleave_left. assumption.
  - apply Interleave_right. assumption.
Qed.

Lemma strings_of_app (l1 l2 : list json) :
  strings_of (l1 ++ l2) = strings_of l1 ++ strings_of l2.
Proof.
  unfold strings_of. apply flat_map_app.
Qed.

Lemma cleaned_snoc (texts : list json) (s : string) :
  cleaned (texts ++ [JStr s]) = cleaned texts ++ [Str.replace_newlines s].
Proof.
  unfold cleaned. rewrite strings_of_app, map_app. reflexivity.
Qed.

Lemma cleaned_cons (s : string) (texts : list json) :
  cleaned (JStr s :: texts) = Str.replace_newlines s :: cleaned texts.
Proof. reflexivity. Qed.

Lemma open_batch_cleaned_length (st : App.loop_state) :
  open_batch st -> length (cleaned (App.batch st)) = length (App.batch st).
Proof.
  intros (Hs & _ & _). unfold cleaned. rewrite length_map.
  rewrite Hs at 2. now rewrite length_map.
Qed.

Lemma classified_cons (H : Host) (line : string) (lines : list string) :
  classified H (line :: lines)
  = match classify H line with
    | ParseError => inl line
    | PassThrough out => inl out
    | NeedsEmbedding record _ => inr record
    end :: classified H lines.
Proof. reflexivity. Qed.

Lemma records_of_app {A B : Type} (l1 l2 : list (A + B)) :
  records_of (l1 ++ l2) = records_of l1 ++ records_of l2.
Proof. unfold records_of. apply flat_map_app. Qed.

Lemma records_of_waiting {A B : Type} (waiting : list B) :
  records_of (map (@inr A B) waiting) = waiting.
Proof.
  induction waiting as [|y waiting IH]; [reflexivity|].
  cbn. f_equal. exact IH.
Qed.

Lemma render_outputs_records (records : list json) (embeddings : list jsval) :
  render_outputs (map inr records) embeddings = App.push_embedded records embeddings.
Proof.
  revert embeddings.
  induction records as [|r records IH]; intros [|e embeddings]; cbn;
    try reflexivity.
  - clear IH. induction records as [|r' records IH]; [reflexivity|exact IH].
  - f_equal. apply IH.
Qed.

Lemma render_outputs_app (items1 items2 : list (string + json))
      (embs1 embs2 : list jsval) :
  length embs1 = length (records_of items1) ->
  render_outputs (items1 ++ items2) (embs1 ++ embs2)
  = render_outputs items1 embs1 ++ render_outputs items2 embs2.
Proof.
  revert embs1.
  induction items1 as [|[out|record] items1 IH]; intros embs1 Hl; cbn in *.
  - destruct embs1; [reflexivity|discriminate Hl].
  - f_equal. apply IH. exact Hl.
  - destruct embs1 as [|e embs1]; [discriminate Hl|].
    cbn. f_equal. apply IH. injection Hl as Hl. exact Hl.
Qed.

Section AppAnswered.

Variable H : Host.
Variable cfg : App.config.
Variable fetch : nat -> App.request -> fetch_result.
Variable totalSize : nat.
Hypothesis Hanswers : answers_all H fetch.

(** The text that fills the batch: the batch goes out in one request and the
    state starts a new one. *)
Lemma step_needs_full (line : string) (record : json) (s : string)
      (st : App.loop_state) :
  classify H line = NeedsEmbedding record (JStr s) ->
  open_batch st ->
  S (length (App.batch st)) = App.BATCH_SIZE ->
  exists embeddings,
    length embeddings = S (length (App.batchRecords st))
    /\ App.loop_step H cfg fetch totalSize st line
       = {| App.processedBytes := App.processedBytes st + (String.length line + 1);
            App.processedLines :=
              App.processedLines st
              ++ App.push_embedded (App.batchRecords st ++ [record]) embeddings;
            App.batch := []; App.batchRecords := [];
            App.processedCount := App.processedCount st + S (length (App.batch st));
            App.calls :=
              App.calls st ++ [request_for cfg (cleaned (App.batch st ++ [JStr s]))];
            App.updates :=
              App.updates st
              ++ [App.progress_update H totalSize (App.add_bytes line st)
                    (App.processedCount st + S (length (App.batch st)))] |}.
Proof.
  intros Hc (Hs & Hlt & Hrec) Hfull.
  unfold App.loop_step.
  pose proof (try_line_classify H cfg fetch totalSize line (App.add_bytes line st)) as Ht.
  rewrite Hc in Ht. rewrite Ht. clear Ht.
  unfold App.flush_if_full.
  cbn [App.batch App.batchRecords App.processedLines App.calls App.add_bytes
       App.processedBytes App.processedCount App.updates].
  replace (App.BATCH_SIZE <=? length (App.batch st ++ [JStr s])) with true
    by (symmetry; apply Nat.leb_le; rewrite length_app; simpl; lia).
  assert (Hb : App.batch st ++ [JStr s]
               = map JStr (strings_of (App.batch st) ++ [s])).
  { rewrite map_app. simpl. rewrite <- Hs. reflexivity. }
  assert (Hlen : length (strings_of (App.batch st) ++ [s]) = App.BATCH_SIZE).
  { rewrite <- Hfull. rewrite length_app. simpl.
    rewrite Hs at 2. rewrite length_map. lia. }
  destruct (processBatch_answers H cfg fetch
              (strings_of (App.batch st) ++ [s]) (App.batchRecords st ++ [record])
              (App.processedLines st) (App.calls st) Hanswers)
    as (embeddings & Hl & Hp).
  { lia. }
  { rewrite Hlen, length_app. simpl. lia. }
  rewrite Hb, Hp. exists embeddings.
  split; [rewrite Hl, length_app; simpl; lia|].
  unfold cleaned. rewrite strings_of_map_JStr.
  rewrite length_map, Hlen, <- Hfull.
  reflexivity.
Qed.

Lemma needs_texts_cons (line : string) (lines : list string) :
  needs_texts H (line :: lines)
  = match classify H line with
    | NeedsEmbedding _ text => [text]
    | _ => []
    end ++ needs_texts H lines.
Proof. reflexivity. Qed.

Lemma needs_records_cons (line : string) (lines : list string) :
  needs_records H (line :: lines)
  = match classify H line with
    | NeedsEmbedding record _ => [record]
    | _ => []
    end ++ needs_records H lines.
Proof. reflexivity. Qed.

Lemma immediate_lines_cons (line : string) (lines : list string) :
  immediate_lines H (line :: lines)
  = match classify H line with
    | ParseError => [line]
    | PassThrough out => [out]
    | NeedsEmbedding _ _ => []
    end ++ immediate_lines H lines.
Proof. reflexivity. Qed.

(** What the loop leaves when it starts from an open batch: the requests are
    the batches the batcher emits, and the output interleaves the immediate
    lines with the embedded records of the batches sent. *)
Lemma run_loop_answered (lines : list string) :
  forall st : App.loop_state,
    open_batch st ->
    texts_are_strings H lines ->
    let st' := App.run_loop H cfg fetch totalSize lines st in
    open_batch st'
    /\ (exists emitted,
           batcher App.BATCH_SIZE (cleaned (App.batch st)) (cleaned (needs_texts H lines))
           = (emitted, cleaned (App.batch st'))
           /\ map App.req_input (App.calls st')
              = map App.req_input (App.calls st) ++ emitted)
    /\ (exists embeddings flushed m,
           App.batchRecords st ++ needs_records H lines = flushed ++ App.batchRecords st'
           /\ length embeddings = length flushed
           /\ App.processedLines st' = App.processedLines st ++ m
           /\ Interleave (immediate_lines H lines)
                         (App.push_embedded flushed embeddings) m
           /\ exists items,
               flush_order App.BATCH_SIZE (App.batchRecords st) (classified H lines)
               = items ++ map inr (App.batchRecords st')
               /\ records_of items = flushed
               /\ m = render_outputs items embeddings).
Proof.
  induction lines as [|line lines IH]; intros st Hopen Hstr.
  - simpl. split; [exact Hopen|]. split.
    + exists []. split; [reflexivity|now rewrite app_nil_r].
    + exists [], [], []. simpl. rewrite !app_nil_r.
      repeat split; try constructor.
      exists []. repeat split.
  - unfold texts_are_strings in Hstr. rewrite needs_texts_cons in Hstr.
    rewrite forallb_app in Hstr. apply andb_true_iff in Hstr as [Hhere Hrest].
    cbn [App.run_loop fold_left].
    fold (App.run_loop H cfg fetch totalSize lines
            (App.loop_step H cfg fetch totalSize st line)).
    rewrite needs_texts_cons, needs_records_cons, immediate_lines_cons, classified_cons.
    destruct (classify H line) as [|out|record text] eqn:Hc.
    + (* the raw line is pushed *)
      rewrite (step_parse_error H cfg fetch totalSize line st Hc).
      destruct (IH (App.push_line line (App.add_bytes line st)) Hopen Hrest)
        as (Ho & (emitted & Hb & Hcalls)
            & (embs & flushed & m & Hrec & Hl & Hout & Hi & items & Hfo & Hrecs & Hm)).
      split; [exact Ho|]. split.
      * exists emitted. split; [exact Hb|exact Hcalls].
      * exists embs, flushed, (line :: m).
        split; [exact Hrec|]. split; [exact Hl|]. split; [|split].
        -- rewrite Hout. cbn [App.processedLines App.push_line App.add_bytes].
           rewrite <- app_assoc. reflexivity.
        -- simpl. apply Interleave_left. exact Hi.
        -- exists (inl line :: items).
           cbn [flush_order App.batchRecords App.push_line App.add_bytes] in Hfo |- *.
           rewrite Hfo. split; [reflexivity|]. split; [exact Hrecs|].
           cbn [render_outputs]. rewrite Hm. reflexivity.
    + (* a record that needs no embedding *)
      destruct Hopen as (Hs & Hlt & Hlen).
      rewrite (step_pass_through H cfg fetch totalSize line out st Hc Hlt).
      match goal with
      | |- context [App.run_loop H cfg fetch totalSize lines ?s] =>
          destruct (IH s (conj Hs (conj Hlt Hlen)) Hrest)
          as (Ho & (emitted & Hb & Hcalls)
              & (embs & flushed & m & Hrec & Hl & Hout & Hi & items & Hfo & Hrecs & Hm))
      end.
      split; [exact Ho|]. split.
      * exists emitted. split; [exact Hb|exact Hcalls].
      * exists embs, flushed, (out :: m).
        split; [exact Hrec|]. split; [exact Hl|]. split; [|split].
        -- rewrite Hout. cbn [App.processedLines]. rewrite <- app_assoc. reflexivity.
        -- simpl. apply Interleave_left. exact Hi.
        -- exists (inl out :: items).
           cbn [flush_order App.batchRecords] in Hfo |- *.
           rewrite Hfo. split; [reflexivity|]. split; [exact Hrecs|].
           cbn [render_outputs]. rewrite Hm. reflexivity.
    + (* a record that joins the batch *)
      simpl in Hhere. destruct text as [| | |s| |]; try discriminate Hhere.
      pose proof (open_batch_cleaned_length st Hopen) as Hcl.
      destruct Hopen as (Hs & Hlt & Hlen).
      cbn [app]. rewrite cleaned_cons.
      cbn [batcher flush_order].
      rewrite !length_app, Hcl, Hlen. cbn [length].
      destruct (App.BATCH_SIZE <=? length (App.batch st) + 1) eqn:Hfull.
      * (* the batch is full and goes out *)
        apply Nat.leb_le in Hfull.
        destruct (step_needs_full line record s st Hc (conj Hs (conj Hlt Hlen)))
          as (embs0 & Hl0 & Hstep); [lia|].
        rewrite Hstep.
        match goal with
        | |- context [App.run_loop H cfg fetch totalSize lines ?s] =>
            destruct (IH s) as (Ho & (emitted & Hb & Hcalls)
                                & (embs & flushed & m & Hrec & Hl & Hout & Hi
                                   & items & Hfo & Hrecs & Hm));
            [ repeat split; simpl; unfold App.BATCH_SIZE; lia | exact Hrest | ]
        end.
        cbn [App.batch App.batchRecords App.processedLines App.calls] in *.
        change (cleaned []) with (@nil string) in Hb.
        split; [exact Ho|]. split.
        -- rewrite Hb.
           exists ((cleaned (App.batch st) ++ [Str.replace_newlines s]) :: emitted).
           split; [reflexivity|].
           rewrite Hcalls, map_app. cbn [map request_for App.req_input].
           rewrite cleaned_snoc, <- app_assoc. reflexivity.
        -- exists (embs0 ++ embs), ((App.batchRecords st ++ [record]) ++ flushed),
             (App.push_embedded (App.batchRecords st ++ [record]) embs0 ++ m).
           split; [|split; [|split; [|split]]].
           ++ simpl in Hrec. rewrite <- !app_assoc. simpl. rewrite Hrec. reflexivity.
           ++ rewrite !length_app. simpl. lia.
           ++ rewrite Hout, <- app_assoc. reflexivity.
           ++ rewrite push_embedded_app
                by (rewrite length_app; simpl; lia).
              simpl. apply Interleave_prepend_right. exact Hi.
           ++ exists (map inr (App.batchRecords st ++ [record]) ++ items).
              rewrite Hfo, <- app_assoc. split; [reflexivity|]. split.
              ** rewrite records_of_app, records_of_waiting, Hrecs. reflexivity.
              ** rewrite render_outputs_app
                   by (rewrite records_of_waiting, Hl0, length_app; simpl; lia).
                 rewrite render_outputs_records, Hm. reflexivity.
      * (* the batch stays open *)
        apply Nat.leb_gt in Hfull.
        rewrite (step_needs_open H cfg fetch totalSize line record (JStr s) st Hc)
          by lia.
        match goal with
        | |- context [App.run_loop H cfg fetch totalSize lines ?s] =>
            destruct (IH s) as (Ho & (emitted & Hb & Hcalls)
                                & (embs & flushed & m & Hrec & Hl & Hout & Hi
                                   & items & Hfo & Hrecs & Hm));
            [ | exact Hrest | ]
        end.
        { repeat split; cbn [App.batch App.batchRecords].
          - rewrite strings_of_app, map_app. simpl. rewrite <- Hs. reflexivity.
          - rewrite length_app. simpl. lia.
          - rewrite !length_app. simpl. lia. }
        cbn [App.batch App.batchRecords App.processedLines App.calls] in *.
        rewrite cleaned_snoc in Hb.
        split; [exact Ho|]. split.
        -- exists emitted. split; [exact Hb|exact Hcalls].
        -- exists embs, flushed, m.
           split; [|split; [exact Hl|split; [exact Hout|split; [exact Hi|]]]].
           ++ rewrite <- Hrec, <- app_assoc. reflexivity.
           ++ exists items. split; [exact Hfo|]. split; [exact Hrecs|exact Hm].
Qed.

End AppAnswered.

(** ** The batcher *)

Lemma batcher_spec {A : Type} (size : nat) (items : list A) :
  0 < size ->
  forall current emitted open,
    length current < size ->
    batcher size current items = (emitted, open) ->
    Forall (fun b => length b = size) emitted
    /\ length open < size
    /\ concat emitted ++ open = current ++ items.
Proof.
  intros Hsize.
  induction items as [|x items IH]; intros current emitted open Hlt Hb; simpl in Hb.
  - inversion Hb; subst. simpl. rewrite app_nil_r. repeat split; [constructor|exact Hlt].
  - destruct (size <=? length (current ++ [x])) eqn:Hfull.
    + apply Nat.leb_le in Hfull.
      destruct (batcher size [] items) as [emitted' open'] eqn:Hb'.
      inversion Hb; subst.
      destruct (IH [] emitted' open) as (Hall & Hopen & Hcat); [simpl; lia|exact Hb'|].
      repeat split.
      * constructor; [|exact Hall].
        rewrite length_app in *. simpl in *. lia.
      * exact Hopen.
      * simpl. rewrite <- !app_assoc. rewrite Hcat. reflexivity.
    + apply Nat.leb_gt in Hfull.
      destruct (IH (current ++ [x]) emitted open Hfull Hb) as (Hall & Hopen & Hcat).
      repeat split; try assumption.
      rewrite Hcat, <- app_assoc. reflexivity.
Qed.

Lemma batches_spec {A : Type} (size : nat) (items : list A) :
  0 < size ->
  concat (batches size items) = items
  /\ exists full last,
      batches size items = full ++ last
      /\ Forall (fun b => length b = size) full
      /\ (last = [] \/ exists b, last = [b] /\ 0 < length b < size).
Proof.
  intros Hsize. unfold batches.
  destruct (batcher size [] items) as [emitted open] eqn:Hb.
  destruct (batcher_spec size items Hsize [] emitted open) as (Hall & Hopen & Hcat);
    [simpl; lia|exact Hb|].
  simpl in Hcat.
  destruct open as [|x open].
  - rewrite app_nil_r in Hcat. split; [exact Hcat|].
    exists emitted, []. rewrite app_nil_r. repeat split; [exact Hall|now left].
  - split.
    + rewrite concat_app. simpl. rewrite app_nil_r. exact Hcat.
    + exists emitted, [x :: open]. repeat split; [exact Hall|].
      right. exists (x :: open). repeat split; simpl in *; lia.
Qed.

(** ** Whole runs in which every dispatch is answered *)

Section AppAnsweredRuns.

Variable H : Host.
Variable cfg : App.config.
Variable fetch : nat -> App.request -> fetch_result.
Variable totalSize : nat.
Hypothesis Hanswers : answers_all H fetch.

Lemma open_batch_initial : open_batch App.initial_state.
Proof.
  repeat split; simpl; unfold App.BATCH_SIZE; lia.
Qed.

Lemma classified_length (lines : list string) :
  length (immediate_lines H lines) + length (needs_records H lines) = length lines.
Proof.
  induction lines as [|line lines IH]; [reflexivity|].
  rewrite immediate_lines_cons, needs_records_cons, !length_app.
  destruct (classify H line); simpl; lia.
Qed.

(** The run ends [done]; its requests are the batches of the batcher and its
    output holds the immediate lines and the embedded records in batch-flush
    order. *)
Lemma processFile_answered (lines : list string) :
  texts_are_strings H lines ->
  let r := App.processFile H cfg fetch totalSize lines in
  map App.req_input (App.run_calls r)
  = batches App.BATCH_SIZE (cleaned (needs_texts H lines))
  /\ exists out embeddings,
      App.run_output r = Some out
      /\ length embeddings = length (needs_records H lines)
      /\ Interleave (immediate_lines H lines)
                    (App.push_embedded (needs_records H lines) embeddings) out
      /\ out = render_outputs (flush_order App.BATCH_SIZE [] (classified H lines))
                              embeddings.
Proof.
  intros Hstr.
  destruct (run_loop_answered H cfg fetch totalSize Hanswers lines
              App.initial_state open_batch_initial Hstr)
    as (Hopen & (emitted & Hb & Hcalls)
        & (embs & flushed & m & Hrec & Hl & Hout & Hi & items & Hfo & Hrecs & Hm)).
  cbn zeta. unfold App.processFile.
  set (st := App.run_loop H cfg fetch totalSize lines App.initial_state) in *.
  cbn [App.batch App.batchRecords App.calls App.processedLines App.initial_state
       map app] in Hb, Hcalls, Hrec, Hout, Hfo.
  change (cleaned []) with (@nil string) in Hb.
  pose proof (open_batch_cleaned_length st Hopen) as Hcl.
  destruct Hopen as (Hs & Hlt & Hlen).
  unfold batches. rewrite Hb, Hfo.
  destruct (0 <? length (App.batch st)) eqn:Hne.
  - apply Nat.ltb_lt in Hne.
    destruct (processBatch_answers H cfg fetch (strings_of (App.batch st))
                (App.batchRecords st) (App.processedLines st) (App.calls st) Hanswers)
      as (embs' & Hl' & Hp).
    { rewrite Hs, length_map in Hlt. lia. }
    { rewrite Hlen. rewrite Hs at 1. now rewrite length_map. }
    rewrite <- Hs in Hp. rewrite Hp.
    cbn [App.finish App.run_calls App.run_output].
    split.
    + rewrite map_app, Hcalls. cbn [map request_for App.req_input].
      fold (cleaned (App.batch st)).
      destruct (cleaned (App.batch st)) as [|c rest] eqn:Hcb; [simpl in Hcl; lia|].
      reflexivity.
    + exists (App.processedLines st ++ App.push_embedded (App.batchRecords st) embs'),
        (embs ++ embs').
      split; [reflexivity|]. split; [|split].
      * rewrite Hrec, !length_app. lia.
      * rewrite Hrec, push_embedded_app by exact Hl.
        rewrite Hout. apply Interleave_append_right. exact Hi.
      * rewrite render_outputs_app by (rewrite Hrecs; exact Hl).
        rewrite render_outputs_records, Hout, Hm. reflexivity.
  - apply Nat.ltb_ge in Hne.
    assert (Hnil : App.batch st = []) by (destruct (App.batch st); [reflexivity|simpl in Hne; lia]).
    assert (Hrnil : App.batchRecords st = []).
    { rewrite Hnil in Hlen. destruct (App.batchRecords st); [reflexivity|discriminate]. }
    cbn [App.finish App.run_calls App.run_output].
    rewrite Hnil. change (cleaned []) with (@nil string).
    split; [rewrite Hcalls; reflexivity|].
    exists (App.processedLines st), embs.
    rewrite Hrnil, app_nil_r in Hrec.
    split; [reflexivity|]. split; [|split].
    + rewrite Hrec. exact Hl.
    + rewrite Hrec, Hout. exact Hi.
    + rewrite Hrnil. cbn [map]. rewrite app_nil_r, Hout, Hm. reflexivity.
Qed.

(** The end of a run whose last batch is open: the batch is sent, when it is
    not empty, and the run ends with the output of the loop followed by the
    records of the batch. *)
Lemma finish_answered (lines : list string) :
  let st := App.run_loop H cfg fetch totalSize lines App.initial_state in
  open_batch st ->
  exists embeddings,
    length embeddings = length (App.batchRecords st)
    /\ App.run_output (App.processFile H cfg fetch totalSize lines)
       = Some (App.processedLines st
               ++ App.push_embedded (App.batchRecords st) embeddings).
Proof.
  intros st (Hs & Hlt & Hlen). unfold App.processFile. fold st.
  destruct (0 <? length (App.batch st)) eqn:Hne.
  - destruct (processBatch_answers H cfg fetch (strings_of (App.batch st))
                (App.batchRecords st) (App.processedLines st) (App.calls st) Hanswers)
      as (embs & Hl & Hp).
    { rewrite Hs, length_map in Hlt. lia. }
    { rewrite Hlen. rewrite Hs at 1. now rewrite length_map. }
    rewrite <- Hs in Hp. rewrite Hp. exists embs. split; [exact Hl|reflexivity].
  - apply Nat.ltb_ge in Hne.
    assert (Hrnil : App.batchRecords st = []).
    { destruct (App.batchRecords st); [reflexivity|]. cbn in Hlen. lia. }
    exists []. rewrite Hrnil. cbn [App.push_embedded App.finish App.run_output length].
    rewrite app_nil_r. split; reflexivity.
Qed.

Lemma needs_texts_app (l1 l2 : list string) :
  needs_texts H (l1 ++ l2) = needs_texts H l1 ++ needs_texts H l2.
Proof. unfold needs_texts. apply flat_map_app. Qed.

Lemma texts_are_strings_app (l1 l2 : list string) :
  texts_are_strings H (l1 ++ l2) ->
  texts_are_strings H l1 /\ texts_are_strings H l2.
Proof.
  unfold texts_are_strings. rewrite needs_texts_app, forallb_app.
  apply andb_true_iff.
Qed.

(** A line that does not wait for a batch is output right after what the
    loop has output by then, and the records that wait in the batch at that
    moment come after it. *)
Lemma processFile_immediate_first (before after : list string) (line x : string) :
  texts_are_strings H (before ++ line :: after) ->
  classify H line = ParseError /\ x = line \/ classify H line = PassThrough x ->
  let st := App.run_loop H cfg fetch totalSize before App.initial_state in
  exists items embeddings,
    App.run_output (App.processFile H cfg fetch totalSize (before ++ line :: after))
    = Some (App.processedLines st ++ x :: render_outputs items embeddings)
    /\ records_of items = App.batchRecords st ++ needs_records H after
    /\ length embeddings = length (records_of items).
Proof.
  intros Hstr Hline st.
  apply texts_are_strings_app in Hstr as [Hbefore Hrest].
  assert (Hafter : texts_are_strings H after).
  { change (line :: after) with ([line] ++ after) in Hrest.
    apply texts_are_strings_app in Hrest as [_ Hafter]. exact Hafter. }
  destruct (run_loop_answered H cfg fetch totalSize Hanswers before
              App.initial_state open_batch_initial Hbefore) as (Hopen & _).
  fold st in Hopen.
  set (st1 := App.loop_step H cfg fetch totalSize st line).
  assert (Hst1 : open_batch st1
                 /\ App.processedLines st1 = App.processedLines st ++ [x]
                 /\ App.batchRecords st1 = App.batchRecords st).
  { subst st1. destruct Hline as [[Hc ->]|Hc].
    - rewrite (step_parse_error H cfg fetch totalSize line st Hc).
      split; [exact Hopen|]. split; reflexivity.
    - destruct Hopen as (Hs & Hlt & Hlen).
      rewrite (step_pass_through H cfg fetch totalSize line x st Hc Hlt).
      split; [exact (conj Hs (conj Hlt Hlen))|]. split; reflexivity. }
  destruct Hst1 as (Hopen1 & Hout1 & Hrec1).
  destruct (run_loop_answered H cfg fetch totalSize Hanswers after st1 Hopen1 Hafter)
    as (Hopen2 & _ & (embs & flushed & m & Hrec & Hl & Hout & _ & items & _ & Hrecs & Hm)).
  assert (Hrun : App.run_loop H cfg fetch totalSize (before ++ line :: after)
                              App.initial_state
                 = App.run_loop H cfg fetch totalSize after st1).
  { unfold App.run_loop. rewrite fold_left_app. reflexivity. }
  destruct (finish_answered (before ++ line :: after)) as (embs' & Hl' & Hfin).
  { rewrite Hrun. exact Hopen2. }
  rewrite Hrun in Hfin, Hl'.
  set (st2 := App.run_loop H cfg fetch totalSize after st1) in *.
  exists (items ++ map inr (App.batchRecords st2)), (embs ++ embs').
  rewrite records_of_app, records_of_waiting, Hrecs, <- Hrec, Hrec1.
  split; [|split; [reflexivity|]].
  - rewrite Hfin, Hout, Hout1, Hm.
    rewrite render_outputs_app by (rewrite Hrecs; exact Hl).
    rewrite render_outputs_records, <- !app_assoc. reflexivity.
  - rewrite length_app, Hl, Hl', <- length_app, <- Hrec, Hrec1. reflexivity.
Qed.

End AppAnsweredRuns.

(** ** The script, line by line *)

Section CliSteps.

Variable H : Host.
Variable EMBEDDING_PROVIDER API_URL MODEL_NAME TRANSFORMER_MODEL : string.
Variable fetch : nat -> Cli.request -> fetch_result.
Variable R : Local.runtime.

Abbreviation fetchEmbedding :=
  (Cli.fetchEmbedding H EMBEDDING_PROVIDER API_URL MODEL_NAME TRANSFORMER_MODEL fetch R).
Abbreviation loop_step :=
  (Cli.loop_step H EMBEDDING_PROVIDER API_URL MODEL_NAME TRANSFORMER_MODEL fetch R).
Abbreviation main :=
  (Cli.main H EMBEDDING_PROVIDER API_URL MODEL_NAME TRANSFORMER_MODEL fetch R).

(** A provider call touches the logs only. *)
Lemma fetchEmbedding_counters (text : json) (st : Cli.state) :
  let st' := snd (fetchEmbedding text st) in
  Cli.written st' = Cli.written st
  /\ Cli.errorCount st' = Cli.errorCount st
  /\ Cli.processedCount st' = Cli.processedCount st
  /\ Cli.skippedCount st' = Cli.skippedCount st.
Proof.
  unfold Cli.fetchEmbedding, Cli.fetchEmbeddingWithTransformers, Cli.fetchEmbeddingViaApi.
  destruct (String.eqb EMBEDDING_PROVIDER "transformers").
  - destruct (Local.pipeline R TRANSFORMER_MODEL); [simpl; auto|].
    destruct text; simpl; auto.
    destruct (Local.extractor R _ _ _); simpl; auto.
  - destruct text; simpl; auto.
    destruct (fetch _ _); simpl; auto.
    destruct (Cli.read_response H status body); simpl; auto.
Qed.

(** A line that is not blank and does not parse is counted as an error and
    nothing is written for it. *)
Lemma cli_step_parse_error (line : string) (st : Cli.state) :
  Str.is_blank line = false ->
  JSON_parse H line = None ->
  loop_step st line = Cli.count_error st.
Proof.
  intros Hb Hp. unfold Cli.loop_step. rewrite Hb, Hp. reflexivity.
Qed.

(** The log of a failed record touches the error count only, and adds at
    most one to it. *)
Lemma log_failed_counters (record : json) (st : Cli.state) :
  let st' := Cli.log_failed record st in
  Cli.written st' = Cli.written st
  /\ Cli.processedCount st' = Cli.processedCount st
  /\ Cli.skippedCount st' = Cli.skippedCount st
  /\ Cli.calls st' = Cli.calls st
  /\ Cli.extractions st' = Cli.extractions st
  /\ Cli.pipelineRequested st' = Cli.pipelineRequested st
  /\ Cli.errorCount st <= Cli.errorCount st' <= S (Cli.errorCount st).
Proof.
  unfold Cli.log_failed.
  destruct (bind (get_prop record "id") _); cbn;
    repeat (split; [reflexivity|]); lia.
Qed.

(** Every line that is not blank adds one chunk to the output, or one or two
    to the error count. *)
Lemma cli_step_range (n failed : nat) (line : string) (st : Cli.state) :
  counters_within n failed st ->
  exists failed',
    counters_within (n + (if Str.is_blank line then 0 else 1)) failed' (loop_step st line)
    /\ failed <= failed'.
Proof.
  intros (Hsum & Hw & He). unfold Cli.loop_step, counters_within.
  destruct (Str.is_blank line); [exists failed; repeat split; lia|].
  destruct (JSON_parse H line) as [record|];
    [|exists (S failed); cbn; repeat split; lia].
  destruct (Cli.getEmbeddingText record) as [text|e];
    [|exists (S failed); cbn; repeat split; lia].
  destruct (negb (truthy text)).
  { exists failed. cbn. rewrite length_app. cbn. repeat split; lia. }
  destruct (App.has_embedding record).
  { exists failed. cbn. rewrite length_app. cbn. repeat split; lia. }
  pose proof (fetchEmbedding_counters text st) as Hf.
  destruct (fetchEmbedding text st) as [[embedding|] st1];
    cbn in Hf; destruct Hf as (Hw1 & He1 & Hp1 & Hs1).
  - exists failed. cbn. rewrite length_app, Hw1, He1, Hp1, Hs1. cbn. repeat split; lia.
  - exists (S failed).
    destruct (log_failed_counters record (Cli.count_error st1))
      as (Hw2 & Hp2 & Hs2 & _ & _ & _ & He2).
    cbn in Hw2, Hp2, Hs2, He2.
    rewrite Hw2, Hp2, Hs2, Hw1, Hp1, Hs1. rewrite He1 in He2. repeat split; lia.
Qed.

Lemma cli_loop_range (lines : list string) :
  forall n failed st,
    counters_within n failed st ->
    exists failed',
      counters_within (n + length (non_blank lines)) failed'
                      (fold_left loop_step lines st).
Proof.
  induction lines as [|line lines IH]; intros n failed st Hst; cbn [fold_left].
  - exists failed. replace (n + length (non_blank [])) with n by (cbn; lia). exact Hst.
  - destruct (cli_step_range n failed line st Hst) as (failed1 & Hst1 & _).
    destruct (IH _ _ _ Hst1) as (failed' & Hn).
    exists failed'. unfold non_blank in *. cbn [filter].
    destruct (Str.is_blank line); cbn [negb length] in *.
    + replace (n + 0) with n in Hn by lia. exact Hn.
    + replace (n + S (length (filter (fun l => negb (Str.is_blank l)) lines)))
        with (n + 1 + length (filter (fun l => negb (Str.is_blank l)) lines)) by lia.
      exact Hn.
Qed.

(** The script writes one line for every non-blank input line that it does
    not count as an error, and counts every other one once or twice. *)
Lemma cli_main_range (lines : list string) :
  exists failed,
    length (Cli.written (main lines)) + failed = length (non_blank lines)
    /\ failed <= Cli.errorCount (main lines) <= 2 * failed.
Proof.
  unfold Cli.main.
  destruct (cli_loop_range lines 0 0 Cli.initial_state) as (failed & Hsum & Hw & He).
  { repeat split; cbn; lia. }
  exists failed. cbn in Hsum. split; [lia|exact He].
Qed.

(** A turn of the loop writes nothing or the chunk of its line. *)
Lemma cli_step_written (line : string) (st : Cli.state) :
  let st' := loop_step st line in
  Cli.written st' = Cli.written st
  \/ exists chunk,
      Cli.written st' = Cli.written st ++ [chunk] /\ cli_line_output H line chunk.
Proof.
  unfold Cli.loop_step.
  destruct (Str.is_blank line); [left; reflexivity|].
  destruct (JSON_parse H line) as [record|] eqn:Hp; [|left; reflexivity].
  destruct (Cli.getEmbeddingText record) as [text|e]; [|left; reflexivity].
  destruct (negb (truthy text)).
  { right. eexists. split; [reflexivity|]. exists record. split; [exact Hp|now left]. }
  destruct (App.has_embedding record).
  { right. eexists. split; [reflexivity|]. exists record. split; [exact Hp|now left]. }
  pose proof (fetchEmbedding_counters text st) as Hf.
  destruct (fetchEmbedding text st) as [[embedding|] st1];
    simpl in Hf; destruct Hf as (Hw & _); simpl.
  - right. eexists. rewrite Hw. split; [reflexivity|].
    exists record. split; [exact Hp|]. right. exists embedding. reflexivity.
  - left. destruct (log_failed_counters record (Cli.count_error st1)) as (Hw2 & _).
    cbn in Hw2. rewrite Hw2. exact Hw.
Qed.

(** The script writes in input order. *)
Lemma cli_loop_written (lines : list string) :
  forall st : Cli.state,
  exists outs : list (option string),
    Forall2 (fun line o => match o with
                           | Some chunk => cli_line_output H line chunk
                           | None => True
                           end) lines outs
    /\ Cli.written (fold_left loop_step lines st)
       = Cli.written st
         ++ flat_map (fun o => match o with Some chunk => [chunk] | None => [] end) outs.
Proof.
  induction lines as [|line lines IH]; intros st; cbn [fold_left].
  - exists []. split; [constructor|]. simpl. now rewrite app_nil_r.
  - destruct (IH (loop_step st line)) as (outs & Hall & Hw).
    destruct (cli_step_written line st) as [Hs|(chunk & Hs & Hc)].
    + exists (None :: outs). split; [constructor; [exact I|exact Hall]|].
      rewrite Hw, Hs. reflexivity.
    + exists (Some chunk :: outs). split; [constructor; [exact Hc|exact Hall]|].
      rewrite Hw, Hs, <- app_assoc. reflexivity.
Qed.

Lemma cli_main_written (lines : list string) :
  written_in_order H lines (Cli.written (main lines)).
Proof.
  destruct (cli_loop_written lines Cli.initial_state) as (outs & Hall & Hw).
  exists outs. split; [exact Hall|exact Hw].
Qed.

End CliSteps.

(** ** Order of the output (C1) and batches (C4) *)

(** The stub provider of the examples answers every request of at most
    [BATCH_SIZE] texts: the host knows the reply. *)
Ltac stub_answers :=
  let n := fresh "n" in
  let url := fresh "url" in
  let model := fresh "model" in
  let input := fresh "input" in
  let Hle := fresh "Hle" in
  intros n [url model input] Hle; cbn [App.req_input] in *;
  exists 200, (JSON_stringify (Demo.reply (map (fun _ => e01) input))),
    (map (fun _ => Some e01) input);
  split; [reflexivity|]; split; [|apply length_map];
  do 9 (destruct input as [|? input]; [vm_compute; reflexivity|]);
  simpl in Hle; unfold App.BATCH_SIZE in Hle; lia.

Lemma stub_answers_twenty : answers_all twenty_host (Demo.stub e01).
Proof. stub_answers. Qed.

Lemma stub_answers_text_then_bare : answers_all text_then_bare_host (Demo.stub e01).
Proof. stub_answers. Qed.

Lemma cleaned_length (texts : list json) :
  forallb is_string texts = true -> length (cleaned texts) = length texts.
Proof.
  unfold cleaned. rewrite length_map.
  induction texts as [|t texts IH]; intros Hs; [reflexivity|].
  simpl in Hs. apply andb_true_iff in Hs as [Ht Hs].
  destruct t; try discriminate Ht. simpl. f_equal. exact (IH Hs).
Qed.

Lemma batches_of_twenty {A : Type} (items : list A) :
  length items = 20 -> map (@length A) (batches 8 items) = [8; 8; 4].
Proof.
  intros Hl.
  do 21 (destruct items as [|? items]; [try discriminate Hl|]).
  - reflexivity.
  - discriminate Hl.
Qed.

(** C1, as stated, fails: a record without text that follows a record waiting
    in the batch is output before it, so the output lines carry the ids 2, 1
    where the input lines carry 1, 2. *)
Lemma C1_counterexample :
  App.run_output (App.processFile text_then_bare_host App.default_config (Demo.stub e01)
                                  (file_size text_then_bare) text_then_bare)
  = Some [JSON_stringify (bare_record 2); JSON_stringify (embedded_record 1)]
  /\ map (line_id text_then_bare_host)
         [JSON_stringify (bare_record 2); JSON_stringify (embedded_record 1)]
     <> map (line_id text_then_bare_host) text_then_bare.
Proof.
  split; [vm_compute; reflexivity|].
  vm_compute. discriminate.
Qed.

(** C1, amended: when every dispatch is answered, a run of the browser
    pipeline on N lines ends with an output of exactly N lines, in batch-flush
    order: a line that does not wait for a batch (a record already embedded, a
    record without text, a line that does not parse) is output when it is
    read, hence before the records that wait in the batch at that moment; a
    record that needs an embedding is output with its batch, when the batch
    is full or at the end of the stream.  Each of the two groups keeps its
    input order.  The script writes, in input order, one line for every
    non-blank line it does not count as an error. *)
Theorem C1_output_interleaves (H : Host) (cfg : App.config)
        (fetch : nat -> App.request -> fetch_result) (totalSize : nat)
        (lines : list string) :
  answers_all H fetch ->
  texts_are_strings H lines ->
  (exists out embeddings,
      App.run_output (App.processFile H cfg fetch totalSize lines) = Some out
      /\ length out = length lines
      /\ length embeddings = length (needs_records H lines)
      /\ out = render_outputs (flush_order App.BATCH_SIZE [] (classified H lines))
                              embeddings
      /\ Interleave (immediate_lines H lines)
                    (App.push_embedded (needs_records H lines) embeddings) out)
  /\ (forall before line after x,
         lines = before ++ line :: after ->
         classify H line = ParseError /\ x = line \/ classify H line = PassThrough x ->
         let st := App.run_loop H cfg fetch totalSize before App.initial_state in
         exists items embeddings,
           App.run_output (App.processFile H cfg fetch totalSize lines)
           = Some (App.processedLines st ++ x :: render_outputs items embeddings)
           /\ records_of items = App.batchRecords st ++ needs_records H after
           /\ length embeddings = length (records_of items))
  /\ (forall EMBEDDING_PROVIDER API_URL MODEL_NAME TRANSFORMER_MODEL cli_fetch R,
         let st := Cli.main H EMBEDDING_PROVIDER API_URL MODEL_NAME TRANSFORMER_MODEL
                            cli_fetch R lines in
         (exists failed,
             length (Cli.written st) + failed = length (non_blank lines)
             /\ failed <= Cli.errorCount st <= 2 * failed)
         /\ written_in_order H lines (Cli.written st)).
Proof.
  intros Hanswers Hstr. split; [|split].
  - destruct (processFile_answered H cfg fetch totalSize Hanswers lines Hstr)
      as (_ & out & embeddings & Hout & Hl & Hi & Horder).
    exists out, embeddings.
    split; [exact Hout|]. split; [|split; [exact Hl|split; [exact Horder|exact Hi]]].
    rewrite (Interleave_length _ _ _ Hi).
    rewrite push_embedded_length by exact Hl.
    apply classified_length.
  - intros before line after x -> Hline.
    exact (processFile_immediate_first H cfg fetch totalSize Hanswers
             before after line x Hstr Hline).
  - intros. split; [apply cli_main_range|apply cli_main_written].
Qed.

Lemma C1_witness :
  exists out embeddings,
    App.run_output (App.processFile text_then_bare_host App.default_config
                                    (Demo.stub e01) (file_size text_then_bare)
                                    text_then_bare) = Some out
    /\ length out = length text_then_bare
    /\ length embeddings = length (needs_records text_then_bare_host text_then_bare)
    /\ out = render_outputs
               (flush_order App.BATCH_SIZE [] (classified text_then_bare_host text_then_bare))
               embeddings
    /\ Interleave (immediate_lines text_then_bare_host text_then_bare)
                  (App.push_embedded (needs_records text_then_bare_host text_then_bare)
                                     embeddings) out.
Proof.
  apply (C1_output_interleaves text_then_bare_host App.default_config (Demo.stub e01)
           (file_size text_then_bare) text_then_bare).
  - exact stub_answers_text_then_bare.
  - vm_compute. reflexivity.
Defined.

(** C4: the batches are as the claim says as long as every dispatch is
    answered: the requests of a run are the batches of the batcher on the
    texts to embed, in arrival order; after every prefix of the input the
    requests sent are exactly the batches that were filled by then, so a
    batch goes out in one request as soon as it holds [BATCH_SIZE] = 8 texts;
    a last batch that is partial and not empty is sent at the end of the
    stream; together the requests carry every text once; twenty texts go out
    in three requests of 8, 8 and 4.  After a dispatch that fails inside the
    loop the batch is not emptied: on twenty records with a provider whose
    second answer is a 500, the requests hold 8, 8, 9 and 3 texts. *)
Theorem C4_batches :
  (forall (H : Host) (cfg : App.config) (fetch : nat -> App.request -> fetch_result)
          (totalSize : nat) (lines : list string),
      answers_all H fetch ->
      texts_are_strings H lines ->
      let sent := map App.req_input
                      (App.run_calls (App.processFile H cfg fetch totalSize lines)) in
      sent = batches App.BATCH_SIZE (cleaned (needs_texts H lines))
      /\ concat sent = cleaned (needs_texts H lines)
      /\ (exists full last,
             sent = full ++ last
             /\ Forall (fun b => length b = App.BATCH_SIZE) full
             /\ (last = [] \/ exists b, last = [b] /\ 0 < length b < App.BATCH_SIZE))
      /\ (length (needs_texts H lines) = 20 -> map (@length string) sent = [8; 8; 4])
      /\ (forall before after,
             lines = before ++ after ->
             let st := App.run_loop H cfg fetch totalSize before App.initial_state in
             batcher App.BATCH_SIZE [] (cleaned (needs_texts H before))
             = (map App.req_input (App.calls st), cleaned (App.batch st))
             /\ length (App.batch st) < App.BATCH_SIZE))
  /\ map (@length string) (map App.req_input (App.run_calls second_batch_fails))
     = [8; 8; 9; 3].
Proof.
  split; [|vm_compute; reflexivity].
  intros H cfg fetch totalSize lines Hanswers Hstr sent.
  destruct (processFile_answered H cfg fetch totalSize Hanswers lines Hstr) as (Hsent & _).
  fold sent in Hsent.
  assert (Hsize : 0 < App.BATCH_SIZE) by (unfold App.BATCH_SIZE; lia).
  destruct (batches_spec App.BATCH_SIZE (cleaned (needs_texts H lines)) Hsize)
    as (Hcat & Hshape).
  rewrite Hsent.
  split; [reflexivity|]. split; [exact Hcat|]. split; [exact Hshape|]. split.
  - intros H20. apply batches_of_twenty.
    rewrite cleaned_length by exact Hstr. exact H20.
  - intros before after -> st.
    apply texts_are_strings_app in Hstr as [Hbefore _].
    destruct (run_loop_answered H cfg fetch totalSize Hanswers before
                App.initial_state open_batch_initial Hbefore)
      as ((_ & Hlt & _) & (emitted & Hb & Hcalls) & _).
    fold st in Hb, Hcalls, Hlt.
    cbn [App.batch App.calls App.initial_state map app] in Hb, Hcalls.
    change (cleaned []) with (@nil string) in Hb.
    rewrite Hb, Hcalls. split; [reflexivity|exact Hlt].
Qed.

Lemma C4_witness :
  map (@length string)
      (map App.req_input
           (App.run_calls (App.processFile twenty_host App.default_config (Demo.stub e01)
                                           (file_size twenty_lines) twenty_lines)))
  = [8; 8; 4].
Proof.
  pose proof (proj1 C4_batches twenty_host App.default_config (Demo.stub e01)
                (file_size twenty_lines) twenty_lines stub_answers_twenty) as Hc.
  cbv zeta in Hc.
  destruct Hc as (_ & _ & _ & H20 & _); [vm_compute; reflexivity|].
  apply H20. vm_compute. reflexivity.
Defined.

(** ** Records that are already embedded (C2) *)

Lemma classify_embedded (H : Host) (line : string) :
  passes_through H line = true ->
  exists fields text,
    JSON_parse H line = Some (JObj fields)
    /\ App.has_embedding (JObj fields) = true
    /\ App.getEmbeddingText (JObj fields) = Ok text
    /\ classify H line = PassThrough (reserialise H line).
Proof.
  unfold passes_through, already_embedded, extracts, classify, reserialise.
  destruct (JSON_parse H line) as [record|]; [|discriminate].
  intros He. apply andb_true_iff in He as [He Hx].
  destruct record; try discriminate He.
  destruct (App.getEmbeddingText (JObj fields)) as [text|e] eqn:Htext;
    [|discriminate Hx].
  exists fields, text. rewrite He.
  split; [reflexivity|]. split; [reflexivity|]. split; [exact Htext|reflexivity].
Qed.

Section AppEmbedded.

Variable H : Host.
Variable cfg : App.config.
Variable fetch : nat -> App.request -> fetch_result.
Variable totalSize : nat.

(** An embedded record is serialised to the output at once; it does not join
    the batch and no request is made for it. *)
Lemma step_embedded (line : string) (st : App.loop_state) :
  passes_through H line = true ->
  length (App.batch st) < App.BATCH_SIZE ->
  App.loop_step H cfg fetch totalSize st line
  = {| App.processedBytes := App.processedBytes st + (String.length line + 1);
       App.processedLines := App.processedLines st ++ [reserialise H line];
       App.batch := App.batch st; App.batchRecords := App.batchRecords st;
       App.processedCount := S (App.processedCount st);
       App.calls := App.calls st; App.updates := App.updates st |}.
Proof.
  intros He Hlt.
  destruct (classify_embedded H line He) as (fields & text & _ & _ & _ & Hc).
  exact (step_pass_through H cfg fetch totalSize line _ st Hc Hlt).
Qed.

(** In any state of the loop: the record is output at once and stays out of
    the batch; a request made in that turn carries the texts that were
    waiting. *)
Lemma step_embedded_any (line : string) (st : App.loop_state) :
  passes_through H line = true ->
  let st' := App.loop_step H cfg fetch totalSize st line in
  (exists m, App.processedLines st' = App.processedLines st ++ reserialise H line :: m)
  /\ (App.batch st' = App.batch st /\ App.batchRecords st' = App.batchRecords st
      \/ App.batch st' = [] /\ App.batchRecords st' = [])
  /\ (App.calls st' = App.calls st
      \/ App.calls st' = App.calls st ++ [request_for cfg (cleaned (App.batch st))]).
Proof.
  intros He.
  destruct (classify_embedded H line He) as (fields & text & _ & _ & _ & Hc).
  unfold App.loop_step.
  pose proof (try_line_classify H cfg fetch totalSize line (App.add_bytes line st)) as Ht.
  rewrite Hc in Ht. rewrite Ht. clear Ht.
  unfold App.flush_if_full.
  cbn [App.batch App.batchRecords App.processedLines App.calls App.add_bytes
       App.processedBytes App.processedCount App.updates].
  destruct (App.BATCH_SIZE <=? length (App.batch st)).
  - unfold App.processBatch.
    pose proof (fetchBatchEmbeddings_request H cfg fetch (App.batch st) (App.calls st))
      as Hreq. cbn zeta in Hreq.
    fold (cleaned (App.batch st)) in Hreq.
    fold (request_for cfg (cleaned (App.batch st))) in Hreq.
    destruct (App.fetchBatchEmbeddings H cfg fetch (App.batch st) (App.calls st))
      as [[embeddings|e] calls']; cbn [snd] in Hreq.
    + destruct (negb (length embeddings =? length (App.batchRecords st)));
        cbn [App.processedLines App.batch App.batchRecords App.calls App.push_line].
      * split; [exists [line]; rewrite <- app_assoc; reflexivity|].
        split; [left; split; reflexivity|exact Hreq].
      * split; [eexists; rewrite <- app_assoc; reflexivity|].
        split; [right; split; reflexivity|exact Hreq].
    + cbn [App.processedLines App.batch App.batchRecords App.calls App.push_line].
      split; [exists [line]; rewrite <- app_assoc; reflexivity|].
      split; [left; split; reflexivity|exact Hreq].
  - cbn [App.processedLines App.batch App.batchRecords App.calls].
    split; [exists []; reflexivity|].
    split; [left; split; reflexivity|left; reflexivity].
Qed.

Lemma run_loop_embedded (lines : list string) :
  forall st : App.loop_state,
    forallb (passes_through H) lines = true ->
    App.batch st = [] ->
    let st' := App.run_loop H cfg fetch totalSize lines st in
    App.batch st' = []
    /\ App.calls st' = App.calls st
    /\ App.updates st' = App.updates st
    /\ App.processedCount st' = App.processedCount st + length lines
    /\ App.processedLines st' = App.processedLines st ++ map (reserialise H) lines.
Proof.
  induction lines as [|line lines IH]; intros st Hall Hb; simpl.
  - rewrite app_nil_r. repeat split; try assumption. lia.
  - simpl in Hall. apply andb_true_iff in Hall as [He Hall].
    rewrite (step_embedded line st He) by (rewrite Hb; unfold App.BATCH_SIZE; simpl; lia).
    match goal with
    | |- context [App.run_loop H cfg fetch totalSize lines ?s] =>
        destruct (IH s Hall Hb) as (Hb' & Hc & Hu & Hn & Hl)
    end.
    cbn [App.batch App.calls App.updates App.processedCount App.processedLines] in *.
    repeat split; try assumption.
    + rewrite Hn. lia.
    + rewrite Hl, <- app_assoc. reflexivity.
Qed.

(** A file of embedded records: no request, every record serialised in its
    place, and the run ends [done]. *)
Lemma processFile_embedded (lines : list string) :
  forallb (passes_through H) lines = true ->
  let r := App.processFile H cfg fetch totalSize lines in
  App.run_calls r = []
  /\ App.run_output r = Some (map (reserialise H) lines).
Proof.
  intros Hall.
  destruct (run_loop_embedded lines App.initial_state Hall eq_refl)
    as (Hb & Hc & _ & _ & Hl).
  cbn zeta. unfold App.processFile.
  rewrite Hb. cbn [length Nat.ltb Nat.leb App.finish App.run_calls App.run_output].
  rewrite Hc, Hl. split; reflexivity.
Qed.

End AppEmbedded.

Lemma reserialise_embedded (H : Host) (lines : list string) :
  forallb (passes_through H) lines = true ->
  Forall (round_trips H) lines ->
  forallb (passes_through H) (map (reserialise H) lines) = true
  /\ map (reserialise H) (map (reserialise H) lines) = map (reserialise H) lines.
Proof.
  induction lines as [|line lines IH]; intros Hall Hrt; [split; reflexivity|].
  simpl in Hall. apply andb_true_iff in Hall as [He Hall].
  inversion Hrt as [|? ? Hline Hrest]; subst.
  destruct (IH Hall Hrest) as [IH1 IH2].
  destruct (classify_embedded H line He) as (fields & text & Hp & Hemb & Htext & _).
  assert (Hre : reserialise H line = JSON_stringify (JObj fields))
    by (unfold reserialise; rewrite Hp; reflexivity).
  pose proof (Hline _ Hp) as Hp'.
  simpl. rewrite IH1, IH2, Hre.
  unfold passes_through, already_embedded, extracts, reserialise at 1.
  rewrite Hp', Hemb, Htext.
  split; reflexivity.
Qed.

Section CliEmbedded.

Variable H : Host.
Variable EMBEDDING_PROVIDER API_URL MODEL_NAME TRANSFORMER_MODEL : string.
Variable fetch : nat -> Cli.request -> fetch_result.
Variable R : Local.runtime.

Lemma cli_step_embedded (line : string) (st : Cli.state) :
  passes_through H line = true ->
  let st' := Cli.loop_step H EMBEDDING_PROVIDER API_URL MODEL_NAME TRANSFORMER_MODEL
                           fetch R st line in
  Cli.calls st' = Cli.calls st
  /\ Cli.extractions st' = Cli.extractions st
  /\ Cli.errorCount st' = Cli.errorCount st
  /\ Cli.written st'
     = Cli.written st
       ++ map (fun line => reserialise H line +++ String Str.newline EmptyString)
              (non_blank [line]).
Proof.
  intros He.
  destruct (classify_embedded H line He) as (fields & text & Hp & Hemb & Htext & _).
  unfold non_blank, Cli.loop_step. cbn [filter].
  destruct (Str.is_blank line); cbn [negb map].
  { rewrite app_nil_r. repeat split. }
  rewrite Hp, cli_text_of_object, Htext, Hemb.
  assert (Hre : reserialise H line +++ String Str.newline EmptyString
                = Cli.output_chunk (JObj fields))
    by (unfold reserialise, Cli.output_chunk; rewrite Hp; reflexivity).
  rewrite Hre.
  destruct (negb (truthy text)); repeat split.
Qed.

Lemma cli_loop_embedded (lines : list string) :
  forall st : Cli.state,
    forallb (passes_through H) lines = true ->
    let st' := fold_left (Cli.loop_step H EMBEDDING_PROVIDER API_URL MODEL_NAME
                                        TRANSFORMER_MODEL fetch R) lines st in
    Cli.calls st' = Cli.calls st
    /\ Cli.extractions st' = Cli.extractions st
    /\ Cli.errorCount st' = Cli.errorCount st
    /\ Cli.written st'
       = Cli.written st
         ++ map (fun line => reserialise H line +++ String Str.newline EmptyString)
                (non_blank lines).
Proof.
  induction lines as [|line lines IH]; intros st Hall.
  - simpl. rewrite app_nil_r. repeat split.
  - simpl in Hall. apply andb_true_iff in Hall as [He Hall].
    destruct (cli_step_embedded line st He) as (Hc1 & Hx1 & He1 & Hw1).
    cbn [fold_left].
    destruct (IH (Cli.loop_step H EMBEDDING_PROVIDER API_URL MODEL_NAME TRANSFORMER_MODEL
                                fetch R st line) Hall) as (Hc & Hx & Herr & Hw).
    cbn zeta. rewrite Hc, Hx, Herr, Hw, Hc1, Hx1, He1, Hw1.
    repeat split.
    rewrite <- app_assoc, <- map_app. unfold non_blank.
    rewrite <- filter_app. reflexivity.
Qed.

End CliEmbedded.

(** C2, as stated, fails.  The line of an embedded record is not output as
    it is but serialised again: a line that starts with two spaces comes out
    without them.  And an embedded record whose [question] does not convert to
    a string is not passed through by the script, which extracts the text
    first: it writes nothing and counts an error. *)
Lemma C2_counterexample :
  already_embedded spaced_host spaced_line = true
  /\ App.run_output (App.processFile spaced_host App.default_config (Demo.stub e01)
                                     (file_size [spaced_line]) [spaced_line])
     = Some [JSON_stringify (embedded_record 1)]
  /\ JSON_stringify (embedded_record 1) <> spaced_line
  /\ already_embedded unprintable_host (JSON_stringify unprintable_embedded) = true
  /\ Cli.written (Cli.main unprintable_host "api" App.DEFAULT_API_URL App.DEFAULT_MODEL
                           "Xenova/all-MiniLM-L6-v2" cli_stub unit_runtime
                           [JSON_stringify unprintable_embedded]) = []
  /\ Cli.errorCount (Cli.main unprintable_host "api" App.DEFAULT_API_URL App.DEFAULT_MODEL
                              "Xenova/all-MiniLM-L6-v2" cli_stub unit_runtime
                              [JSON_stringify unprintable_embedded]) = 1.
Proof.
  split; [vm_compute; reflexivity|].
  split; [vm_compute; reflexivity|].
  split; [vm_compute; discriminate|].
  split; [vm_compute; reflexivity|].
  split; vm_compute; reflexivity.
Qed.

(** C2, amended: a record that already carries a non-empty [embedding] array
    and whose text extraction returns is output at once as
    [JSON.stringify(JSON.parse(line))], the same record serialised again; it
    never joins the batch, and a request made in that turn carries the texts
    that were waiting, never its own; with fewer than [BATCH_SIZE] texts
    waiting nothing else happens in that turn.  On a file of such records a
    run makes no provider call and outputs every record in its place, and,
    when serialisations parse back to their records, a second run on that
    output yields the same output, again without a provider call.  The script
    writes the same lines, counts no error and asks no provider. *)
Theorem C2_embedded_pass_through (H : Host) (cfg : App.config)
        (fetch : nat -> App.request -> fetch_result) (totalSize totalSize' : nat)
        (lines : list string) :
  forallb (passes_through H) lines = true ->
  Forall (round_trips H) lines ->
  let first := App.processFile H cfg fetch totalSize lines in
  let second := App.processFile H cfg fetch totalSize' (map (reserialise H) lines) in
  App.run_calls first = []
  /\ App.run_output first = Some (map (reserialise H) lines)
  /\ App.run_calls second = []
  /\ App.run_output second = App.run_output first
  /\ (forall line st,
         In line lines ->
         let st' := App.loop_step H cfg fetch totalSize st line in
         (exists m,
             App.processedLines st' = App.processedLines st ++ reserialise H line :: m)
         /\ (App.batch st' = App.batch st /\ App.batchRecords st' = App.batchRecords st
             \/ App.batch st' = [] /\ App.batchRecords st' = [])
         /\ (App.calls st' = App.calls st
             \/ App.calls st' = App.calls st ++ [request_for cfg (cleaned (App.batch st))])
         /\ (length (App.batch st) < App.BATCH_SIZE ->
             App.processedLines st' = App.processedLines st ++ [reserialise H line]
             /\ App.batch st' = App.batch st
             /\ App.calls st' = App.calls st))
  /\ (forall EMBEDDING_PROVIDER API_URL MODEL_NAME TRANSFORMER_MODEL cli_fetch R,
         let st := Cli.main H EMBEDDING_PROVIDER API_URL MODEL_NAME TRANSFORMER_MODEL
                            cli_fetch R lines in
         Cli.calls st = [] /\ Cli.extractions st = [] /\ Cli.errorCount st = 0
         /\ Cli.written st
            = map (fun line => reserialise H line +++ String Str.newline EmptyString)
                  (non_blank lines)).
Proof.
  intros Hall Hrt first second.
  destruct (processFile_embedded H cfg fetch totalSize lines Hall) as [Hc1 Ho1].
  destruct (reserialise_embedded H lines Hall Hrt) as [Hall2 Hfix].
  destruct (processFile_embedded H cfg fetch totalSize' _ Hall2) as [Hc2 Ho2].
  subst first second.
  split; [exact Hc1|]. split; [exact Ho1|]. split; [exact Hc2|].
  split; [rewrite Ho2, Ho1, Hfix; reflexivity|]. split.
  - intros line st Hin st'.
    assert (He : passes_through H line = true)
      by (rewrite forallb_forall in Hall; auto).
    destruct (step_embedded_any H cfg fetch totalSize line st He) as (Hout & Hb & Hc).
    split; [exact Hout|]. split; [exact Hb|]. split; [exact Hc|].
    intros Hlt. subst st'.
    rewrite (step_embedded H cfg fetch totalSize line st He Hlt).
    split; [reflexivity|]. split; reflexivity.
  - intros.
    exact (cli_loop_embedded H EMBEDDING_PROVIDER API_URL MODEL_NAME TRANSFORMER_MODEL
             cli_fetch R lines Cli.initial_state Hall).
Qed.

Lemma C2_witness :
  App.run_calls (App.processFile text_then_bare_host App.default_config (Demo.stub e01)
                                 (file_size embedded_lines) embedded_lines) = []
  /\ App.run_output
       (App.processFile text_then_bare_host App.default_config (Demo.stub e01)
                        (file_size embedded_lines)
                        (map (reserialise text_then_bare_host) embedded_lines))
     = Some embedded_lines.
Proof.
  assert (Hall : forallb (passes_through text_then_bare_host) embedded_lines = true)
    by (vm_compute; reflexivity).
  assert (Hrt : Forall (round_trips text_then_bare_host) embedded_lines).
  { repeat constructor; intros record Hp; vm_compute in Hp;
      injection Hp as <-; vm_compute; reflexivity. }
  destruct (C2_embedded_pass_through text_then_bare_host App.default_config
              (Demo.stub e01) (file_size embedded_lines) (file_size embedded_lines)
              embedded_lines Hall Hrt)
    as (Hc & Ho & _ & Ho2 & _).
  split; [exact Hc|].
  rewrite Ho2, Ho. vm_compute. reflexivity.
Defined.

(** ** Lines that do not parse (C3) *)

Section AppMonotone.

Variable H : Host.
Variable cfg : App.config.
Variable fetch : nat -> App.request -> fetch_result.
Variable totalSize : nat.

Lemma processBatch_extends (texts records : list json) (outputBuffer out' : list string)
      (calls calls' : list App.request) :
  App.processBatch H cfg fetch texts records outputBuffer calls = (Ok out', calls') ->
  exists m, out' = outputBuffer ++ m.
Proof.
  unfold App.processBatch.
  destruct (App.fetchBatchEmbeddings H cfg fetch texts calls) as [[embeddings|e] c];
    [|discriminate].
  destruct (negb (length embeddings =? length records)); [discriminate|].
  intros Heq. inversion Heq; subst. eexists. reflexivity.
Qed.

Lemma flush_extends (st : App.loop_state) :
  exists m,
    App.processedLines (fst (App.flush_if_full H cfg fetch totalSize st))
    = App.processedLines st ++ m.
Proof.
  unfold App.flush_if_full.
  destruct (App.BATCH_SIZE <=? length (App.batch st)).
  - destruct (App.processBatch H cfg fetch (App.batch st) (App.batchRecords st)
                (App.processedLines st) (App.calls st)) as [[out'|e] calls'] eqn:Hp.
    + destruct (processBatch_extends _ _ _ _ _ _ Hp) as [m Hm].
      exists m. exact Hm.
    + exists []. simpl. now rewrite app_nil_r.
  - exists []. simpl. now rewrite app_nil_r.
Qed.

(** Whatever the provider does, a turn of the loop only appends to the
    output. *)
Lemma step_extends (st : App.loop_state) (line : string) :
  exists m,
    App.processedLines (App.loop_step H cfg fetch totalSize st line)
    = App.processedLines st ++ m.
Proof.
  unfold App.loop_step.
  pose proof (try_line_classify H cfg fetch totalSize line (App.add_bytes line st)) as Ht.
  destruct (classify H line) as [|out|record text].
  - destruct Ht as [e Ht]. rewrite Ht. exists [line]. reflexivity.
  - rewrite Ht.
    match goal with
    | |- context [App.flush_if_full H cfg fetch totalSize ?s] =>
        destruct (flush_extends s) as [m Hm];
        destruct (App.flush_if_full H cfg fetch totalSize s) as [st' [e|]]
    end; simpl in Hm |- *; rewrite Hm, <- !app_assoc; eexists; reflexivity.
  - rewrite Ht.
    match goal with
    | |- context [App.flush_if_full H cfg fetch totalSize ?s] =>
        destruct (flush_extends s) as [m Hm];
        destruct (App.flush_if_full H cfg fetch totalSize s) as [st' [e|]]
    end; simpl in Hm |- *; rewrite Hm, <- ?app_assoc; eexists; reflexivity.
Qed.

Lemma run_loop_extends (lines : list string) :
  forall st : App.loop_state,
  exists m,
    App.processedLines (App.run_loop H cfg fetch totalSize lines st)
    = App.processedLines st ++ m.
Proof.
  induction lines as [|line lines IH]; intros st; unfold App.run_loop; cbn [fold_left].
  - exists []. now rewrite app_nil_r.
  - destruct (IH (App.loop_step H cfg fetch totalSize st line)) as [m Hm].
    destruct (step_extends st line) as [m1 Hm1].
    unfold App.run_loop in Hm. rewrite Hm, Hm1, <- app_assoc.
    eexists. reflexivity.
Qed.

(** The output of a run that ends [done] extends what the loop collected. *)
Lemma processFile_extends (lines : list string) (out : list string) :
  App.run_output (App.processFile H cfg fetch totalSize lines) = Some out ->
  exists m,
    out = App.processedLines (App.run_loop H cfg fetch totalSize lines App.initial_state)
          ++ m.
Proof.
  unfold App.processFile.
  set (st := App.run_loop H cfg fetch totalSize lines App.initial_state).
  destruct (0 <? length (App.batch st)).
  - destruct (App.processBatch H cfg fetch (App.batch st) (App.batchRecords st)
                (App.processedLines st) (App.calls st)) as [[out'|e] calls'] eqn:Hp;
      simpl; intros Heq; [|discriminate].
    inversion Heq; subst. exact (processBatch_extends _ _ _ _ _ _ Hp).
  - simpl. intros Heq. inversion Heq; subst. exists []. now rewrite app_nil_r.
Qed.

End AppMonotone.

(** C3, as stated, fails on the three lines [{"text":"a"}], [NOT_JSON],
    [{"text":"b"}]: the browser outputs [NOT_JSON] first, before the two
    records of the batch, and the script writes two lines and no [NOT_JSON]. *)
Lemma C3_counterexample :
  App.run_output (App.processFile three_host App.default_config (Demo.stub e01)
                                  (file_size three_lines) three_lines)
  = Some ["NOT_JSON"; JSON_stringify (text_embedded "a"); JSON_stringify (text_embedded "b")]
  /\ nth 1 [ "NOT_JSON"; JSON_stringify (text_embedded "a");
             JSON_stringify (text_embedded "b") ] EmptyString <> "NOT_JSON"
  /\ Cli.written (Cli.main three_host "api" App.DEFAULT_API_URL App.DEFAULT_MODEL
                           "Xenova/all-MiniLM-L6-v2" cli_stub unit_runtime three_lines)
     = [ Cli.output_chunk (text_embedded "a"); Cli.output_chunk (text_embedded "b") ].
Proof.
  split; [vm_compute; reflexivity|].
  split; [vm_compute; discriminate|].
  vm_compute. reflexivity.
Qed.

(** C3, amended: a line that is not valid JSON never stops the run.  In the
    browser the raw line is appended unmodified to the output at the moment it
    is read, right after everything output for the earlier lines by then (so
    before the records still waiting in the batch), and it is not added to
    [processedCount]; in the script the line is counted in [errorCount] and
    nothing is written for it. *)
Theorem C3_unparseable_line (H : Host) (cfg : App.config)
        (fetch : nat -> App.request -> fetch_result) (totalSize : nat)
        (before : list string) (line : string) (after : list string) :
  JSON_parse H line = None ->
  (forall st, App.loop_step H cfg fetch totalSize st line
              = App.push_line line (App.add_bytes line st))
  /\ (forall out,
         App.run_output (App.processFile H cfg fetch totalSize (before ++ line :: after))
         = Some out ->
         exists rest,
           out = App.processedLines
                   (App.run_loop H cfg fetch totalSize before App.initial_state)
                 ++ line :: rest)
  /\ (forall EMBEDDING_PROVIDER API_URL MODEL_NAME TRANSFORMER_MODEL cli_fetch R st,
         Str.is_blank line = false ->
         Cli.loop_step H EMBEDDING_PROVIDER API_URL MODEL_NAME TRANSFORMER_MODEL
                       cli_fetch R st line
         = Cli.count_error st).
Proof.
  intros Hp.
  assert (Hc : classify H line = ParseError) by (unfold classify; rewrite Hp; reflexivity).
  split; [|split].
  - intros st. apply step_parse_error. exact Hc.
  - intros out Hout.
    destruct (processFile_extends H cfg fetch totalSize _ _ Hout) as [m Hm].
    unfold App.run_loop in Hm. rewrite fold_left_app in Hm. cbn [fold_left] in Hm.
    rewrite (step_parse_error H cfg fetch totalSize line _ Hc) in Hm.
    match type of Hm with
    | context [fold_left _ after ?s] =>
        destruct (run_loop_extends H cfg fetch totalSize after s) as [m' Hm']
    end.
    unfold App.run_loop in Hm'. rewrite Hm' in Hm.
    cbn [App.processedLines App.push_line App.add_bytes] in Hm.
    rewrite <- !app_assoc in Hm. simpl in Hm.
    eexists. exact Hm.
  - intros. apply cli_step_parse_error; assumption.
Qed.

Lemma C3_witness :
  exists rest,
    App.run_output (App.processFile three_host App.default_config (Demo.stub e01)
                                    (file_size three_lines) three_lines)
    = Some ("NOT_JSON" :: rest).
Proof.
  destruct (C3_unparseable_line three_host App.default_config (Demo.stub e01)
              (file_size three_lines) [JSON_stringify text_a] "NOT_JSON"
              [JSON_stringify text_b])
    as (_ & Hrun & _).
  - vm_compute. reflexivity.
  - assert (Hout : App.run_output
                     (App.processFile three_host App.default_config (Demo.stub e01)
                                      (file_size three_lines) three_lines)
                   = Some [ "NOT_JSON"; JSON_stringify (text_embedded "a");
                            JSON_stringify (text_embedded "b") ])
      by (vm_compute; reflexivity).
    destruct (Hrun _ Hout) as [rest Hrest].
    exists rest. rewrite Hout. f_equal.
    etransitivity; [exact Hrest|]. reflexivity.
Defined.

(** ** A dispatch that fails (C5, C6) *)

(** C5: the claim holds for the batch sent at the end of the stream only.  On
    twenty records with a provider whose second answer is a 500, the failure
    is caught by the [catch] meant for parse errors: the run goes on, sends
    the eight waiting records again with the next one, ends [done] with no
    error message and exposes an output of 21 lines. *)
Theorem C5_failed_batch_in_loop :
  map (@length string) (map App.req_input (App.run_calls second_batch_fails))
  = [8; 8; 9; 3]
  /\ option_map (@length string) (App.run_output second_batch_fails) = Some 21
  /\ App.status (App.final_item App.new_item second_batch_fails) = App.st_done
  /\ App.error (App.final_item App.new_item second_batch_fails) = None
  /\ App.resultUrl (App.final_item App.new_item second_batch_fails) <> None.
Proof.
  repeat split; try (vm_compute; reflexivity).
  vm_compute. discriminate.
Qed.

Section AppUpdates.

Variable H : Host.
Variable cfg : App.config.
Variable fetch : nat -> App.request -> fetch_result.
Variable totalSize : nat.

(** A full batch that is answered adds its length to [processedCount] and
    publishes the progress capped at 99; otherwise the updates stay. *)
Lemma flush_updates (st : App.loop_state) :
  let st' := fst (App.flush_if_full H cfg fetch totalSize st) in
  (App.updates st' = App.updates st /\ App.processedCount st' = App.processedCount st)
  \/ (App.processedCount st' = App.processedCount st + length (App.batch st)
      /\ App.updates st'
         = App.updates st
           ++ [ {| App.u_status := None;
                   App.u_progress :=
                     Some (App.Math_min_99
                             (round_percent H (App.processedBytes st) totalSize));
                   App.u_processed := Some (App.processedCount st');
                   App.u_total := None; App.u_resultUrl := None;
                   App.u_error := None |} ]).
Proof.
  unfold App.flush_if_full.
  destruct (App.BATCH_SIZE <=? length (App.batch st)); [|left; split; reflexivity].
  destruct (App.processBatch H cfg fetch (App.batch st) (App.batchRecords st)
              (App.processedLines st) (App.calls st)) as [[out'|e] calls'].
  - right. split; reflexivity.
  - left. split; reflexivity.
Qed.

Lemma step_updates (st : App.loop_state) (line : string) :
  exists us,
    App.updates (App.loop_step H cfg fetch totalSize st line) = App.updates st ++ us
    /\ Forall (is_progress_update H totalSize) us.
Proof.
  assert (Hflush : forall s,
             exists us,
               App.updates (fst (App.flush_if_full H cfg fetch totalSize s))
               = App.updates s ++ us
               /\ Forall (is_progress_update H totalSize) us).
  { intros s. destruct (flush_updates s) as [[Hu _]|[_ Hu]].
    - exists []. rewrite Hu, app_nil_r. split; constructor.
    - eexists. split; [exact Hu|]. constructor; [|constructor].
      eexists _, _. reflexivity. }
  unfold App.loop_step.
  pose proof (try_line_classify H cfg fetch totalSize line (App.add_bytes line st)) as Ht.
  destruct (classify H line) as [|out|record text].
  - destruct Ht as [e Ht]. rewrite Ht. exists []. simpl. rewrite app_nil_r.
    split; constructor.
  - rewrite Ht.
    match goal with
    | |- context [App.flush_if_full H cfg fetch totalSize ?s] =>
        destruct (Hflush s) as (us & Hus & Hall);
        destruct (App.flush_if_full H cfg fetch totalSize s) as [st' [e|]]
    end; exists us; split; assumption.
  - rewrite Ht.
    match goal with
    | |- context [App.flush_if_full H cfg fetch totalSize ?s] =>
        destruct (Hflush s) as (us & Hus & Hall);
        destruct (App.flush_if_full H cfg fetch totalSize s) as [st' [e|]]
    end; exists us; split; assumption.
Qed.

Lemma run_loop_updates (lines : list string) :
  forall st : App.loop_state,
  exists us,
    App.updates (App.run_loop H cfg fetch totalSize lines st) = App.updates st ++ us
    /\ Forall (is_progress_update H totalSize) us.
Proof.
  induction lines as [|line lines IH]; intros st; unfold App.run_loop; cbn [fold_left].
  - exists []. rewrite app_nil_r. split; constructor.
  - destruct (IH (App.loop_step H cfg fetch totalSize st line)) as (us & Hus & Hall).
    destruct (step_updates st line) as (us1 & Hus1 & Hall1).
    unfold App.run_loop in Hus. rewrite Hus, Hus1, <- app_assoc.
    exists (us1 ++ us). split; [reflexivity|].
    apply Forall_app. split; assumption.
Qed.

Lemma progress_update_below_100 (u : App.update) :
  is_progress_update H totalSize u ->
  App.u_status u = None
  /\ App.u_resultUrl u = None
  /\ exists p, App.u_progress u = Some p /\ below_100 p.
Proof.
  intros (bytes & count & ->). simpl. repeat split.
  eexists. split; [reflexivity|].
  destruct (round_percent H bytes totalSize) as [| |n];
    cbn [App.Math_min_99 below_100].
  - exact I.
  - apply Nat.le_refl.
  - apply Nat.le_min_l.
Qed.

(** The last update decides the status, the progress and the error of the
    file item. *)
Lemma final_item_last (fileItem : App.file_item) (us : list App.update)
      (last : App.update) (r : App.run) :
  App.run_updates r = us ++ [last] ->
  let f := App.final_item fileItem r in
  (forall s, App.u_status last = Some s -> App.status f = s)
  /\ (forall p, App.u_progress last = Some p -> App.progress f = p)
  /\ (forall m, App.u_error last = Some m -> App.error f = Some m).
Proof.
  intros Hr. unfold App.final_item. rewrite Hr, fold_left_app. simpl.
  unfold App.updateFileStatus. simpl.
  repeat split; intros ? Hx; rewrite Hx; reflexivity.
Qed.

(** A batch that fails at the end of the stream fails the run: the status is
    [error], the message is kept and no output is exposed. *)
Lemma processFile_last_batch_fails (lines : list string) (e : exn)
      (calls' : list App.request) (fileItem : App.file_item) :
  let st := App.run_loop H cfg fetch totalSize lines App.initial_state in
  0 < length (App.batch st) ->
  App.processBatch H cfg fetch (App.batch st) (App.batchRecords st)
                   (App.processedLines st) (App.calls st) = (Throw e, calls') ->
  let r := App.processFile H cfg fetch totalSize lines in
  App.run_output r = None
  /\ App.status (App.final_item fileItem r) = App.st_error
  /\ App.error (App.final_item fileItem r) = Some (message H e).
Proof.
  intros st Hne Hp r. subst r. unfold App.processFile. fold st.
  replace (0 <? length (App.batch st)) with true by (symmetry; apply Nat.ltb_lt; exact Hne).
  rewrite Hp.
  split; [reflexivity|].
  destruct (final_item_last fileItem (App.updates st) _ (App.fail H st e calls') eq_refl)
    as (Hs & _ & He).
  split; [apply Hs|apply He]; reflexivity.
Qed.

End AppUpdates.

(** C6, as stated, fails in the script: a 2xx reply whose body is a bare
    array, with no [data] at all, is taken as the embedding of the record. *)
Lemma C6_counterexample :
  JSON_parse bare_array_host (JSON_stringify bare_array) = Some bare_array
  /\ get_prop bare_array "data" = Ok None
  /\ Cli.read_response bare_array_host 200 (JSON_stringify bare_array) = Ok bare_array
  /\ Cli.written (Cli.main bare_array_host "api" App.DEFAULT_API_URL App.DEFAULT_MODEL
                           "Xenova/all-MiniLM-L6-v2" bare_array_reply unit_runtime
                           [JSON_stringify text_a])
     = [Cli.output_chunk (JObj [("text", JStr "a"); ("embedding", bare_array)])]
  /\ Cli.errorCount (Cli.main bare_array_host "api" App.DEFAULT_API_URL App.DEFAULT_MODEL
                              "Xenova/all-MiniLM-L6-v2" bare_array_reply unit_runtime
                              [JSON_stringify text_a]) = 0.
Proof.
  repeat split; vm_compute; reflexivity.
Qed.

(** What the script takes from a 2xx reply: the truthy [embedding] of the
    first element of [data], or the body itself when it is an array. *)
Lemma cli_read_response_ok (H : Host) (status : nat) (body : string) (data e : json) :
  response_ok status = true ->
  JSON_parse H body = Some data ->
  Cli.read_response H status body = Ok e ->
  (e = data /\ isArray data = true)
  \/ (exists fields dv item,
         data = JObj fields
         /\ lookup "data" fields = Some dv
         /\ Cli.index0 dv = Some item
         /\ get_prop item "embedding" = Ok (Some e)
         /\ truthy e = true).
Proof.
  intros Hok Hp. unfold Cli.read_response. rewrite Hok, Hp. cbn [negb].
  assert (Hbare : (if isArray data then Ok data
                   else Throw (Error "Unexpected response format")) = Ok e ->
                  e = data /\ isArray data = true).
  { destruct (isArray data); [|discriminate]. intros [= <-]. split; reflexivity. }
  destruct data as [| | | |items|fields]; try discriminate;
    cbn [get_prop bind]; try (intros He; left; exact (Hbare He)).
  destruct (lookup "data" fields) as [dv|] eqn:Hdv; [|intros He; left; exact (Hbare He)].
  destruct (truthy dv); [|intros He; left; exact (Hbare He)].
  destruct (Cli.index0 dv) as [item|] eqn:Hitem; [|intros He; left; exact (Hbare He)].
  destruct (truthy item); [|intros He; left; exact (Hbare He)].
  destruct (get_prop item "embedding") as [[e'|]|err] eqn:Hemb; cbn [bind];
    try discriminate; try (intros He; left; exact (Hbare He)).
  destruct (truthy e') eqn:Htruthy; [|intros He; left; exact (Hbare He)].
  intros [= <-]. right. exists fields, dv, item.
  repeat (split; [assumption || reflexivity|]). exact Htruthy.
Qed.

(** A failed embedding: the line is counted as an error, once or twice, and
    nothing is written for it. *)
Lemma cli_step_failed (H : Host)
      (EMBEDDING_PROVIDER API_URL MODEL_NAME TRANSFORMER_MODEL : string)
      (fetch : nat -> Cli.request -> fetch_result) (R : Local.runtime)
      (line : string) (record text : json) (st : Cli.state) :
  Str.is_blank line = false ->
  JSON_parse H line = Some record ->
  Cli.getEmbeddingText record = Ok text ->
  truthy text = true ->
  App.has_embedding record = false ->
  fst (Cli.fetchEmbedding H EMBEDDING_PROVIDER API_URL MODEL_NAME TRANSFORMER_MODEL
                          fetch R text st) = None ->
  let st' := Cli.loop_step H EMBEDDING_PROVIDER API_URL MODEL_NAME TRANSFORMER_MODEL
                           fetch R st line in
  Cli.written st' = Cli.written st
  /\ Cli.processedCount st' = Cli.processedCount st
  /\ Cli.skippedCount st' = Cli.skippedCount st
  /\ S (Cli.errorCount st) <= Cli.errorCount st' <= S (S (Cli.errorCount st)).
Proof.
  intros Hb Hp Htext Htruthy Hemb Hnull. unfold Cli.loop_step.
  rewrite Hb, Hp, Htext, Htruthy, Hemb. cbn [negb].
  pose proof (fetchEmbedding_counters H EMBEDDING_PROVIDER API_URL MODEL_NAME
                TRANSFORMER_MODEL fetch R text st) as Hf.
  destruct (Cli.fetchEmbedding H EMBEDDING_PROVIDER API_URL MODEL_NAME TRANSFORMER_MODEL
              fetch R text st) as [[embedding|] st1]; [discriminate Hnull|].
  cbn in Hf. destruct Hf as (Hw1 & He1 & Hp1 & Hs1).
  destruct (log_failed_counters record (Cli.count_error st1))
    as (Hw2 & Hp2 & Hs2 & _ & _ & _ & He2).
  cbn in Hw2, Hp2, Hs2, He2.
  rewrite Hw2, Hp2, Hs2, Hw1, Hp1, Hs1. rewrite He1 in He2.
  split; [reflexivity|]. split; [reflexivity|]. split; [reflexivity|exact He2].
Qed.

(** C6, amended: in the browser a 2xx reply whose body has no [data] that is
    an array makes [fetchBatchEmbeddings] throw ("Unexpected response format",
    or the engine's error when the body is [null]), and a reply whose number
    of embeddings differs from the number of records makes [processBatch]
    throw before anything is pushed; when this happens to the batch sent at
    the end of the stream the run ends in [error] with the message and without
    output.  The script, by contrast, takes a bare array body as the
    embedding; otherwise it takes the truthy [embedding] of the first element
    of [data], whatever else the reply holds, and nothing else; whatever its
    provider throws becomes [null], for which the line is counted as an error
    and nothing is written, and the loop goes on to the next line. *)
Theorem C6_response_shape (H : Host) (cfg : App.config)
        (fetch : nat -> App.request -> fetch_result)
        (status : nat) (body : string) (data : json) :
  response_ok status = true ->
  JSON_parse H body = Some data ->
  ((forall items, get_prop data "data" <> Ok (Some (JArr items))) ->
   App.read_response H status body
   = Throw (match data with
            | JNull => Builtin (NullProperty "data")
            | _ => Error "Unexpected response format"
            end))
  /\ (forall texts records outputBuffer calls embeddings calls',
         App.fetchBatchEmbeddings H cfg fetch texts calls = (Ok embeddings, calls') ->
         length embeddings <> length records ->
         App.processBatch H cfg fetch texts records outputBuffer calls
         = (Throw (Error "Embedding service returned an unexpected payload"), calls'))
  /\ (forall totalSize lines e calls' fileItem,
         let st := App.run_loop H cfg fetch totalSize lines App.initial_state in
         0 < length (App.batch st) ->
         App.processBatch H cfg fetch (App.batch st) (App.batchRecords st)
                          (App.processedLines st) (App.calls st) = (Throw e, calls') ->
         let r := App.processFile H cfg fetch totalSize lines in
         App.run_output r = None
         /\ App.status (App.final_item fileItem r) = App.st_error
         /\ App.error (App.final_item fileItem r) = Some (message H e))
  /\ (forall items, data = JArr items -> Cli.read_response H status body = Ok data)
  /\ (forall fields item rest e,
         data = JObj fields ->
         lookup "data" fields = Some (JArr (item :: rest)) ->
         truthy item = true ->
         get_prop item "embedding" = Ok (Some e) ->
         truthy e = true ->
         Cli.read_response H status body = Ok e)
  /\ (forall e,
         Cli.read_response H status body = Ok e ->
         (e = data /\ isArray data = true)
         \/ (exists fields dv item,
                data = JObj fields
                /\ lookup "data" fields = Some dv
                /\ Cli.index0 dv = Some item
                /\ get_prop item "embedding" = Ok (Some e)
                /\ truthy e = true))
  /\ (forall API_URL MODEL_NAME TRANSFORMER_MODEL cli_fetch R s st,
         let req := {| Cli.req_url := API_URL; Cli.req_model := MODEL_NAME;
                       Cli.req_input := Str.replace_newlines s |} in
         cli_fetch (length (Cli.calls st)) req = FetchResponse status body ->
         forall e,
           Cli.read_response H status body = Throw e ->
           Cli.fetchEmbedding H "api" API_URL MODEL_NAME TRANSFORMER_MODEL cli_fetch R
                              (JStr s) st
           = (None, Cli.with_call st req))
  /\ (forall EMBEDDING_PROVIDER API_URL MODEL_NAME TRANSFORMER_MODEL cli_fetch R
             before line after record text,
         Str.is_blank line = false ->
         JSON_parse H line = Some record ->
         Cli.getEmbeddingText record = Ok text ->
         truthy text = true ->
         App.has_embedding record = false ->
         let main := Cli.main H EMBEDDING_PROVIDER API_URL MODEL_NAME TRANSFORMER_MODEL
                              cli_fetch R in
         let step := Cli.loop_step H EMBEDDING_PROVIDER API_URL MODEL_NAME
                                   TRANSFORMER_MODEL cli_fetch R in
         fst (Cli.fetchEmbedding H EMBEDDING_PROVIDER API_URL MODEL_NAME TRANSFORMER_MODEL
                                 cli_fetch R text (main before)) = None ->
         Cli.written (step (main before) line) = Cli.written (main before)
         /\ Cli.processedCount (step (main before) line) = Cli.processedCount (main before)
         /\ S (Cli.errorCount (main before)) <= Cli.errorCount (step (main before) line)
            <= S (S (Cli.errorCount (main before)))
         /\ main (before ++ line :: after)
            = fold_left step after (step (main before) line)).
Proof.
  intros Hok Hp.
  split; [|split; [|split; [|split; [|split; [|split; [|split]]]]]].
  - intros Hdata. unfold App.read_response. rewrite Hok, Hp. cbn [negb].
    destruct data as [| | | |items|fields]; try reflexivity.
    cbn [get_prop bind].
    destruct (lookup "data" fields) as [[| | | |items|]|] eqn:Hl; try reflexivity.
    exfalso. apply (Hdata items). cbn [get_prop]. rewrite Hl. reflexivity.
  - intros texts records outputBuffer calls embeddings calls' Hf Hne.
    unfold App.processBatch. rewrite Hf.
    replace (length embeddings =? length records) with false
      by (symmetry; apply Nat.eqb_neq; exact Hne).
    reflexivity.
  - intros totalSize lines e calls' fileItem.
    apply processFile_last_batch_fails.
  - intros items ->. unfold Cli.read_response. rewrite Hok, Hp. reflexivity.
  - intros fields item rest e -> Hdv Hitem Hemb He.
    unfold Cli.read_response. rewrite Hok, Hp. cbn [negb get_prop bind].
    rewrite Hdv. cbn [truthy Cli.index0]. rewrite Hitem, Hemb. cbn [bind].
    rewrite He. reflexivity.
  - intros e. apply cli_read_response_ok; assumption.
  - intros API_URL MODEL_NAME TRANSFORMER_MODEL cli_fetch R s st req Hfetch e He.
    unfold Cli.fetchEmbedding, Cli.fetchEmbeddingViaApi.
    cbn [String.eqb Ascii.eqb Bool.eqb]. fold req. rewrite Hfetch, He. reflexivity.
  - intros EMBEDDING_PROVIDER API_URL MODEL_NAME TRANSFORMER_MODEL cli_fetch R
           before line after record text Hb Hparse Htext Htruthy Hemb main step Hnull.
    destruct (cli_step_failed H EMBEDDING_PROVIDER API_URL MODEL_NAME TRANSFORMER_MODEL
                cli_fetch R line record text (main before)
                Hb Hparse Htext Htruthy Hemb Hnull) as (Hw & Hc & _ & He).
    split; [exact Hw|]. split; [exact Hc|]. split; [exact He|].
    subst main step. unfold Cli.main. rewrite fold_left_app. reflexivity.
Qed.

Lemma C6_witness :
  App.read_response bare_array_host 200 (JSON_stringify bare_array)
  = Throw (Error "Unexpected response format")
  /\ Cli.read_response bare_array_host 200 (JSON_stringify bare_array) = Ok bare_array.
Proof.
  destruct (C6_response_shape bare_array_host App.default_config (Demo.stub e01)
              200 (JSON_stringify bare_array) bare_array)
    as (Happ & _ & _ & Hcli & _).
  - reflexivity.
  - vm_compute. reflexivity.
  - split.
    + apply Happ. intros items Hg. vm_compute in Hg. discriminate Hg.
    + apply (Hcli [JNum "0.5"]). reflexivity.
Defined.

(** ** Progress (C8) *)

(** C8, as stated, fails: the batch sent at the end of the three-line file
    is resolved and followed by no recomputation of the progress, only by the
    final update; and after the first batch of the twenty records, with 160 of
    411 bytes consumed, the progress published is 39, the rounded percentage,
    which is neither [min(99, 160 / 411)] nor that ratio as a percentage. *)
Lemma C8_counterexample :
  App.processedBytes
    (App.run_loop twenty_host App.default_config (Demo.stub e01) (file_size twenty_lines)
                  (firstn 8 twenty_lines) App.initial_state) = 160
  /\ file_size twenty_lines = 411
  /\ App.u_progress (nth 1 (App.run_updates twenty_run) App.no_update)
     = Some (App.PInt 39)
  /\ ~ QArith_base.Qeq (QArith_base.inject_Z (BinInt.Z.of_nat 39))
                       (progress_as_stated 160 411)
  /\ ~ QArith_base.Qeq (QArith_base.inject_Z (BinInt.Z.of_nat 39))
                       (percentage_as_stated 160 411)
  /\ length (App.run_calls three_run) = 1
  /\ map App.u_progress (App.run_updates three_run)
     = [Some (App.PInt 0); Some (App.PInt 100)].
Proof.
  repeat split; try (vm_compute; reflexivity); vm_compute; discriminate.
Qed.

(** The three cases of the dispatch of a full batch. *)
Lemma flush_cases (H : Host) (cfg : App.config)
      (fetch : nat -> App.request -> fetch_result) (totalSize : nat)
      (s : App.loop_state) :
  let s' := fst (App.flush_if_full H cfg fetch totalSize s) in
  (length (App.batch s) < App.BATCH_SIZE -> s' = s)
  /\ (forall out calls',
         App.BATCH_SIZE <= length (App.batch s) ->
         App.processBatch H cfg fetch (App.batch s) (App.batchRecords s)
                          (App.processedLines s) (App.calls s) = (Ok out, calls') ->
         App.processedCount s' = App.processedCount s + length (App.batch s)
         /\ App.updates s'
            = App.updates s
              ++ [ {| App.u_status := None;
                      App.u_progress :=
                        Some (App.Math_min_99
                                (round_percent H (App.processedBytes s) totalSize));
                      App.u_processed :=
                        Some (App.processedCount s + length (App.batch s));
                      App.u_total := None; App.u_resultUrl := None;
                      App.u_error := None |} ]
         /\ App.batch s' = [] /\ App.batchRecords s' = []
         /\ App.processedLines s' = out)
  /\ (forall e calls',
         App.BATCH_SIZE <= length (App.batch s) ->
         App.processBatch H cfg fetch (App.batch s) (App.batchRecords s)
                          (App.processedLines s) (App.calls s) = (Throw e, calls') ->
         App.processedCount s' = App.processedCount s
         /\ App.updates s' = App.updates s
         /\ App.batch s' = App.batch s
         /\ App.processedLines s' = App.processedLines s).
Proof.
  unfold App.flush_if_full. split; [|split].
  - intros Hlt.
    replace (App.BATCH_SIZE <=? length (App.batch s)) with false
      by (symmetry; apply Nat.leb_gt; exact Hlt).
    reflexivity.
  - intros out calls' Hfull Hp.
    replace (App.BATCH_SIZE <=? length (App.batch s)) with true
      by (symmetry; apply Nat.leb_le; exact Hfull).
    rewrite Hp. cbn. repeat split.
  - intros e calls' Hfull Hp.
    replace (App.BATCH_SIZE <=? length (App.batch s)) with true
      by (symmetry; apply Nat.leb_le; exact Hfull).
    rewrite Hp. cbn. repeat split.
Qed.

Section AppAnsweredUpdates.

Variable H : Host.
Variable cfg : App.config.
Variable fetch : nat -> App.request -> fetch_result.
Variable totalSize : nat.
Hypothesis Hanswers : answers_all H fetch.

(** When every dispatch is answered, every request sent from the loop is
    followed by one update. *)
Lemma run_loop_answered_updates (lines : list string) :
  forall st : App.loop_state,
    open_batch st ->
    texts_are_strings H lines ->
    let st' := App.run_loop H cfg fetch totalSize lines st in
    length (App.updates st') + length (App.calls st)
    = length (App.updates st) + length (App.calls st').
Proof.
  induction lines as [|line lines IH]; intros st Hopen Hstr; [reflexivity|].
  change (line :: lines) with ([line] ++ lines) in Hstr.
  apply texts_are_strings_app in Hstr as [Hline Hrest].
  destruct (run_loop_answered H cfg fetch totalSize Hanswers [line] st Hopen Hline)
    as (Hopen1 & _).
  cbn [App.run_loop fold_left] in Hopen1 |- *.
  fold (App.run_loop H cfg fetch totalSize lines
          (App.loop_step H cfg fetch totalSize st line)).
  specialize (IH _ Hopen1 Hrest). cbn zeta in IH.
  enough (Hstep : length (App.updates (App.loop_step H cfg fetch totalSize st line))
                  + length (App.calls st)
                  = length (App.updates st)
                    + length (App.calls (App.loop_step H cfg fetch totalSize st line)))
    by lia.
  clear IH Hopen1 Hrest.
  unfold texts_are_strings in Hline. cbn [needs_texts flat_map] in Hline.
  rewrite app_nil_r in Hline.
  destruct (classify H line) as [|out|record text] eqn:Hc.
  - rewrite (step_parse_error H cfg fetch totalSize line st Hc). reflexivity.
  - destruct Hopen as (Hs & Hlt & Hlen).
    rewrite (step_pass_through H cfg fetch totalSize line out st Hc Hlt). reflexivity.
  - cbn in Hline. destruct text as [| | |s| |]; try discriminate Hline.
    destruct (Nat.eq_dec (S (length (App.batch st))) App.BATCH_SIZE) as [Hfull|Hopen'].
    + destruct (step_needs_full H cfg fetch totalSize Hanswers line record s st Hc Hopen
                  Hfull) as (embs & _ & ->).
      cbn [App.updates App.calls]. rewrite !length_app. cbn. lia.
    + destruct Hopen as (Hs & Hlt & Hlen).
      rewrite (step_needs_open H cfg fetch totalSize line record (JStr s) st Hc) by lia.
      reflexivity.
Qed.

End AppAnsweredUpdates.

(** C8, amended: a run starts with the update to [processing] and progress 0.
    A batch is dispatched from the loop when it holds [BATCH_SIZE] texts, and
    not before; when the dispatch is answered, the length of the batch is
    added to [processedCount], the batch is emptied and one update publishes
    the new count and
    [Math.min(99, Math.round(processedBytes / totalSize * 100))], a value that
    is not a number or at most 99; when the dispatch fails, the count and the
    updates stay.  In a run whose dispatches are all answered there is one
    such update for each batch filled.  The batch sent at the end of the
    stream adds its length to [processedCount] without an update of its own;
    the last update of a run that succeeds sets the status to [done], the
    progress to exactly 100 and [processed] and [total] to the same count. *)
Theorem C8_progress_updates (H : Host) (cfg : App.config)
        (fetch : nat -> App.request -> fetch_result) (totalSize : nat)
        (lines : list string) :
  let st := App.run_loop H cfg fetch totalSize lines App.initial_state in
  let r := App.processFile H cfg fetch totalSize lines in
  (exists us last,
      App.updates st = processing_update :: us
      /\ App.run_updates r = processing_update :: us ++ [last]
      /\ Forall (fun u => App.u_status u = None
                          /\ exists p, App.u_progress u = Some p /\ below_100 p) us
      /\ (App.run_output r <> None ->
          App.u_status last = Some App.st_done
          /\ App.u_progress last = Some (App.PInt 100)
          /\ App.u_processed last = Some (App.processedCount st + length (App.batch st))
          /\ App.u_total last = App.u_processed last)
      /\ (App.run_output r = None -> App.u_status last = Some App.st_error)
      /\ (answers_all H fetch -> texts_are_strings H lines ->
          length us = length (App.calls st)
          /\ map App.req_input (App.calls st)
             = fst (batcher App.BATCH_SIZE [] (cleaned (needs_texts H lines)))))
  /\ (forall fileItem,
         App.run_output r <> None ->
         App.status (App.final_item fileItem r) = App.st_done
         /\ App.progress (App.final_item fileItem r) = App.PInt 100)
  /\ (forall s,
         let s' := fst (App.flush_if_full H cfg fetch totalSize s) in
         (length (App.batch s) < App.BATCH_SIZE -> s' = s)
         /\ (forall out calls',
                App.BATCH_SIZE <= length (App.batch s) ->
                App.processBatch H cfg fetch (App.batch s) (App.batchRecords s)
                                 (App.processedLines s) (App.calls s) = (Ok out, calls') ->
                App.processedCount s' = App.processedCount s + length (App.batch s)
                /\ App.updates s'
                   = App.updates s
                     ++ [ {| App.u_status := None;
                             App.u_progress :=
                               Some (App.Math_min_99
                                       (round_percent H (App.processedBytes s) totalSize));
                             App.u_processed :=
                               Some (App.processedCount s + length (App.batch s));
                             App.u_total := None; App.u_resultUrl := None;
                             App.u_error := None |} ]
                /\ App.batch s' = [] /\ App.batchRecords s' = []
                /\ App.processedLines s' = out)
         /\ (forall e calls',
                App.BATCH_SIZE <= length (App.batch s) ->
                App.processBatch H cfg fetch (App.batch s) (App.batchRecords s)
                                 (App.processedLines s) (App.calls s) = (Throw e, calls') ->
                App.processedCount s' = App.processedCount s
                /\ App.updates s' = App.updates s
                /\ App.batch s' = App.batch s
                /\ App.processedLines s' = App.processedLines s))
  /\ (forall s line record text,
         JSON_parse H line = Some record ->
         App.getEmbeddingText record = Ok text ->
         let flushed :=
           fst (App.flush_if_full H cfg fetch totalSize
                  (App.dispatch line record text (App.add_bytes line s))) in
         App.updates (App.loop_step H cfg fetch totalSize s line) = App.updates flushed
         /\ App.processedCount (App.loop_step H cfg fetch totalSize s line)
            = App.processedCount flushed).
Proof.
  intros st r.
  destruct (run_loop_updates H cfg fetch totalSize lines App.initial_state)
    as (us & Hus & Hall).
  fold st in Hus. cbn [App.updates App.initial_state app] in Hus.
  fold processing_update in Hus.
  assert (Hshape : Forall (fun u => App.u_status u = None
                                    /\ exists p, App.u_progress u = Some p /\ below_100 p)
                          us).
  { eapply Forall_impl; [|exact Hall].
    intros u Hu. destruct (progress_update_below_100 H totalSize u Hu) as (Hs & _ & Hp).
    split; assumption. }
  assert (Hr : exists last,
             App.run_updates r = processing_update :: us ++ [last]
             /\ (App.run_output r <> None ->
                 App.u_status last = Some App.st_done
                 /\ App.u_progress last = Some (App.PInt 100)
                 /\ App.u_processed last
                    = Some (App.processedCount st + length (App.batch st))
                 /\ App.u_total last = App.u_processed last)
             /\ (App.run_output r = None -> App.u_status last = Some App.st_error)).
  { subst r. unfold App.processFile. fold st.
    destruct (0 <? length (App.batch st)) eqn:Hne.
    - destruct (App.processBatch H cfg fetch (App.batch st) (App.batchRecords st)
                  (App.processedLines st) (App.calls st)) as [[out'|e] calls'].
      + eexists. cbn [App.finish App.run_updates App.run_output]. rewrite Hus.
        split; [reflexivity|].
        split; [intros _; repeat split|intros Hn; discriminate Hn].
      + eexists. cbn [App.fail App.run_updates App.run_output]. rewrite Hus.
        split; [reflexivity|].
        split; [intros Hn; now destruct Hn|intros _; reflexivity].
    - apply Nat.ltb_ge in Hne.
      assert (H0 : length (App.batch st) = 0) by lia.
      eexists. cbn [App.finish App.run_updates App.run_output]. rewrite Hus.
      split; [reflexivity|].
      split; [intros _|intros Hn; discriminate Hn].
      cbn [App.u_status App.u_progress App.u_processed App.u_total].
      rewrite H0, Nat.add_0_r. repeat split. }
  destruct Hr as (last & Hlast & Hdone & Herr).
  split; [|split; [|split]].
  - exists us, last.
    split; [exact Hus|].
    split; [exact Hlast|split; [exact Hshape|split; [exact Hdone|split; [exact Herr|]]]].
    intros Hanswers Hstr.
    pose proof (run_loop_answered_updates H cfg fetch totalSize Hanswers lines
                  App.initial_state (open_batch_initial) Hstr) as Hcount.
    destruct (run_loop_answered H cfg fetch totalSize Hanswers lines
                App.initial_state open_batch_initial Hstr)
      as (_ & (emitted & Hb & Hcalls) & _).
    fold st in Hcount, Hb, Hcalls.
    cbn [App.updates App.calls App.batch App.initial_state length map app] in Hcount, Hb, Hcalls.
    change (cleaned []) with (@nil string) in Hb.
    rewrite Hus in Hcount. cbn [length] in Hcount.
    split; [lia|]. rewrite Hb, Hcalls. reflexivity.
  - intros fileItem Hout.
    destruct (Hdone Hout) as (Hs & Hp & _).
    destruct (final_item_last fileItem (processing_update :: us) last r Hlast)
      as (Hfs & Hfp & _).
    split; [apply Hfs; exact Hs|apply Hfp; exact Hp].
  - intros s. apply flush_cases.
  - intros s line record text Hp Htext flushed. subst flushed.
    unfold App.loop_step, App.try_line. rewrite Hp, Htext.
    destruct (App.flush_if_full H cfg fetch totalSize
                (App.dispatch line record text (App.add_bytes line s))) as [s' [e|]];
      split; reflexivity.
Qed.

Lemma C8_witness :
  length (App.updates (App.run_loop twenty_host App.default_config (Demo.stub e01)
                                    (file_size twenty_lines) twenty_lines
                                    App.initial_state)) = 3.
Proof.
  destruct (C8_progress_updates twenty_host App.default_config (Demo.stub e01)
              (file_size twenty_lines) twenty_lines)
    as ((us & last & Hus & _ & _ & _ & _ & Hcount) & _).
  destruct (Hcount stub_answers_twenty) as [Hlen _]; [vm_compute; reflexivity|].
  rewrite Hus. cbn [length]. rewrite Hlen. vm_compute. reflexivity.
Defined.

(** ** The line source *)

Lemma split_newline_cons (c : ascii) (s : string) :
  Ui.split_newline (String c s)
  = if Ascii.eqb c Str.newline then EmptyString :: Ui.split_newline s
    else match Ui.split_newline s with
         | piece :: pieces => String c piece :: pieces
         | [] => []
         end.
Proof.
  unfold Ui.split_newline. cbn [Ui.split_first].
  destruct (Ui.split_first s) as [piece pieces].
  destruct (Ascii.eqb c Str.newline); reflexivity.
Qed.

Lemma split_newline_shape (s : string) :
  exists piece pieces, Ui.split_newline s = piece :: pieces.
Proof.
  unfold Ui.split_newline. destruct (Ui.split_first s) as [piece pieces].
  exists piece, pieces. reflexivity.
Qed.

(** Splitting a text that arrives in two parts: the pieces of the first part
    but the last, then the pieces of the last one followed by the second
    part. *)
Lemma split_newline_app (a b : string) :
  Ui.split_newline (a +++ b)
  = removelast (Ui.split_newline a)
    ++ Ui.split_newline (last (Ui.split_newline a) EmptyString +++ b).
Proof.
  induction a as [|c a IH]; [reflexivity|].
  cbn [String.append]. rewrite !split_newline_cons.
  destruct (split_newline_shape a) as (p & ps & Ha). rewrite Ha in *.
  destruct (Ascii.eqb c Str.newline) eqn:Hc.
  - rewrite IH. reflexivity.
  - rewrite IH. destruct ps as [|p2 ps].
    + cbn [removelast last app String.append].
      rewrite split_newline_cons, Hc. reflexivity.
    + reflexivity.
Qed.

Lemma append_length (a b : string) :
  String.length (a +++ b) = String.length a + String.length b.
Proof.
  induction a as [|x a IH]; simpl; [reflexivity|now rewrite IH].
Qed.

Lemma chars_append (a b : string) : chars (a +++ b) = chars a ++ chars b.
Proof.
  unfold chars. induction a as [|x a IH]; simpl; [reflexivity|now rewrite IH].
Qed.

Lemma lineIterator_from_spec (chunks : list string) :
  forall buffer,
    Ui.lineIterator_from buffer chunks
    = filter (fun line => negb (Str.is_blank line))
             (Ui.split_newline (buffer +++ content chunks)).
Proof.
  induction chunks as [|chunk rest IH]; intros buffer;
    cbn [Ui.lineIterator_from content fold_right].
  - rewrite append_empty_r. destruct buffer as [|c buffer]; reflexivity.
  - rewrite IH, <- filter_app, <- split_newline_app.
    fold (content rest). rewrite append_associative. reflexivity.
Qed.

Lemma lineIterator_spec (chunks : list string) :
  Ui.lineIterator chunks
  = filter (fun line => negb (Str.is_blank line)) (Ui.split_newline (content chunks)).
Proof.
  unfold Ui.lineIterator. rewrite lineIterator_from_spec. reflexivity.
Qed.

(** X1: the lines [lineIterator] yields are the non-blank pieces between the
    newlines of the whole text, however the stream is cut into chunks. *)
Theorem X1_lineIterator_chunking (chunks : list string) :
  Ui.lineIterator chunks
  = filter (fun line => negb (Str.is_blank line)) (Ui.split_newline (content chunks)).
Proof.
  unfold Ui.lineIterator. rewrite lineIterator_from_spec. reflexivity.
Qed.

Lemma split_newline_pieces (s : string) :
  Forall (fun piece => ~ In Str.newline (chars piece)) (Ui.split_newline s).
Proof.
  induction s as [|c s IH].
  - constructor; [intros []|constructor].
  - rewrite split_newline_cons.
    destruct (Ascii.eqb c Str.newline) eqn:Hc.
    + constructor; [intros []|exact IH].
    + destruct (Ui.split_newline s) as [|piece pieces]; [constructor|].
      inversion IH as [|? ? Hp Hps]; subst.
      constructor; [|exact Hps].
      intros [Heq|Hin]; [|exact (Hp Hin)].
      subst c. rewrite Ascii.eqb_refl in Hc. discriminate Hc.
Qed.

(** X2: every line [lineIterator] yields is not blank and holds no newline. *)
Theorem X2_lineIterator_lines (chunks : list string) :
  Forall proper_line (Ui.lineIterator chunks).
Proof.
  rewrite lineIterator_spec.
  apply Forall_forall. intros line Hin.
  apply filter_In in Hin as [Hin Hnb].
  split.
  - destruct (Str.is_blank line); [discriminate Hnb|reflexivity].
  - pose proof (split_newline_pieces (content chunks)) as Hall.
    rewrite Forall_forall in Hall. exact (Hall line Hin).
Qed.

Lemma file_size_app (l1 l2 : list string) :
  file_size (l1 ++ l2) = file_size l1 + file_size l2.
Proof.
  unfold file_size. induction l1 as [|x l1 IH]; simpl; [reflexivity|].
  rewrite IH. lia.
Qed.

Lemma file_size_split (s : string) :
  file_size (Ui.split_newline s) = String.length s + 1.
Proof.
  induction s as [|c s IH]; [reflexivity|].
  rewrite split_newline_cons.
  destruct (Ascii.eqb c Str.newline).
  - change (file_size (EmptyString :: Ui.split_newline s))
      with (0 + 1 + file_size (Ui.split_newline s)).
    rewrite IH. simpl. lia.
  - destruct (Ui.split_newline s) as [|piece pieces]; [simpl in IH; lia|].
    unfold file_size in *. simpl in *. lia.
Qed.

Lemma file_size_filter (keep : string -> bool) (lines : list string) :
  file_size (filter keep lines) <= file_size lines.
Proof.
  unfold file_size. induction lines as [|x lines IH]; simpl; [lia|].
  destruct (keep x); simpl; lia.
Qed.

(** Whatever the provider answers, a turn of the loop adds the bytes of its
    line, newline included, to [processedBytes]. *)
Lemma step_bytes (H : Host) (cfg : App.config)
      (fetch : nat -> App.request -> fetch_result) (totalSize : nat)
      (st : App.loop_state) (line : string) :
  App.processedBytes (App.loop_step H cfg fetch totalSize st line)
  = App.processedBytes st + (String.length line + 1).
Proof.
  unfold App.loop_step, App.try_line.
  destruct (JSON_parse H line) as [record|]; [|reflexivity].
  destruct (App.getEmbeddingText record) as [text|e]; [|reflexivity].
  unfold App.flush_if_full, App.dispatch.
  destruct (App.has_embedding record); [|destruct (negb (truthy text))];
    cbn [App.batch App.batchRecords App.processedLines App.calls App.add_bytes];
    match goal with
    | |- context [App.BATCH_SIZE <=? ?n] => destruct (App.BATCH_SIZE <=? n)
    end; try reflexivity;
    match goal with
    | |- context [App.processBatch ?a ?b ?c ?d ?e ?f ?g] =>
        destruct (App.processBatch a b c d e f g) as [[out'|e'] calls']
    end; reflexivity.
Qed.

Lemma run_loop_bytes (H : Host) (cfg : App.config)
      (fetch : nat -> App.request -> fetch_result) (totalSize : nat)
      (lines : list string) :
  forall st,
    App.processedBytes (App.run_loop H cfg fetch totalSize lines st)
    = App.processedBytes st + file_size lines.
Proof.
  induction lines as [|line lines IH]; intros st; unfold App.run_loop; cbn [fold_left].
  - unfold file_size. simpl. lia.
  - fold (App.run_loop H cfg fetch totalSize lines
            (App.loop_step H cfg fetch totalSize st line)).
    rewrite IH, step_bytes. unfold file_size. simpl. lia.
Qed.

(** X3: the bytes the loop counts for the lines of a stream never exceed the
    length of its text by more than one (the newline counted for a last line
    that has none), whatever the provider does. *)
Theorem X3_processedBytes_bound (H : Host) (cfg : App.config)
        (fetch : nat -> App.request -> fetch_result) (totalSize : nat)
        (chunks : list string) :
  App.processedBytes
    (App.run_loop H cfg fetch totalSize (Ui.lineIterator chunks) App.initial_state)
  = file_size (Ui.lineIterator chunks)
  /\ file_size (Ui.lineIterator chunks) <= String.length (content chunks) + 1.
Proof.
  split.
  - rewrite run_loop_bytes. reflexivity.
  - rewrite lineIterator_spec, <- file_size_split.
    apply file_size_filter.
Qed.

Lemma split_newline_one_line (p : string) :
  ~ In Str.newline (chars p) -> Ui.split_newline p = [p].
Proof.
  induction p as [|c p IH]; intros Hn; [reflexivity|].
  rewrite split_newline_cons.
  destruct (Ascii.eqb c Str.newline) eqn:Hc.
  - apply Ascii.eqb_eq in Hc. exfalso. apply Hn. left. exact Hc.
  - rewrite IH; [reflexivity|]. intros Hin. apply Hn. right. exact Hin.
Qed.

Lemma split_newline_line (p s : string) :
  ~ In Str.newline (chars p) ->
  Ui.split_newline (p +++ String Str.newline s) = p :: Ui.split_newline s.
Proof.
  induction p as [|c p IH]; intros Hn.
  - cbn [String.append]. rewrite split_newline_cons, Ascii.eqb_refl. reflexivity.
  - cbn [String.append]. rewrite split_newline_cons.
    destruct (Ascii.eqb c Str.newline) eqn:Hc.
    + apply Ascii.eqb_eq in Hc. exfalso. apply Hn. left. exact Hc.
    + rewrite IH; [reflexivity|]. intros Hin. apply Hn. right. exact Hin.
Qed.

Lemma split_blob_text (line : string) (lines : list string) :
  Forall (fun l => ~ In Str.newline (chars l)) (line :: lines) ->
  Ui.split_newline (App.blob_text (line :: lines)) = line :: lines.
Proof.
  revert line.
  induction lines as [|next lines IH]; intros line Hall;
    inversion Hall as [|? ? Hline Hrest]; subst.
  - apply split_newline_one_line. exact Hline.
  - change (App.blob_text (line :: next :: lines))
      with (line +++ String Str.newline (App.blob_text (next :: lines))).
    rewrite split_newline_line by exact Hline.
    rewrite IH by exact Hrest. reflexivity.
Qed.

Lemma filter_all {A : Type} (keep : A -> bool) (l : list A) :
  Forall (fun x => keep x = true) l -> filter keep l = l.
Proof.
  induction 1 as [|x l Hx Hl IH]; simpl; [reflexivity|].
  rewrite Hx, IH. reflexivity.
Qed.

(** Reading a blob of proper lines back gives the lines. *)
Lemma lineIterator_blob_text (chunks : list string) (lines : list string) :
  Forall proper_line lines ->
  content chunks = App.blob_text lines ->
  Ui.lineIterator chunks = lines.
Proof.
  intros Hall Hc. rewrite lineIterator_spec, Hc.
  destruct lines as [|line lines]; [reflexivity|].
  rewrite split_blob_text.
  - apply filter_all. eapply Forall_impl; [|exact Hall].
    intros l [Hb _]. rewrite Hb. reflexivity.
  - eapply Forall_impl; [|exact Hall]. intros l [_ Hn]. exact Hn.
Qed.

(** X4: a text made of proper lines joined by newlines, as the blob of a run
    is, is read back by [lineIterator] as exactly those lines, however it is
    cut into chunks. *)
Theorem X4_lineIterator_of_join (chunks : list string) (lines : list string) :
  Forall proper_line lines ->
  content chunks = App.blob_text lines ->
  Ui.lineIterator chunks = lines
  /\ file_size (Ui.lineIterator chunks) = String.length (content chunks) + 1
     - (if Str.is_empty (content chunks) then 1 else 0).
Proof.
  intros Hall Hc.
  pose proof (lineIterator_blob_text chunks lines Hall Hc) as Hl.
  split; [exact Hl|].
  rewrite Hl, Hc.
  destruct lines as [|line lines]; [reflexivity|].
  assert (Hn : Forall (fun l => ~ In Str.newline (chars l)) (line :: lines))
    by (eapply Forall_impl; [|exact Hall]; intros l [_ Hn]; exact Hn).
  rewrite <- (split_blob_text line lines Hn) at 1.
  rewrite file_size_split.
  inversion Hall as [|? ? [Hb _] _]; subst.
  destruct (App.blob_text (line :: lines)) as [|c rest] eqn:Hbt; simpl; [|lia].
  exfalso. unfold App.blob_text in Hbt.
  destruct line as [|c line]; [discriminate Hb|].
  destruct lines; discriminate Hbt.
Qed.

(** ** Output lines *)

Lemma escape_char_no_newline (c : ascii) :
  ~ In Str.newline (chars (escape_char c)).
Proof.
  destruct c as [[] [] [] [] [] [] [] []]; vm_compute; intuition discriminate.
Qed.

Lemma escape_no_newline (s : string) : ~ In Str.newline (chars (escape s)).
Proof.
  induction s as [|c s IH]; [intros []|].
  cbn [escape]. rewrite chars_append. intros Hin.
  apply in_app_or in Hin as [Hin|Hin]; [exact (escape_char_no_newline c Hin)|exact (IH Hin)].
Qed.

Lemma quote_no_newline (s : string) : ~ In Str.newline (chars (quote s)).
Proof.
  unfold quote. intros [Heq|Hin]; [discriminate Heq|].
  fold (chars (escape s +++ String Str.dquote EmptyString)) in Hin.
  rewrite chars_append in Hin.
  apply in_app_or in Hin as [Hin|[Heq|[]]];
    [exact (escape_no_newline s Hin)|discriminate Heq].
Qed.

Lemma join_no_newline (pieces : list string) :
  Forall (fun piece => ~ In Str.newline (chars piece)) pieces ->
  ~ In Str.newline (chars (Str.join "," pieces)).
Proof.
  induction 1 as [|piece pieces Hp Hps IH]; [intros []|].
  destruct pieces as [|next pieces]; [exact Hp|].
  change (Str.join "," (piece :: next :: pieces))
    with (piece +++ "," +++ Str.join "," (next :: pieces)).
  rewrite !chars_append. intros Hin.
  apply in_app_or in Hin as [Hin|Hin]; [exact (Hp Hin)|].
  apply in_app_or in Hin as [[Heq|[]]|Hin]; [discriminate Heq|exact (IH Hin)].
Qed.

(** The serialisation of a value holds no newline. *)
Lemma stringify_no_newline (v : json) :
  numbers_on_one_line v = true ->
  ~ In Str.newline (chars (JSON_stringify v)).
Proof.
  induction v as [|b|repr|s|items IH|fields IH] using json_induction; intros Hn.
  - vm_compute. intuition discriminate.
  - destruct b; vm_compute; intuition discriminate.
  - cbn [JSON_stringify numbers_on_one_line] in *.
    destruct (String.eqb repr "NaN" || String.eqb repr "Infinity"
              || String.eqb repr "-Infinity");
      [vm_compute; intuition discriminate|].
    intros Hin. apply negb_true_iff in Hn.
    assert (Hex : existsb (Ascii.eqb Str.newline) (chars repr) = true).
    { apply existsb_exists. exists Str.newline. split; [exact Hin|apply Ascii.eqb_refl]. }
    rewrite Hex in Hn. discriminate Hn.
  - apply quote_no_newline.
  - cbn [JSON_stringify numbers_on_one_line] in *.
    rewrite !chars_append. intros Hin.
    apply in_app_or in Hin as [[Heq|[]]|Hin]; [discriminate Heq|].
    apply in_app_or in Hin as [Hin|[Heq|[]]]; [|discriminate Heq].
    revert Hin. apply join_no_newline.
    rewrite forallb_forall in Hn. rewrite Forall_forall in IH.
    apply Forall_forall. intros piece Hp.
    apply in_map_iff in Hp as (item & <- & Hitem).
    apply IH; [exact Hitem|apply Hn; exact Hitem].
  - cbn [JSON_stringify numbers_on_one_line] in *.
    rewrite !chars_append. intros Hin.
    apply in_app_or in Hin as [[Heq|[]]|Hin]; [discriminate Heq|].
    apply in_app_or in Hin as [Hin|[Heq|[]]]; [|discriminate Heq].
    revert Hin. apply join_no_newline.
    rewrite forallb_forall in Hn. rewrite Forall_forall in IH.
    apply Forall_forall. intros piece Hp.
    apply in_map_iff in Hp as ([k v] & <- & Hkv).
    rewrite !chars_append. intros Hin.
    apply in_app_or in Hin as [Hin|Hin]; [exact (quote_no_newline k Hin)|].
    apply in_app_or in Hin as [[Heq|[]]|Hin]; [discriminate Heq|].
    exact (IH (k, v) Hkv (Hn (k, v) Hkv) Hin).
Qed.

Lemma ws_len_brace (rest : string) : Str.ws_len (String "{"%char rest) = 0.
Proof.
  destruct rest as [|c1 [|c2 rest]]; reflexivity.
Qed.

Lemma brace_not_blank (rest : string) : Str.is_blank (String "{"%char rest) = false.
Proof.
  unfold Str.is_blank, Str.trim.
  cbn [Str.trim_start_from]. rewrite ws_len_brace.
  cbn [Str.trim_end]. unfold Str.all_ws. cbn [Str.all_ws_from].
  rewrite ws_len_brace. reflexivity.
Qed.

(** The serialisation of an object is a proper line. *)
Lemma object_proper_line (record : json) :
  object_record record -> proper_line (JSON_stringify record).
Proof.
  intros [[fields ->] Hn]. split.
  - cbn [JSON_stringify]. apply brace_not_blank.
  - apply stringify_no_newline. exact Hn.
Qed.

Lemma lookup_on_one_line (k : string) (fields : list (string * json)) (v : json) :
  numbers_on_one_line (JObj fields) = true ->
  lookup k fields = Some v ->
  numbers_on_one_line v = true.
Proof.
  cbn [numbers_on_one_line].
  induction fields as [|[k' v'] fields IH]; intros Hn Hl; [discriminate Hl|].
  cbn [forallb snd] in Hn. apply andb_true_iff in Hn as [Hv Hn].
  cbn [lookup] in Hl. destruct (String.eqb k k').
  - inversion Hl; subst. exact Hv.
  - exact (IH Hn Hl).
Qed.

Lemma get_prop_on_one_line (v : json) (k : string) (e : jsval) :
  numbers_on_one_line v = true ->
  get_prop v k = Ok e ->
  embedding_on_one_line e.
Proof.
  intros Hn Hg. destruct v; cbn [get_prop] in Hg; inversion Hg; subst;
    try exact I.
  destruct (lookup k fields) as [x|] eqn:Hl; [|exact I].
  exact (lookup_on_one_line k fields x Hn Hl).
Qed.

Lemma set_field_on_one_line (k : string) (v : json) (fields : list (string * json)) :
  numbers_on_one_line v = true ->
  numbers_on_one_line (JObj fields) = true ->
  numbers_on_one_line (JObj (set_field k v fields)) = true.
Proof.
  cbn [numbers_on_one_line]. intros Hv.
  induction fields as [|[k' v'] fields IH]; intros Hn.
  - cbn. rewrite Hv. reflexivity.
  - cbn [forallb snd] in Hn. apply andb_true_iff in Hn as [Hv' Hn].
    cbn [set_field]. destruct (String.eqb k k'); cbn [forallb snd].
    + rewrite Hv, Hn. reflexivity.
    + rewrite Hv', (IH Hn). reflexivity.
Qed.

Lemma remove_field_on_one_line (k : string) (fields : list (string * json)) :
  numbers_on_one_line (JObj fields) = true ->
  numbers_on_one_line (JObj (remove_field k fields)) = true.
Proof.
  cbn [numbers_on_one_line].
  induction fields as [|[k' v'] fields IH]; intros Hn; [reflexivity|].
  cbn [forallb snd] in Hn. apply andb_true_iff in Hn as [Hv' Hn].
  cbn [remove_field]. destruct (String.eqb k k'); cbn [forallb snd].
  - exact (IH Hn).
  - rewrite Hv', (IH Hn). reflexivity.
Qed.

Lemma assign_embedding_object (record : json) (e : jsval) :
  object_record record ->
  embedding_on_one_line e ->
  object_record (App.assign_embedding record e).
Proof.
  intros [[fields ->] Hn] He.
  destruct e as [v|]; cbn [App.assign_embedding]; split; try (eexists; reflexivity).
  - apply set_field_on_one_line; assumption.
  - apply remove_field_on_one_line; assumption.
Qed.

Lemma push_embedded_proper (records : list json) :
  forall embeddings,
    Forall object_record records ->
    Forall embedding_on_one_line embeddings ->
    Forall proper_line (App.push_embedded records embeddings).
Proof.
  induction records as [|record records IH]; intros [|e embeddings] Hr He;
    cbn [App.push_embedded]; try constructor.
  - inversion Hr; inversion He; subst.
    apply object_proper_line, assign_embedding_object; assumption.
  - inversion Hr; inversion He; subst. apply IH; assumption.
Qed.

Section AppOutputLines.

Variable H : Host.
Variable cfg : App.config.
Variable fetch : nat -> App.request -> fetch_result.
Variable totalSize : nat.
Hypothesis Hparse : parses_numbers_on_one_line H.

Lemma map_result_embeddings (items : list json) :
  forall embeddings,
    forallb numbers_on_one_line items = true ->
    App.map_result (fun item => get_prop item "embedding") items = Ok embeddings ->
    Forall embedding_on_one_line embeddings.
Proof.
  induction items as [|item items IH]; intros embeddings Hn Hm; cbn [App.map_result] in Hm.
  - inversion Hm. constructor.
  - cbn [forallb] in Hn. apply andb_true_iff in Hn as [Hi Hn].
    unfold bind in Hm.
    destruct (get_prop item "embedding") as [e|x] eqn:Hg; [|discriminate Hm].
    destruct (App.map_result (fun item => get_prop item "embedding") items) as [es|x];
      [|discriminate Hm].
    inversion Hm; subst. constructor.
    + exact (get_prop_on_one_line item "embedding" e Hi Hg).
    + apply IH; [exact Hn|reflexivity].
Qed.

Lemma read_response_embeddings (status : nat) (body : string) (embeddings : list jsval) :
  App.read_response H status body = Ok embeddings ->
  Forall embedding_on_one_line embeddings.
Proof.
  unfold App.read_response.
  destruct (negb (response_ok status)); [discriminate|].
  destruct (JSON_parse H body) as [data|] eqn:Hp; [|discriminate].
  unfold bind. destruct (get_prop data "data") as [d|x] eqn:Hg; [|discriminate].
  destruct d as [[| | | |items|]|]; try discriminate.
  pose proof (get_prop_on_one_line data "data" _ (Hparse _ _ Hp) Hg) as Hd.
  apply map_result_embeddings. exact Hd.
Qed.

Lemma processBatch_proper (texts records : list json) (outputBuffer out' : list string)
      (calls calls' : list App.request) :
  Forall proper_line outputBuffer ->
  Forall object_record records ->
  App.processBatch H cfg fetch texts records outputBuffer calls = (Ok out', calls') ->
  Forall proper_line out'.
Proof.
  intros Hout Hrec. unfold App.processBatch, App.fetchBatchEmbeddings.
  destruct (App.map_result App.clean_text texts) as [cleanTexts|x]; [|discriminate].
  destruct (fetch _ _) as [m|status body]; [discriminate|].
  destruct (App.read_response H status body) as [embeddings|x] eqn:Hr; [|discriminate].
  destruct (negb (length embeddings =? length records)); [discriminate|].
  intros Heq. inversion Heq; subst.
  apply Forall_app. split; [exact Hout|].
  apply push_embedded_proper; [exact Hrec|exact (read_response_embeddings _ _ _ Hr)].
Qed.

Lemma flush_invariant (st : App.loop_state) :
  output_invariant st ->
  output_invariant (fst (App.flush_if_full H cfg fetch totalSize st)).
Proof.
  intros [Hout Hrec]. unfold App.flush_if_full.
  destruct (App.BATCH_SIZE <=? length (App.batch st)); [|split; assumption].
  destruct (App.processBatch H cfg fetch (App.batch st) (App.batchRecords st)
              (App.processedLines st) (App.calls st)) as [[out'|e] calls'] eqn:Hp.
  - split; [|constructor].
    exact (processBatch_proper _ _ _ _ _ _ Hout Hrec Hp).
  - split; assumption.
Qed.

Lemma text_needs_object (record text : json) :
  App.getEmbeddingText record = Ok text ->
  truthy text = true ->
  exists fields, record = JObj fields.
Proof.
  destruct record; cbn; intros Ht Hy; try (inversion Ht; subst; discriminate Hy).
  eexists. reflexivity.
Qed.

Lemma step_invariant (st : App.loop_state) (line : string) :
  proper_line line ->
  output_invariant st ->
  output_invariant (App.loop_step H cfg fetch totalSize st line).
Proof.
  intros Hline [Hout Hrec].
  assert (Hpush : forall s, output_invariant s -> output_invariant (App.push_line line s)).
  { intros s [Ho Hr]. split; [|exact Hr].
    cbn [App.push_line App.processedLines]. apply Forall_app. split; [exact Ho|].
    constructor; [exact Hline|constructor]. }
  assert (Hflush : forall s,
             output_invariant s ->
             output_invariant
               (match App.flush_if_full H cfg fetch totalSize s with
                | (s', None) => s'
                | (s', Some _) => App.push_line line s'
                end)).
  { intros s Hs. pose proof (flush_invariant s Hs) as Hf.
    destruct (App.flush_if_full H cfg fetch totalSize s) as [s' [e|]];
      [apply Hpush|]; exact Hf. }
  unfold App.loop_step, App.try_line.
  destruct (JSON_parse H line) as [record|] eqn:Hp.
  2:{ apply Hpush. split; assumption. }
  destruct (App.getEmbeddingText record) as [text|e] eqn:Ht.
  2:{ apply Hpush. split; assumption. }
  apply Hflush. unfold App.dispatch.
  destruct (App.has_embedding record) eqn:He.
  - split; [|exact Hrec].
    cbn [App.processedLines]. apply Forall_app. split; [exact Hout|].
    constructor; [|constructor].
    apply object_proper_line. split; [|exact (Hparse _ _ Hp)].
    destruct record; try discriminate He. eexists. reflexivity.
  - destruct (negb (truthy text)) eqn:Hy.
    + split; [|exact Hrec].
      cbn [App.processedLines App.add_bytes]. apply Forall_app. split; [exact Hout|].
      constructor; [exact Hline|constructor].
    + split; [exact Hout|].
      cbn [App.batchRecords App.add_bytes]. apply Forall_app. split; [exact Hrec|].
      constructor; [|constructor].
      split; [|exact (Hparse _ _ Hp)].
      apply negb_false_iff in Hy. exact (text_needs_object record text Ht Hy).
Qed.

Lemma run_loop_invariant (lines : list string) :
  forall st,
    Forall proper_line lines ->
    output_invariant st ->
    output_invariant (App.run_loop H cfg fetch totalSize lines st).
Proof.
  induction lines as [|line lines IH]; intros st Hall Hst; [exact Hst|].
  inversion Hall; subst.
  unfold App.run_loop. cbn [fold_left].
  apply IH; [assumption|]. apply step_invariant; assumption.
Qed.

(** Every line of the output of a run on proper lines is a proper line. *)
Lemma processFile_output_proper (lines out : list string) :
  Forall proper_line lines ->
  App.run_output (App.processFile H cfg fetch totalSize lines) = Some out ->
  Forall proper_line out.
Proof.
  intros Hall.
  assert (Hinit : output_invariant App.initial_state) by (split; constructor).
  destruct (run_loop_invariant lines App.initial_state Hall Hinit) as [Hout Hrec].
  unfold App.processFile.
  set (st := App.run_loop H cfg fetch totalSize lines App.initial_state) in *.
  destruct (0 <? length (App.batch st)).
  - destruct (App.processBatch H cfg fetch (App.batch st) (App.batchRecords st)
                (App.processedLines st) (App.calls st)) as [[out'|e] calls'] eqn:Hp;
      cbn; intros Heq; [|discriminate Heq].
    inversion Heq; subst.
    exact (processBatch_proper _ _ _ _ _ _ Hout Hrec Hp).
  - cbn. intros Heq. inversion Heq; subst. exact Hout.
Qed.

End AppOutputLines.

(** X5: when a run on the lines of a stream ends [done], every line of its
    output is not blank and holds no newline, whatever the provider answered;
    so the blob, read again by [lineIterator], gives exactly the output lines,
    one record per line. *)
Theorem X5_output_is_line_delimited (H : Host) (cfg : App.config)
        (fetch : nat -> App.request -> fetch_result) (totalSize : nat)
        (chunks : list string) (out : list string) :
  parses_numbers_on_one_line H ->
  App.run_output (App.processFile H cfg fetch totalSize (Ui.lineIterator chunks))
  = Some out ->
  Forall proper_line out
  /\ forall chunks', content chunks' = App.blob_text out -> Ui.lineIterator chunks' = out.
Proof.
  intros Hparse Hout.
  assert (Hlines : Forall proper_line (Ui.lineIterator chunks)).
  { rewrite lineIterator_spec.
    apply Forall_forall. intros line Hin.
    apply filter_In in Hin as [Hin Hnb]. split.
    - destruct (Str.is_blank line); [discriminate Hnb|reflexivity].
    - pose proof (split_newline_pieces (content chunks)) as Hall.
      rewrite Forall_forall in Hall. exact (Hall line Hin). }
  pose proof (processFile_output_proper H cfg fetch totalSize Hparse _ _ Hlines Hout)
    as Hproper.
  split; [exact Hproper|].
  intros chunks' Hc. apply lineIterator_blob_text; assumption.
Qed.

(** ** Records and their fields *)

Lemma lookup_set_field_same (k : string) (v : json) (fields : list (string * json)) :
  lookup k (set_field k v fields) = Some v.
Proof.
  induction fields as [|[k' v'] fields IH]; cbn [set_field lookup].
  - rewrite String.eqb_refl. reflexivity.
  - destruct (String.eqb k k') eqn:Hk; cbn [lookup].
    + rewrite String.eqb_refl. reflexivity.
    + rewrite Hk. exact IH.
Qed.

Lemma lookup_set_field_other (k k' : string) (v : json) (fields : list (string * json)) :
  String.eqb k' k = false ->
  lookup k' (set_field k v fields) = lookup k' fields.
Proof.
  intros Hne.
  induction fields as [|[k0 v0] fields IH]; cbn [set_field lookup].
  - rewrite Hne. reflexivity.
  - destruct (String.eqb k k0) eqn:Hk; cbn [lookup].
    + apply String.eqb_eq in Hk. subst k0. rewrite Hne. reflexivity.
    + destruct (String.eqb k' k0); [reflexivity|exact IH].
Qed.

Lemma lookup_remove_field_same (k : string) (fields : list (string * json)) :
  lookup k (remove_field k fields) = None.
Proof.
  induction fields as [|[k' v'] fields IH]; cbn [remove_field lookup]; [reflexivity|].
  destruct (String.eqb k k') eqn:Hk; cbn [lookup]; [exact IH|].
  rewrite Hk. exact IH.
Qed.

Lemma lookup_remove_field_other (k k' : string) (fields : list (string * json)) :
  String.eqb k' k = false ->
  lookup k' (remove_field k fields) = lookup k' fields.
Proof.
  intros Hne.
  induction fields as [|[k0 v0] fields IH]; cbn [remove_field lookup]; [reflexivity|].
  destruct (String.eqb k k0) eqn:Hk; cbn [lookup].
  - apply String.eqb_eq in Hk. subst k0. rewrite Hne. exact IH.
  - destruct (String.eqb k' k0); [reflexivity|exact IH].
Qed.

(** The fields of a record with its embedding assigned. *)
Lemma assign_embedding_lookup (fields : list (string * json)) (e : jsval) :
  exists fields',
    App.assign_embedding (JObj fields) e = JObj fields'
    /\ lookup "embedding" fields' = e
    /\ forall k, String.eqb k "embedding" = false -> lookup k fields' = lookup k fields.
Proof.
  destruct e as [v|]; cbn [App.assign_embedding]; eexists; split; try reflexivity; split.
  - apply lookup_set_field_same.
  - intros k Hk. apply lookup_set_field_other. exact Hk.
  - apply lookup_remove_field_same.
  - intros k Hk. apply lookup_remove_field_other. exact Hk.
Qed.

(** X6: after [record.embedding = e] the record counts as already embedded
    exactly when [e] is an array that is not empty, every other field reads as
    before, and the text extracted from the record is the same. *)
Theorem X6_assigned_embedding (fields : list (string * json)) (e : jsval) :
  App.has_embedding (App.assign_embedding (JObj fields) e) = nonempty_vector e
  /\ get_prop (App.assign_embedding (JObj fields) e) "embedding" = Ok e
  /\ (forall k, String.eqb k "embedding" = false ->
                get_prop (App.assign_embedding (JObj fields) e) k
                = get_prop (JObj fields) k)
  /\ App.getEmbeddingText (App.assign_embedding (JObj fields) e)
     = App.getEmbeddingText (JObj fields).
Proof.
  destruct (assign_embedding_lookup fields e) as (fields' & -> & He & Hother).
  split; [|split; [|split]].
  - cbn [App.has_embedding]. rewrite He.
    destruct e as [[| | | |[|x items]|]|]; reflexivity.
  - cbn [get_prop]. rewrite He. reflexivity.
  - intros k Hk. cbn [get_prop]. rewrite (Hother k Hk). reflexivity.
  - unfold App.getEmbeddingText, get_prop, bind.
    rewrite !Hother by reflexivity. reflexivity.
Qed.

(** X7: the browser's [getEmbeddingText] throws the error of reading a
    property of [null] on the record [null] and on no other value, where the
    script's returns the empty string; on every other value the two agree,
    in what they return and in what they throw; they throw on objects only,
    the TypeError of a conversion to a string; values that are not objects give
    the empty string, and a text that is not truthy is the empty string. *)
Theorem X7_extraction_edges (record : json) :
  (App.getEmbeddingText record = Throw (Builtin (NullProperty "dense_context"))
   <-> record = JNull)
  /\ Cli.getEmbeddingText JNull = Ok (JStr EmptyString)
  /\ (record <> JNull -> App.getEmbeddingText record = Cli.getEmbeddingText record)
  /\ ((forall fields, record <> JObj fields) ->
      Cli.getEmbeddingText record = Ok (JStr EmptyString))
  /\ (forall e, Cli.getEmbeddingText record = Throw e ->
                e = Builtin NotPrimitive /\ exists fields, record = JObj fields)
  /\ (forall text, Cli.getEmbeddingText record = Ok text ->
                   truthy text = false -> text = JStr EmptyString).
Proof.
  split; [|split; [reflexivity|split; [|split; [|split]]]].
  - split; [|intros ->; reflexivity].
    destruct record as [| | | | |fields]; try discriminate; [reflexivity|].
    rewrite app_text_of_object. intros He.
    destruct (text_raises fields _ He) as [Hne _]. discriminate Hne.
  - intros Hn. destruct record; try reflexivity. now destruct Hn.
  - intros Hn. destruct record as [| | | | |fields]; try reflexivity.
    exfalso. exact (Hn fields eq_refl).
  - intros e. destruct record as [| | | | |fields]; try discriminate.
    rewrite cli_text_of_object, app_text_of_object. intros He.
    destruct (text_raises fields e He) as [-> _]. split; [reflexivity|].
    exists fields. reflexivity.
  - intros text. destruct record as [| | | | |fields];
      try (intros [= <-] _; reflexivity).
    rewrite cli_text_of_object, app_text_of_object. apply text_falsy.
Qed.

(** ** A batch and a run, whatever the provider answers *)

(** X8: [processBatch] is all or nothing and sends at most one request: when
    it returns, exactly one request was sent and the output buffer grew by one
    line per record, in the order of the records; when it throws, at most one
    request was sent. *)
Theorem X8_processBatch_atomic (H : Host) (cfg : App.config)
        (fetch : nat -> App.request -> fetch_result)
        (texts records : list json) (outputBuffer : list string)
        (calls : list App.request) :
  match App.processBatch H cfg fetch texts records outputBuffer calls with
  | (Ok out', calls') =>
      calls' = calls ++ [request_for cfg (cleaned texts)]
      /\ texts = map JStr (strings_of texts)
      /\ exists embeddings,
          length embeddings = length records
          /\ out' = outputBuffer ++ App.push_embedded records embeddings
          /\ length out' = length outputBuffer + length records
  | (Throw _, calls') =>
      calls' = calls \/ calls' = calls ++ [request_for cfg (cleaned texts)]
  end.
Proof.
  unfold App.processBatch, App.fetchBatchEmbeddings.
  destruct (App.map_result App.clean_text texts) as [cleanTexts|x] eqn:Hm.
  2:{ left. reflexivity. }
  destruct (map_result_clean_inv _ _ Hm) as [Ht Hc]. subst cleanTexts.
  fold (cleaned texts). fold (request_for cfg (cleaned texts)).
  destruct (fetch _ _) as [m|status body].
  { right. reflexivity. }
  destruct (App.read_response H status body) as [embeddings|x].
  2:{ right. reflexivity. }
  destruct (length embeddings =? length records) eqn:Hl; cbn [negb].
  2:{ right. reflexivity. }
  apply Nat.eqb_eq in Hl.
  split; [reflexivity|]. split; [exact Ht|].
  exists embeddings. split; [exact Hl|]. split; [reflexivity|].
  rewrite length_app, push_embedded_length by exact Hl. reflexivity.
Qed.

Lemma apply_progress_updates (H : Host) (totalSize : nat) (us : list App.update) :
  Forall (is_progress_update H totalSize) us ->
  forall f,
    App.resultUrl (fold_left App.updateFileStatus us f) = App.resultUrl f
    /\ App.error (fold_left App.updateFileStatus us f) = App.error f
    /\ App.status (fold_left App.updateFileStatus us f) = App.status f
    /\ App.total (fold_left App.updateFileStatus us f) = App.total f.
Proof.
  induction 1 as [|u us Hu Hus IH]; intros f; [repeat split|].
  cbn [fold_left].
  destruct (IH (App.updateFileStatus f u)) as (Hr & He & Hs & Ht).
  rewrite Hr, He, Hs, Ht.
  destruct Hu as (bytes & count & ->). repeat split.
Qed.

(** X9: how a run leaves the file item.  A run that ends with an output sets
    the status to [done], the progress to 100, [resultUrl] to the blob of the
    output lines joined by newlines and [processed] and [total] to one count,
    and it keeps the [error] the item had (a message left by an earlier failed
    run stays); a run that fails sets the status to [error] and the message,
    and keeps the [resultUrl] and the [total] the item had. *)
Theorem X9_run_outcome (H : Host) (cfg : App.config)
        (fetch : nat -> App.request -> fetch_result) (totalSize : nat)
        (lines : list string) (fileItem : App.file_item) :
  let r := App.processFile H cfg fetch totalSize lines in
  let f := App.final_item fileItem r in
  match App.run_output r with
  | Some out =>
      App.status f = App.st_done
      /\ App.progress f = App.PInt 100
      /\ App.resultUrl f = Some (App.blob_text out)
      /\ App.processed f = App.total f
      /\ App.error f = App.error fileItem
  | None =>
      App.status f = App.st_error
      /\ (exists m, App.error f = Some m)
      /\ App.resultUrl f = App.resultUrl fileItem
      /\ App.total f = App.total fileItem
  end.
Proof.
  intros r f. subst f r.
  destruct (run_loop_updates H cfg fetch totalSize lines App.initial_state)
    as (us & Hus & Hall).
  unfold App.processFile, App.final_item.
  set (st := App.run_loop H cfg fetch totalSize lines App.initial_state) in *.
  cbn [App.updates App.initial_state app] in Hus.
  assert (Hfirst : forall g,
             let g' := fold_left App.updateFileStatus (App.updates st) g in
             App.resultUrl g' = App.resultUrl g /\ App.error g' = App.error g
             /\ App.total g' = App.total g).
  { intros g. cbn zeta. rewrite Hus. cbn [fold_left]. fold processing_update.
    destruct (apply_progress_updates H totalSize us Hall
                (App.updateFileStatus g processing_update)) as (Hr & He & _ & Ht).
    rewrite Hr, He, Ht. repeat split. }
  destruct (Hfirst fileItem) as (Hr & He & Ht).
  destruct (0 <? length (App.batch st)).
  - destruct (App.processBatch H cfg fetch (App.batch st) (App.batchRecords st)
                (App.processedLines st) (App.calls st)) as [[out'|e] calls'];
      cbn [App.finish App.fail App.run_output App.run_updates];
      rewrite fold_left_app; cbn [fold_left];
      unfold App.updateFileStatus at 1;
      cbn [App.u_status App.u_progress App.u_processed App.u_total App.u_resultUrl
           App.u_error App.or_else App.status App.progress App.resultUrl App.processed
           App.total App.error].
    + repeat split. exact He.
    + repeat split; [eexists; reflexivity|exact Hr|exact Ht].
  - cbn [App.finish App.run_output App.run_updates].
    rewrite fold_left_app. cbn [fold_left].
    unfold App.updateFileStatus at 1.
    cbn [App.u_status App.u_progress App.u_processed App.u_total App.u_resultUrl
         App.u_error App.or_else App.status App.progress App.resultUrl App.processed
         App.total App.error].
    repeat split. exact He.
Qed.

(** A run that ends with an output leaves the status [done]. *)
Lemma processFile_status (H : Host) (cfg : App.config)
      (fetch : nat -> App.request -> fetch_result) (totalSize : nat)
      (lines : list string) (fileItem : App.file_item) :
  match App.run_output (App.processFile H cfg fetch totalSize lines) with
  | Some _ =>
      App.status (App.final_item fileItem (App.processFile H cfg fetch totalSize lines))
      = App.st_done
  | None =>
      App.status (App.final_item fileItem (App.processFile H cfg fetch totalSize lines))
      = App.st_error
  end.
Proof.
  unfold App.processFile, App.final_item.
  set (st := App.run_loop H cfg fetch totalSize lines App.initial_state).
  destruct (0 <? length (App.batch st)).
  - destruct (App.processBatch H cfg fetch (App.batch st) (App.batchRecords st)
                (App.processedLines st) (App.calls st)) as [[out'|e] calls'];
      cbn [App.finish App.fail App.run_output App.run_updates];
      rewrite fold_left_app; reflexivity.
  - cbn [App.finish App.run_output App.run_updates].
    rewrite fold_left_app. reflexivity.
Qed.

Section AppCounts.

Variable H : Host.
Variable cfg : App.config.
Variable fetch : nat -> App.request -> fetch_result.
Variable totalSize : nat.
Hypothesis Hanswers : answers_all H fetch.

Lemma counted_lines_cons (line : string) (lines : list string) :
  counted_lines H (line :: lines)
  = match classify H line with
    | ParseError => []
    | _ => [line]
    end ++ counted_lines H lines.
Proof.
  unfold counted_lines. cbn [filter]. destruct (classify H line); reflexivity.
Qed.

(** Every line that parses is counted once, when it is output at once or
    when its batch is sent. *)
Lemma run_loop_counts (lines : list string) :
  forall st : App.loop_state,
    open_batch st ->
    texts_are_strings H lines ->
    let st' := App.run_loop H cfg fetch totalSize lines st in
    open_batch st'
    /\ App.processedCount st' + length (App.batch st')
       = App.processedCount st + length (App.batch st) + length (counted_lines H lines).
Proof.
  induction lines as [|line lines IH]; intros st Hopen Hstr.
  - cbn. split; [exact Hopen|lia].
  - unfold texts_are_strings in Hstr. rewrite needs_texts_cons in Hstr.
    rewrite forallb_app in Hstr. apply andb_true_iff in Hstr as [Hhere Hrest].
    cbn zeta. unfold App.run_loop. cbn [fold_left].
    fold (App.run_loop H cfg fetch totalSize lines
            (App.loop_step H cfg fetch totalSize st line)).
    rewrite counted_lines_cons, length_app.
    destruct (classify H line) as [|out|record text] eqn:Hc.
    + rewrite (step_parse_error H cfg fetch totalSize line st Hc).
      destruct (IH (App.push_line line (App.add_bytes line st)) Hopen Hrest) as [Ho Hn].
      split; [exact Ho|]. rewrite Hn. cbn. lia.
    + destruct Hopen as (Hs & Hlt & Hlen).
      rewrite (step_pass_through H cfg fetch totalSize line out st Hc Hlt).
      match goal with
      | |- context [App.run_loop H cfg fetch totalSize lines ?s] =>
          destruct (IH s (conj Hs (conj Hlt Hlen)) Hrest) as [Ho Hn]
      end.
      split; [exact Ho|]. rewrite Hn. cbn. lia.
    + cbn in Hhere. destruct text as [| | |s| |]; try discriminate Hhere.
      destruct Hopen as (Hs & Hlt & Hlen).
      destruct (Nat.ltb (S (length (App.batch st))) App.BATCH_SIZE) eqn:Hfull.
      * apply Nat.ltb_lt in Hfull.
        rewrite (step_needs_open H cfg fetch totalSize line record (JStr s) st Hc Hfull).
        match goal with
        | |- context [App.run_loop H cfg fetch totalSize lines ?s] =>
            destruct (IH s) as [Ho Hn]; [|exact Hrest|]
        end.
        { repeat split; cbn [App.batch App.batchRecords].
          - rewrite strings_of_app, map_app. simpl. rewrite <- Hs. reflexivity.
          - rewrite length_app. simpl. lia.
          - rewrite !length_app. simpl. lia. }
        split; [exact Ho|]. rewrite Hn. cbn [App.processedCount App.batch].
        rewrite length_app. cbn. lia.
      * apply Nat.ltb_ge in Hfull.
        destruct (step_needs_full H cfg fetch totalSize Hanswers line record s st Hc
                    (conj Hs (conj Hlt Hlen))) as (embs & _ & Hstep); [lia|].
        rewrite Hstep.
        match goal with
        | |- context [App.run_loop H cfg fetch totalSize lines ?s] =>
            destruct (IH s) as [Ho Hn]; [|exact Hrest|]
        end.
        { repeat split; simpl; unfold App.BATCH_SIZE; lia. }
        split; [exact Ho|]. rewrite Hn. cbn [App.processedCount App.batch length]. lia.
Qed.

(** The count a successful run reports is the number of lines that parse. *)
Lemma processFile_count (lines : list string) (fileItem : App.file_item) :
  texts_are_strings H lines ->
  let r := App.processFile H cfg fetch totalSize lines in
  App.run_output r <> None
  /\ App.processed (App.final_item fileItem r) = length (counted_lines H lines)
  /\ App.total (App.final_item fileItem r) = length (counted_lines H lines).
Proof.
  intros Hstr.
  destruct (run_loop_counts lines App.initial_state (open_batch_initial) Hstr)
    as [Hopen Hn].
  cbn zeta. unfold App.processFile, App.final_item.
  set (st := App.run_loop H cfg fetch totalSize lines App.initial_state) in *.
  cbn [App.processedCount App.batch App.initial_state length] in Hn.
  destruct Hopen as (Hs & Hlt & Hlen).
  destruct (0 <? length (App.batch st)) eqn:Hne.
  - destruct (processBatch_answers H cfg fetch (strings_of (App.batch st))
                (App.batchRecords st) (App.processedLines st) (App.calls st) Hanswers)
      as (embs & _ & Hp).
    { rewrite Hs, length_map in Hlt. lia. }
    { rewrite Hlen. rewrite Hs at 1. now rewrite length_map. }
    rewrite <- Hs in Hp. rewrite Hp.
    cbn [App.finish App.run_output App.run_updates].
    rewrite fold_left_app. cbn. split; [discriminate|]. split; exact Hn.
  - apply Nat.ltb_ge in Hne.
    cbn [App.finish App.run_output App.run_updates].
    rewrite fold_left_app. cbn. split; [discriminate|]. split; lia.
Qed.

End AppCounts.

Lemma counted_lines_spec (H : Host) (lines : list string) (line : string) :
  In line (counted_lines H lines)
  <-> In line lines
      /\ exists record text,
           JSON_parse H line = Some record /\ App.getEmbeddingText record = Ok text.
Proof.
  unfold counted_lines. rewrite filter_In. unfold classify.
  split; intros [Hin Hc]; (split; [exact Hin|]).
  - destruct (JSON_parse H line) as [record|]; [|discriminate Hc].
    destruct (App.getEmbeddingText record) as [text|e] eqn:Htext; [|discriminate Hc].
    exists record, text. split; [reflexivity|exact Htext].
  - destruct Hc as (record & text & -> & ->).
    destruct (App.has_embedding record); [reflexivity|].
    destruct (negb (truthy text)); reflexivity.
Qed.

(** X10: when every dispatch is answered, the run ends [done] with one output
    line for each input line, and the [processed] and [total] it reports are
    the number of lines that parse and whose text extraction returns: a line
    the inner [catch] pushes raw (one that does not parse, the line [null], a
    record whose [question] does not convert to a string) is in the output
    but not in the count. *)
Theorem X10_processed_count (H : Host) (cfg : App.config)
        (fetch : nat -> App.request -> fetch_result) (totalSize : nat)
        (lines : list string) (fileItem : App.file_item) :
  answers_all H fetch ->
  texts_are_strings H lines ->
  let r := App.processFile H cfg fetch totalSize lines in
  App.status (App.final_item fileItem r) = App.st_done
  /\ App.processed (App.final_item fileItem r) = length (counted_lines H lines)
  /\ App.total (App.final_item fileItem r) = length (counted_lines H lines)
  /\ length (counted_lines H lines) <= length lines
  /\ (forall line,
         In line (counted_lines H lines)
         <-> In line lines
             /\ exists record text,
                  JSON_parse H line = Some record
                  /\ App.getEmbeddingText record = Ok text)
  /\ (exists out, App.run_output r = Some out /\ length out = length lines).
Proof.
  intros Hanswers Hstr r.
  destruct (processFile_count H cfg fetch totalSize Hanswers lines fileItem Hstr)
    as (Hout & Hp & Ht).
  fold r in Hout, Hp, Ht.
  split; [|split; [exact Hp|split; [exact Ht|split; [|split]]]].
  - pose proof (processFile_status H cfg fetch totalSize lines fileItem) as Hs.
    fold r in Hs. destruct (App.run_output r); [exact Hs|now destruct Hout].
  - unfold counted_lines. apply filter_length_le.
  - apply counted_lines_spec.
  - destruct (processFile_answered H cfg fetch totalSize Hanswers lines Hstr)
      as (_ & out & embeddings & Hrun & Hl & Hi & _).
    exists out. split; [exact Hrun|].
    rewrite (Interleave_length _ _ _ Hi).
    rewrite push_embedded_length by exact Hl.
    apply classified_length.
Qed.

(** ** The file list *)

Section UiFiles.

Variable H : Host.
Variable cfg : App.config.

Lemma fold_updateFileStatus (i : string) (us : list App.update) :
  forall files,
    fold_left (fun fs u => Ui.updateFileStatus i u fs) us files
    = map (fun f => if String.eqb (Ui.id f) i
                    then {| Ui.file := Ui.file f; Ui.id := Ui.id f;
                            Ui.item := fold_left App.updateFileStatus us (Ui.item f) |}
                    else f) files.
Proof.
  induction us as [|u us IH]; intros files; cbn [fold_left].
  - symmetry. erewrite map_ext; [apply map_id|].
    intros [file id item]. cbn. destruct (String.eqb id i); reflexivity.
  - rewrite IH. unfold Ui.updateFileStatus. rewrite map_map.
    apply map_ext. intros f.
    destruct (String.eqb (Ui.id f) i) eqn:Hf; cbn [Ui.id Ui.file Ui.item].
    + rewrite Hf. reflexivity.
    + rewrite Hf. reflexivity.
Qed.

(** A run touches the entries with the id of its file item and no other. *)
Lemma ui_processFile_spec (fetch : nat -> App.request -> fetch_result)
      (fileItem : Ui.entry) (files : list Ui.entry) :
  Ui.processFile H cfg fetch fileItem files
  = map (fun f =>
           if String.eqb (Ui.id f) (Ui.id fileItem)
           then {| Ui.file := Ui.file f; Ui.id := Ui.id f;
                   Ui.item :=
                     App.final_item (Ui.item f)
                       (App.processFile H cfg fetch (Ui.size (Ui.file fileItem))
                          (Ui.lineIterator (Ui.chunks (Ui.file fileItem)))) |}
           else f) files.
Proof.
  unfold Ui.processFile. rewrite fold_updateFileStatus. reflexivity.
Qed.

Lemma final_item_settled (fetch : nat -> App.request -> fetch_result)
      (totalSize : nat) (lines : list string) (x : App.file_item) :
  let f := App.final_item x (App.processFile H cfg fetch totalSize lines) in
  App.status f = App.st_done \/ App.status f = App.st_error.
Proof.
  pose proof (processFile_status H cfg fetch totalSize lines x) as Hs.
  cbn zeta. destruct (App.run_output _); [left|right]; exact Hs.
Qed.

Lemma Forall2_map_left {A B C : Type} (P : B -> C -> Prop) (g : A -> B)
      (l : list A) (l' : list C) :
  Forall2 P (map g l) l' -> Forall2 (fun x y => P (g x) y) l l'.
Proof.
  revert l'. induction l as [|x l IH]; intros l' Hf; inversion Hf; subst; constructor.
  - assumption.
  - apply IH. assumption.
Qed.

Lemma process_all_spec (fetch_for : nat -> nat -> App.request -> fetch_result)
      (pendingFiles : list Ui.entry) :
  forall k files,
    Forall2 (processed_as (map Ui.id pendingFiles)) files
            (Ui.process_all H cfg fetch_for k pendingFiles files).
Proof.
  induction pendingFiles as [|p rest IH]; intros k files; cbn [Ui.process_all map].
  - induction files as [|f files IHf]; constructor; [|exact IHf].
    repeat split; try tauto. intros [].
  - specialize (IH (S k) (Ui.processFile H cfg (fetch_for k) p files)).
    rewrite ui_processFile_spec in IH |- *. apply Forall2_map_left in IH.
    eapply Forall2_impl; [|exact IH].
    intros f f' (Hid & Hfile & Hset & Hin & Hout). cbn beta in *.
    destruct (String.eqb (Ui.id f) (Ui.id p)) eqn:Hp;
      cbn [Ui.id Ui.file Ui.item] in *.
    + apply String.eqb_eq in Hp.
      assert (Hs1 : settled {| Ui.file := Ui.file f; Ui.id := Ui.id f;
                               Ui.item :=
                                 App.final_item (Ui.item f)
                                   (App.processFile H cfg (fetch_for k)
                                      (Ui.size (Ui.file p))
                                      (Ui.lineIterator (Ui.chunks (Ui.file p)))) |})
        by apply final_item_settled.
      repeat split; try assumption.
      * intros _. exact (Hset Hs1).
      * intros _. exact (Hset Hs1).
      * intros Hn. exfalso. apply Hn. left. symmetry. exact Hp.
    + apply String.eqb_neq in Hp.
      repeat split; try assumption.
      * intros [Heq|Hr]; [exfalso; apply Hp; symmetry; exact Heq|exact (Hin Hr)].
      * intros Hn. apply Hout. intros Hr. apply Hn. right. exact Hr.
Qed.

End UiFiles.

Lemma processed_as_settled (ids : list string) (fs fs' : list Ui.entry) :
  Forall2 (processed_as ids) fs fs' ->
  (forall f, In f fs -> settled f \/ In (Ui.id f) ids) ->
  Forall settled fs'.
Proof.
  induction 1 as [|f f' fs fs' (Hid & Hfile & Hset & Hi & Ho) Hrest IH];
    intros Hin; constructor.
  - destruct (Hin f (or_introl eq_refl)) as [Hs|Hm]; [exact (Hset Hs)|exact (Hi Hm)].
  - apply IH. intros g Hg. apply Hin. right. exact Hg.
Qed.

(** X11: [startProcessing] keeps the entries, their files and their ids in
    place; every entry that was pending or failed ends [done] or [error], an
    entry that was [done] stays settled, and an entry whose id is not the id
    of a processed file is left exactly as it was; so when no entry is
    [processing] at the start, none is pending or processing at the end. *)
Theorem X11_startProcessing_settles (H : Host) (cfg : App.config)
        (fetch_for : nat -> nat -> App.request -> fetch_result)
        (files : list Ui.entry) :
  Forall2 (processed_as (map Ui.id (filter Ui.is_pending files))) files
          (Ui.startProcessing H cfg fetch_for files)
  /\ ((forall f, In f files -> App.status (Ui.item f) <> App.st_processing) ->
      Forall settled (Ui.startProcessing H cfg fetch_for files)).
Proof.
  pose proof (process_all_spec H cfg fetch_for (filter Ui.is_pending files) 0 files)
    as Hall.
  fold (Ui.startProcessing H cfg fetch_for files) in Hall.
  split; [exact Hall|].
  intros Hnp.
  assert (Hin : forall f, In f files ->
                          settled f \/ In (Ui.id f) (map Ui.id (filter Ui.is_pending files))).
  { intros f Hf. specialize (Hnp f Hf).
    destruct (App.status (Ui.item f)) eqn:Hs.
    - right. apply in_map, filter_In. split; [exact Hf|].
      unfold Ui.is_pending. rewrite Hs. reflexivity.
    - now destruct Hnp.
    - left. left. exact Hs.
    - left. right. exact Hs. }
  exact (processed_as_settled _ _ _ Hall Hin).
Qed.

(** ** The script: counters and provider calls *)

Section CliCounters.

Variable H : Host.
Variable EMBEDDING_PROVIDER API_URL MODEL_NAME TRANSFORMER_MODEL : string.
Variable fetch : nat -> Cli.request -> fetch_result.
Variable R : Local.runtime.

Abbreviation cli_fetchEmbedding :=
  (Cli.fetchEmbedding H EMBEDDING_PROVIDER API_URL MODEL_NAME TRANSFORMER_MODEL fetch R).
Abbreviation cli_loop_step :=
  (Cli.loop_step H EMBEDDING_PROVIDER API_URL MODEL_NAME TRANSFORMER_MODEL fetch R).
Abbreviation cli_main :=
  (Cli.main H EMBEDDING_PROVIDER API_URL MODEL_NAME TRANSFORMER_MODEL fetch R).

(** The log of a failed record is silent when the [id] converts. *)
Lemma log_failed_prints (line : string) (record text : json) (st : Cli.state) :
  id_prints H line = true ->
  JSON_parse H line = Some record ->
  Cli.getEmbeddingText record = Ok text ->
  truthy text = true ->
  Cli.log_failed record st = st.
Proof.
  unfold id_prints, Cli.log_failed. intros Hid Hp Htext Htruthy. rewrite Hp in Hid.
  destruct record as [| | | | |fields];
    try (cbn in Htext; injection Htext as <-; discriminate Htruthy).
  cbn [get_prop bind].
  destruct (lookup "id" fields) as [id|]; cbn [toString_val]; [|reflexivity].
  pose proof (toString_printable id) as Hprint. rewrite Hid in Hprint.
  destruct Hprint as [s ->]. reflexivity.
Qed.

Lemma cli_step_counters (n : nat) (line : string) (st : Cli.state) :
  id_prints H line = true ->
  counters_add_up n st ->
  counters_add_up (n + (if Str.is_blank line then 0 else 1)) (cli_loop_step st line).
Proof.
  intros Hid [Hsum Hw]. unfold Cli.loop_step, counters_add_up.
  destruct (Str.is_blank line); [split; lia|].
  destruct (JSON_parse H line) as [record|] eqn:Hp; [|cbn; split; lia].
  destruct (Cli.getEmbeddingText record) as [text|e] eqn:Htext; [|cbn; split; lia].
  destruct (truthy text) eqn:Htruthy; cbn [negb].
  2:{ cbn. rewrite length_app. cbn. split; lia. }
  destruct (App.has_embedding record).
  { cbn. rewrite length_app. cbn. split; lia. }
  pose proof (fetchEmbedding_counters H EMBEDDING_PROVIDER API_URL MODEL_NAME
                TRANSFORMER_MODEL fetch R text st) as Hf.
  destruct (cli_fetchEmbedding text st) as [[embedding|] st1];
    cbn in Hf; destruct Hf as (Hw1 & He1 & Hp1 & Hs1).
  - cbn. rewrite length_app, Hw1, He1, Hp1, Hs1. cbn. split; lia.
  - rewrite (log_failed_prints line record text _ Hid Hp Htext Htruthy).
    cbn. rewrite Hw1, He1, Hp1, Hs1. split; lia.
Qed.

Lemma cli_loop_counters (lines : list string) :
  forall n st,
    forallb (id_prints H) lines = true ->
    counters_add_up n st ->
    counters_add_up (n + length (non_blank lines)) (fold_left cli_loop_step lines st).
Proof.
  induction lines as [|line lines IH]; intros n st Hids Hst; cbn [fold_left].
  - replace (n + length (non_blank [])) with n by (cbn; lia). exact Hst.
  - cbn [forallb] in Hids. apply andb_true_iff in Hids as [Hid Hids].
    pose proof (IH _ _ Hids (cli_step_counters n line st Hid Hst)) as Hn.
    unfold non_blank in *. cbn [filter].
    destruct (Str.is_blank line); cbn [negb length] in *.
    + replace (n + 0) with n in Hn by lia. exact Hn.
    + replace (n + S (length (filter (fun l => negb (Str.is_blank l)) lines)))
        with (n + 1 + length (filter (fun l => negb (Str.is_blank l)) lines)) by lia.
      exact Hn.
Qed.

(** A provider call goes to one provider and is logged once. *)
Lemma fetchEmbedding_logs (text : json) (st : Cli.state) :
  let st' := snd (cli_fetchEmbedding text st) in
  length (Cli.calls st') + length (Cli.extractions st')
  <= S (length (Cli.calls st) + length (Cli.extractions st))
  /\ (if String.eqb EMBEDDING_PROVIDER "transformers"
      then Cli.calls st' = Cli.calls st
      else Cli.extractions st' = Cli.extractions st
           /\ Cli.pipelineRequested st' = Cli.pipelineRequested st).
Proof.
  unfold Cli.fetchEmbedding, Cli.fetchEmbeddingWithTransformers, Cli.fetchEmbeddingViaApi.
  destruct (String.eqb EMBEDDING_PROVIDER "transformers").
  - destruct (Local.pipeline R TRANSFORMER_MODEL); [cbn; split; [lia|reflexivity]|].
    destruct text; cbn; try (split; [lia|reflexivity]).
    destruct (Local.extractor R _ _ _); cbn; rewrite length_app; cbn;
      (split; [lia|reflexivity]).
  - destruct text; cbn; try (split; [lia|split; reflexivity]).
    destruct (fetch _ _); cbn; try destruct (Cli.read_response H status body); cbn;
      rewrite length_app; cbn; (split; [lia|split; reflexivity]).
Qed.

Lemma cli_step_logs (n : nat) (line : string) (st : Cli.state) :
  logs_within EMBEDDING_PROVIDER n st ->
  logs_within EMBEDDING_PROVIDER (n + (if Str.is_blank line then 0 else 1)) (cli_loop_step st line).
Proof.
  intros [Hn Hp]. unfold Cli.loop_step, logs_within.
  destruct (Str.is_blank line); [split; [lia|exact Hp]|].
  destruct (JSON_parse H line) as [record|]; [|cbn; split; [lia|exact Hp]].
  destruct (Cli.getEmbeddingText record) as [text|e]; [|cbn; split; [lia|exact Hp]].
  destruct (negb (truthy text)); [cbn; split; [lia|exact Hp]|].
  destruct (App.has_embedding record); [cbn; split; [lia|exact Hp]|].
  pose proof (fetchEmbedding_logs text st) as Hf.
  destruct (cli_fetchEmbedding text st) as [[embedding|] st1];
    cbn in Hf; destruct Hf as (Hl & Hq);
    [|destruct (log_failed_counters record (Cli.count_error st1))
        as (_ & _ & _ & Hc2 & Hx2 & Hr2 & _);
      cbn in Hc2, Hx2, Hr2; rewrite Hc2, Hx2, Hr2];
    cbn;
    (split; [lia|]);
    destruct (String.eqb EMBEDDING_PROVIDER "transformers");
    try (rewrite Hq; exact Hp);
    destruct Hq as [Hx Hr]; destruct Hp as [Hx0 Hr0]; rewrite Hx, Hr; split; assumption.
Qed.

Lemma cli_loop_logs (lines : list string) :
  forall n st,
    logs_within EMBEDDING_PROVIDER n st ->
    logs_within EMBEDDING_PROVIDER (n + length (non_blank lines)) (fold_left cli_loop_step lines st).
Proof.
  induction lines as [|line lines IH]; intros n st Hst; cbn [fold_left].
  - replace (n + length (non_blank [])) with n by (cbn; lia). exact Hst.
  - pose proof (IH _ _ (cli_step_logs n line st Hst)) as Hn.
    unfold non_blank in *. cbn [filter].
    destruct (Str.is_blank line); cbn [negb length] in *.
    + replace (n + 0) with n in Hn by lia. exact Hn.
    + replace (n + S (length (filter (fun l => negb (Str.is_blank l)) lines)))
        with (n + 1 + length (filter (fun l => negb (Str.is_blank l)) lines)) by lia.
      exact Hn.
Qed.

End CliCounters.

(** X12: at the end of the script every non-blank line is a success, skipped
    or failed; the lines written are the successes and the skipped ones; a
    failed line is counted in [errorCount] once, or twice when the log of the
    failed record throws, which it cannot when the [id] of every record
    converts to a string: then the three counters add up to the number of
    non-blank lines. *)
Theorem X12_cli_counters (H : Host)
        (EMBEDDING_PROVIDER API_URL MODEL_NAME TRANSFORMER_MODEL : string)
        (fetch : nat -> Cli.request -> fetch_result) (R : Local.runtime)
        (lines : list string) :
  let st := Cli.main H EMBEDDING_PROVIDER API_URL MODEL_NAME TRANSFORMER_MODEL fetch R
                     lines in
  (exists failed,
      Cli.processedCount st + Cli.skippedCount st + failed = length (non_blank lines)
      /\ failed <= Cli.errorCount st <= 2 * failed)
  /\ length (Cli.written st) = Cli.processedCount st + Cli.skippedCount st
  /\ (forallb (id_prints H) lines = true ->
      Cli.processedCount st + Cli.skippedCount st + Cli.errorCount st
      = length (non_blank lines)).
Proof.
  intros st. subst st. unfold Cli.main.
  destruct (cli_loop_range H EMBEDDING_PROVIDER API_URL MODEL_NAME TRANSFORMER_MODEL
              fetch R lines 0 0 Cli.initial_state) as (failed & Hsum & Hw & He).
  { repeat split; cbn; lia. }
  cbn [Nat.add] in Hsum.
  split; [exists failed; split; [exact Hsum|exact He]|]. split; [exact Hw|].
  intros Hids.
  assert (Hinit : counters_add_up 0 Cli.initial_state) by (split; reflexivity).
  exact (proj1 (cli_loop_counters H EMBEDDING_PROVIDER API_URL MODEL_NAME
                  TRANSFORMER_MODEL fetch R lines 0 Cli.initial_state Hids Hinit)).
Qed.

(** X13: the script asks its provider at most once per non-blank line, and
    asks one provider only: with [EMBEDDING_PROVIDER] set to [transformers] no
    HTTP request is sent; with any other value the local pipeline is never
    requested and the extractor never called. *)
Theorem X13_cli_provider_calls (H : Host)
        (EMBEDDING_PROVIDER API_URL MODEL_NAME TRANSFORMER_MODEL : string)
        (fetch : nat -> Cli.request -> fetch_result) (R : Local.runtime)
        (lines : list string) :
  let st := Cli.main H EMBEDDING_PROVIDER API_URL MODEL_NAME TRANSFORMER_MODEL fetch R
                     lines in
  length (Cli.calls st) + length (Cli.extractions st) <= length (non_blank lines)
  /\ (if String.eqb EMBEDDING_PROVIDER "transformers"
      then Cli.calls st = []
      else Cli.extractions st = [] /\ Cli.pipelineRequested st = false).
Proof.
  intros st. subst st. unfold Cli.main.
  assert (Hinit : logs_within EMBEDDING_PROVIDER 0 Cli.initial_state).
  { split; [cbn; lia|].
    destruct (String.eqb EMBEDDING_PROVIDER "transformers"); [|split]; reflexivity. }
  exact (cli_loop_logs H EMBEDDING_PROVIDER API_URL MODEL_NAME TRANSFORMER_MODEL
           fetch R lines 0 Cli.initial_state Hinit).
Qed.

(** ** The local embedder: results and model loading *)

Section LocalResults.

Variable R : Local.runtime.
Variable modelId : string.

Lemma embed_each_ok (texts : list json) :
  forall st acc embeddings st',
    Local.embed_each R modelId texts st acc = (Ok embeddings, st') ->
    exists outputs,
      embeddings = acc ++ outputs
      /\ length outputs = length texts
      /\ texts = map JStr (strings_of texts)
      /\ map Ok outputs
         = extractor_outputs R modelId (length (Local.extractions st)) (strings_of texts)
      /\ Local.extractions st'
         = Local.extractions st
           ++ map (fun s => (modelId, Local.clean s)) (strings_of texts)
      /\ Local.loads st' = Local.loads st
      /\ Local.cachedPipelines st' = Local.cachedPipelines st.
Proof.
  induction texts as [|t texts IH]; intros st acc embeddings st' He;
    cbn [Local.embed_each] in He.
  - inversion He; subst. exists []. rewrite !app_nil_r. repeat split.
  - destruct t; cbn [Local.clean_text] in He; try discriminate He.
    destruct (Local.extractor R modelId (length (Local.extractions st)) (Local.clean s))
      as [data|e] eqn:Hx; [|discriminate He].
    apply IH in He as (outputs & -> & Hl & Ht & Ho & Hext & Hloads & Hcache).
    cbn [Local.extractions Local.loads Local.cachedPipelines] in *.
    exists (data :: outputs).
    rewrite <- app_assoc. cbn [app strings_of flat_map map length extractor_outputs].
    fold (strings_of texts).
    rewrite length_app in Ho. cbn [length] in Ho.
    replace (length (Local.extractions st) + 1) with (S (length (Local.extractions st)))
      in Ho by lia.
    rewrite Hx, <- Ho, Hext, <- app_assoc, <- Ht, Hl.
    repeat split; assumption.
Qed.

End LocalResults.

(** X14: when [embedTextsLocally] returns for an array of texts, every text
    is a string, the extractor was called once per text, in order, on the
    cleaned text, and the result holds what it returned, one embedding per
    text in the order of the texts. *)
Theorem X14_local_results (R : Local.runtime) (modelId : string)
        (items : list json) (st st' : Local.state) (embeddings : list (list string)) :
  Local.embedTextsLocally R (Some (JArr items)) modelId st = (Ok embeddings, st') ->
  length embeddings = length items
  /\ items = map JStr (strings_of items)
  /\ map Ok embeddings
     = extractor_outputs R modelId (length (Local.extractions st)) (strings_of items)
  /\ Local.extractions st'
     = Local.extractions st ++ map (fun s => (modelId, Local.clean s)) (strings_of items).
Proof.
  unfold Local.embedTextsLocally.
  destruct items as [|text rest].
  - intros He. inversion He; subst. cbn. rewrite app_nil_r. repeat split.
  - unfold Local.loadPipeline.
    destruct (Local.pipeline R modelId); [discriminate|].
    intros He.
    apply embed_each_ok in He as (outputs & -> & Hl & Ht & Ho & Hext & _ & _).
    cbn [app] in *.
    destruct (Local.has modelId st); cbn [Local.extractions] in *;
      repeat split; assumption.
Qed.

Lemma embed_each_cache (R : Local.runtime) (modelId : string) (texts : list json) :
  forall st acc,
    let st' := snd (Local.embed_each R modelId texts st acc) in
    Local.loads st' = Local.loads st
    /\ Local.cachedPipelines st' = Local.cachedPipelines st.
Proof.
  induction texts as [|t texts IH]; intros st acc; cbn [Local.embed_each].
  - split; reflexivity.
  - destruct (Local.clean_text t) as [cleanText|e]; [|split; reflexivity].
    destruct (Local.extractor R modelId (length (Local.extractions st)) cleanText)
      as [data|e]; [|split; reflexivity].
    match goal with
    | |- context [Local.embed_each R modelId texts ?s ?a] =>
        destruct (IH s a) as [Hl Hc]
    end.
    cbn zeta. rewrite Hl, Hc. split; reflexivity.
Qed.

Lemma has_spec (modelId : string) (st : Local.state) :
  Local.has modelId st = true <-> In modelId (Local.cachedPipelines st).
Proof.
  unfold Local.has. rewrite existsb_exists. split.
  - intros (x & Hin & Heq). apply String.eqb_eq in Heq. subst x. exact Hin.
  - intros Hin. exists modelId. split; [exact Hin|apply String.eqb_refl].
Qed.

(** X15: the pipeline of a model is requested at most once, whatever the
    calls: a call for a model in the cache requests nothing, a call for a new
    model with texts requests it once and caches it, also when the load fails;
    and a model whose load failed makes every later call with texts throw the
    same error without any extractor call. *)
Theorem X15_local_model_cache (R : Local.runtime) (texts : jsval) (modelId : string)
        (st : Local.state) :
  cache_consistent st ->
  let st' := snd (Local.embedTextsLocally R texts modelId st) in
  cache_consistent st'
  /\ (Local.has modelId st = true -> Local.loads st' = Local.loads st)
  /\ (nonempty_array texts = true ->
      Local.has modelId st' = true
      /\ (Local.has modelId st = false -> Local.loads st' = Local.loads st ++ [modelId]))
  /\ (forall e, Local.pipeline R modelId = Some e ->
                nonempty_array texts = true ->
                fst (Local.embedTextsLocally R texts modelId st) = Throw e
                /\ Local.extractions st' = Local.extractions st).
Proof.
  intros [Hc Hnd].
  unfold Local.embedTextsLocally.
  destruct texts as [[| | | |[|text rest]|]|];
    try (cbn; split; [split; assumption|];
         split; [reflexivity|]; split; [discriminate|]; intros; discriminate).
  unfold Local.loadPipeline.
  destruct (Local.has modelId st) eqn:Hhas.
  - destruct (Local.pipeline R modelId) as [e|] eqn:Hp.
    + cbn [fst snd]. rewrite Hhas.
      split; [split; assumption|].
      split; [reflexivity|]. split; [intros _; split; [reflexivity|discriminate]|].
      intros e' He' _. inversion He'; subst. split; reflexivity.
    + destruct (embed_each_cache R modelId (text :: rest) st []) as [Hl Hcp].
      cbn zeta. unfold cache_consistent, Local.has. rewrite Hl, Hcp.
      split; [split; assumption|].
      split; [reflexivity|]. split; [intros _; split; [exact Hhas|discriminate]|].
      intros e' He'. discriminate He'.
  - assert (Hnew : ~ In modelId (Local.loads st)).
    { rewrite <- Hc. intros Hin. apply has_spec in Hin. congruence. }
    assert (Hnd' : NoDup (Local.loads st ++ [modelId])).
    { apply NoDup_app; [exact Hnd|constructor; [intros []|constructor]|].
      intros x Hx [<-|[]]. exact (Hnew Hx). }
    assert (Hhas' : existsb (String.eqb modelId)
                            (Local.cachedPipelines st ++ [modelId]) = true).
    { apply existsb_exists. exists modelId.
      split; [apply in_or_app; right; left; reflexivity|apply String.eqb_refl]. }
    destruct (Local.pipeline R modelId) as [e|] eqn:Hp.
    + cbn [fst snd]. unfold cache_consistent, Local.has.
      cbn [Local.loads Local.cachedPipelines Local.extractions].
      split; [split; [rewrite Hc; reflexivity|exact Hnd']|].
      split; [discriminate|]. split; [intros _; split; [exact Hhas'|reflexivity]|].
      intros e' He' _. inversion He'; subst. split; reflexivity.
    + match goal with
      | |- context [Local.embed_each R modelId (text :: rest) ?s []] =>
          destruct (embed_each_cache R modelId (text :: rest) s []) as [Hl Hcp]
      end.
      cbn zeta. unfold cache_consistent, Local.has.
      rewrite Hl, Hcp. cbn [Local.loads Local.cachedPipelines].
      split; [split; [rewrite Hc; reflexivity|exact Hnd']|].
      split; [discriminate|]. split; [intros _; split; [exact Hhas'|reflexivity]|].
      intros e' He'. discriminate He'.
Qed.

(** ** File names *)

Lemma replace_first_absent (pat rep s : string) :
  occurs pat s = false -> Ui.replace_first pat rep s = s.
Proof.
  induction s as [|c s IH]; cbn [occurs Ui.replace_first];
    destruct (Ui.strip_prefix pat _); try discriminate; intros Ho; [reflexivity|].
  rewrite (IH Ho). reflexivity.
Qed.

Lemma strip_prefix_app (pat rest : string) :
  Ui.strip_prefix pat (pat +++ rest) = Some rest.
Proof.
  induction pat as [|p pat IH]; cbn; [reflexivity|].
  rewrite Ascii.eqb_refl. exact IH.
Qed.

Lemma replace_first_eq (pat rep s : string) :
  Ui.replace_first pat rep s
  = match Ui.strip_prefix pat s with
    | Some rest => rep +++ rest
    | None => match s with
              | EmptyString => EmptyString
              | String c s' => String c (Ui.replace_first pat rep s')
              end
    end.
Proof. destruct s; reflexivity. Qed.

Lemma strip_prefix_some (pat s rest : string) :
  Ui.strip_prefix pat s = Some rest -> s = pat +++ rest.
Proof.
  revert s. induction pat as [|p pat IH]; intros s; cbn [Ui.strip_prefix String.append].
  - intros [= <-]. reflexivity.
  - destruct s as [|c s]; [discriminate|].
    destruct (Ascii.eqb p c) eqn:Hc; [|discriminate].
    apply Ascii.eqb_eq in Hc. subst c. intros Hs. rewrite (IH _ Hs). reflexivity.
Qed.

Lemma strip_prefix_app_some (pat a x rest : string) :
  Ui.strip_prefix pat a = Some rest ->
  Ui.strip_prefix pat (a +++ x) = Some (rest +++ x).
Proof.
  revert a. induction pat as [|p pat IH]; intros a; cbn [Ui.strip_prefix].
  - intros [= <-]. reflexivity.
  - destruct a as [|c a]; [discriminate|]. cbn [String.append].
    destruct (Ascii.eqb p c); [apply IH|discriminate].
Qed.

Lemma strip_prefix_none_app (pat a x : string) :
  String.length pat <= String.length a ->
  Ui.strip_prefix pat a = None ->
  Ui.strip_prefix pat (a +++ x) = None.
Proof.
  revert a. induction pat as [|p pat IH]; intros a Hlen; cbn [Ui.strip_prefix].
  - discriminate.
  - destruct a as [|c a]; [cbn in Hlen; lia|]. cbn [String.append].
    destruct (Ascii.eqb p c); [|reflexivity].
    apply IH. cbn in Hlen. lia.
Qed.

Lemma occurs_eq (pat s : string) :
  occurs pat s
  = match Ui.strip_prefix pat s with
    | Some _ => true
    | None => match s with
              | EmptyString => false
              | String _ rest => occurs pat rest
              end
    end.
Proof. destruct s; reflexivity. Qed.

(** The first occurrence of the pattern [init +++ last] is the one replaced:
    the pattern does not start in [pre] when it does not occur in [pre]
    followed by all of the pattern but its last character. *)
Lemma replace_first_first (init rep pre post : string) (last : ascii) :
  occurs (init +++ String last EmptyString) (pre +++ init) = false ->
  Ui.replace_first (init +++ String last EmptyString) rep
                   (pre +++ (init +++ String last EmptyString) +++ post)
  = pre +++ rep +++ post.
Proof.
  set (pat := init +++ String last EmptyString).
  induction pre as [|c pre IH]; intros Hocc.
  - cbn [String.append]. rewrite replace_first_eq, strip_prefix_app. reflexivity.
  - rewrite occurs_eq in Hocc.
    destruct (Ui.strip_prefix pat (String c pre +++ init)) eqn:Hs; [discriminate Hocc|].
    cbn [String.append] in Hocc |- *.
    rewrite replace_first_eq.
    assert (Hnone : Ui.strip_prefix pat (String c (pre +++ pat +++ post)) = None).
    { change (String c (pre +++ pat +++ post)) with (String c pre +++ pat +++ post).
      unfold pat at 2.
      rewrite (append_associative init), <- (append_associative (String c pre)).
      apply strip_prefix_none_app; [|exact Hs].
      unfold pat. rewrite !append_length. cbn. lia. }
    rewrite Hnone, (IH Hocc). reflexivity.
Qed.

Lemma first_occurrence (init : string) (last : ascii) (s : string) :
  occurs (init +++ String last EmptyString) init = false ->
  occurs (init +++ String last EmptyString) s = true ->
  exists pre post,
    s = pre +++ (init +++ String last EmptyString) +++ post
    /\ occurs (init +++ String last EmptyString) (pre +++ init) = false.
Proof.
  set (pat := init +++ String last EmptyString). intros Hinit.
  induction s as [|c s IH]; rewrite occurs_eq.
  - destruct (Ui.strip_prefix pat EmptyString) as [rest|] eqn:Hs; [|discriminate].
    intros _. exists EmptyString, rest. split; [|exact Hinit].
    exact (strip_prefix_some _ _ _ Hs).
  - destruct (Ui.strip_prefix pat (String c s)) as [rest|] eqn:Hs.
    + intros _. exists EmptyString, rest. split; [|exact Hinit].
      exact (strip_prefix_some _ _ _ Hs).
    + intros Hocc. destruct (IH Hocc) as (pre & post & -> & Hpre).
      exists (String c pre), post. split; [reflexivity|].
      rewrite occurs_eq.
      destruct (Ui.strip_prefix pat (String c pre +++ init)) as [rest|] eqn:Hs';
        [|exact Hpre].
      exfalso.
      pose proof (strip_prefix_app_some pat _ (String last EmptyString +++ post) _ Hs')
        as Hsome.
      rewrite append_associative, <- (append_associative init) in Hsome.
      fold pat in Hsome. cbn [String.append] in Hsome, Hs.
      rewrite Hs in Hsome. discriminate Hsome.
Qed.

(** X16: the name a result is downloaded under.  A file name with no
    [.jsonl] in it, such as that of a [.json] file, is kept as it is, so the
    result is offered under the name of the upload.  Any other name is cut at
    its first [.jsonl], which becomes [.embedded.jsonl]; what follows it,
    also another [.jsonl], is kept. *)
Theorem X16_download_name (fileName : string) :
  (occurs ".jsonl" fileName = false -> Ui.download_name fileName = fileName)
  /\ (occurs ".jsonl" fileName = true ->
      exists stem rest,
        fileName = stem +++ ".jsonl" +++ rest
        /\ occurs ".jsonl" (stem +++ ".json") = false
        /\ Ui.download_name fileName = stem +++ ".embedded.jsonl" +++ rest)
  /\ (forall stem rest,
         occurs ".jsonl" (stem +++ ".json") = false ->
         Ui.download_name (stem +++ ".jsonl" +++ rest)
         = stem +++ ".embedded.jsonl" +++ rest).
Proof.
  split; [apply replace_first_absent|]. split.
  - intros Hocc.
    destruct (first_occurrence ".json" "l"%char fileName eq_refl Hocc)
      as (stem & rest & -> & Hfirst).
    exists stem, rest. split; [reflexivity|]. split; [exact Hfirst|].
    exact (replace_first_first ".json" ".embedded.jsonl" stem rest "l"%char Hfirst).
  - intros stem rest Hfirst.
    exact (replace_first_first ".json" ".embedded.jsonl" stem rest "l"%char Hfirst).
Qed.

(** ** The batch script *)

Lemma ends_with_app (suffix a : string) : Sh.ends_with suffix (a +++ suffix) = true.
Proof.
  induction a as [|c a IH]; cbn [String.append].
  - destruct suffix; cbn [Sh.ends_with]; rewrite String.eqb_refl; reflexivity.
  - cbn [Sh.ends_with]. rewrite IH. apply orb_true_r.
Qed.

Lemma output_file_suffix (path : string) :
  Sh.ends_with Sh.OUTPUT_SUFFIX (Sh.output_file path) = true.
Proof.
  unfold Sh.output_file. cbn zeta.
  rewrite <- !append_associative. apply ends_with_app.
Qed.

Lemma after_last_slash_plain (s : string) :
  has_slash s = false -> Sh.after_last_slash s = s.
Proof.
  unfold has_slash, chars.
  destruct s as [|c s]; [reflexivity|].
  cbn [Sh.after_last_slash list_ascii_of_string existsb].
  intros Hs. apply orb_false_iff in Hs as [Hc Hs].
  rewrite Ascii.eqb_sym in Hc. rewrite Hc, Hs. reflexivity.
Qed.

Lemma after_last_slash_dir (name : string) :
  has_slash name = false ->
  Sh.after_last_slash (Sh.INPUT_DIR +++ "/" +++ name) = name.
Proof.
  intros Hn. cbn. apply after_last_slash_plain. exact Hn.
Qed.

Lemma eqb_longer (c : ascii) (a suffix : string) :
  String.eqb (String c (a +++ suffix)) suffix = false.
Proof.
  apply String.eqb_neq. intros Heq.
  apply (f_equal String.length) in Heq. cbn in Heq.
  rewrite append_length in Heq. lia.
Qed.

Lemma strip_suffix_app (suffix stem : string) :
  Sh.strip_suffix suffix (stem +++ suffix) = Some stem.
Proof.
  induction stem as [|c stem IH]; cbn [String.append].
  - destruct suffix; cbn [Sh.strip_suffix]; rewrite String.eqb_refl; reflexivity.
  - cbn [Sh.strip_suffix]. rewrite eqb_longer, IH. reflexivity.
Qed.

Lemma has_slash_app (a b : string) : has_slash (a +++ b) = has_slash a || has_slash b.
Proof.
  unfold has_slash. rewrite chars_append. apply existsb_app.
Qed.

Lemma command_substitution_plain (s : string) :
  ~ In Str.newline (chars s) -> Sh.command_substitution s = s.
Proof.
  induction s as [|c s IH]; [reflexivity|].
  intros Hn. cbn [Sh.command_substitution].
  rewrite IH by (intros Hin; apply Hn; right; exact Hin).
  destruct (Ascii.eqb c Str.newline) eqn:Hc.
  - apply Ascii.eqb_eq in Hc. exfalso. apply Hn. left. exact Hc.
  - rewrite andb_false_r. reflexivity.
Qed.

(** The output of [jsonl/stem.jsonl] is [jsonl/stem.embedded.jsonl], the stem
    without the newlines it ends in. *)
Lemma output_file_of_stem (c : ascii) (stem : string) :
  has_slash (String c stem) = false ->
  Sh.output_file (Sh.INPUT_DIR +++ "/" +++ String c stem +++ ".jsonl")
  = Sh.INPUT_DIR +++ "/" +++ Sh.command_substitution (String c stem) +++ Sh.OUTPUT_SUFFIX.
Proof.
  intros Hs. unfold Sh.output_file, Sh.basename. cbn zeta.
  rewrite after_last_slash_dir
    by (rewrite has_slash_app, Hs; reflexivity).
  rewrite strip_suffix_app. reflexivity.
Qed.

(** X17: the batch script never feeds on its own results: every output file
    it names ends in [.embedded.jsonl], which the loop skips, so no invocation
    has its input as output and a run on the outputs of a run invokes nothing.
    For an input [jsonl/stem.jsonl] the output is [jsonl/stem.embedded.jsonl]
    with the stem cut before the newlines it ends in, so two inputs without
    newlines in their names never share an output. *)
Theorem X17_batch_script (paths : list string) (c c' : ascii) (stem stem' : string) :
  Forall (fun io => Sh.ends_with Sh.OUTPUT_SUFFIX (fst io) = false
                    /\ Sh.ends_with Sh.OUTPUT_SUFFIX (snd io) = true
                    /\ fst io <> snd io
                    /\ In (fst io) paths) (Sh.invocations paths)
  /\ Sh.invocations (map snd (Sh.invocations paths)) = []
  /\ (has_slash (String c stem) = false ->
      Sh.output_file (Sh.INPUT_DIR +++ "/" +++ String c stem +++ ".jsonl")
      = Sh.INPUT_DIR +++ "/" +++ Sh.command_substitution (String c stem)
        +++ Sh.OUTPUT_SUFFIX)
  /\ (has_slash (String c stem) = false -> has_slash (String c' stem') = false ->
      ~ In Str.newline (chars (String c stem)) ->
      ~ In Str.newline (chars (String c' stem')) ->
      Sh.output_file (Sh.INPUT_DIR +++ "/" +++ String c stem +++ ".jsonl")
      = Sh.output_file (Sh.INPUT_DIR +++ "/" +++ String c' stem' +++ ".jsonl") ->
      String c stem = String c' stem').
Proof.
  split; [|split; [|split]].
  - unfold Sh.invocations. apply Forall_forall. intros [input output] Hin.
    apply in_map_iff in Hin as (path & Heq & Hin). inversion Heq; subst.
    apply filter_In in Hin as [Hin Hskip]. cbn [fst snd].
    assert (Hin_skip : Sh.ends_with Sh.OUTPUT_SUFFIX input = false)
      by (destruct (Sh.ends_with Sh.OUTPUT_SUFFIX input); [discriminate Hskip|reflexivity]).
    split; [exact Hin_skip|]. split; [apply output_file_suffix|].
    split; [|exact Hin].
    intros Heq'. pose proof (output_file_suffix input) as Ho.
    rewrite <- Heq' in Ho. congruence.
  - unfold Sh.invocations. rewrite map_map. cbn [snd].
    induction (filter _ paths) as [|p ps IH]; [reflexivity|].
    cbn [map filter]. rewrite output_file_suffix. cbn [negb]. exact IH.
  - apply output_file_of_stem.
  - intros Hs Hs' Hn Hn' Heq.
    rewrite (output_file_of_stem c stem Hs), (output_file_of_stem c' stem' Hs') in Heq.
    rewrite (command_substitution_plain _ Hn), (command_substitution_plain _ Hn') in Heq.
    cbn in Heq. inversion Heq as [[Hc Hstem]].
    f_equal.
    revert Hstem. clear. revert stem'.
    induction stem as [|a stem IH]; intros [|a' stem']; cbn; intros Heq;
      try reflexivity.
    + exfalso. apply (f_equal String.length) in Heq.
      cbn in Heq. rewrite append_length in Heq. cbn in Heq. lia.
    + exfalso. apply (f_equal String.length) in Heq.
      cbn in Heq. rewrite append_length in Heq. cbn in Heq. lia.
    + inversion Heq. f_equal. apply IH. assumption.
Qed.

(** ** Results to download *)

Lemma final_item_linked (H : Host) (cfg : App.config)
      (fetch : nat -> App.request -> fetch_result) (totalSize : nat)
      (lines : list string) (x : App.file_item) :
  let f := App.final_item x (App.processFile H cfg fetch totalSize lines) in
  App.status f = App.st_done -> exists url, App.resultUrl f = Some url.
Proof.
  unfold App.processFile, App.final_item.
  set (st := App.run_loop H cfg fetch totalSize lines App.initial_state).
  destruct (0 <? length (App.batch st)).
  - destruct (App.processBatch H cfg fetch (App.batch st) (App.batchRecords st)
                (App.processedLines st) (App.calls st)) as [[out'|e] calls'];
      cbn [App.finish App.fail App.run_output App.run_updates];
      rewrite fold_left_app; cbn [fold_left];
      unfold App.updateFileStatus at 1 3;
      cbn [App.u_status App.u_resultUrl App.or_else App.status App.resultUrl].
    + intros _. eexists. reflexivity.
    + discriminate.
  - cbn [App.finish App.run_output App.run_updates].
    rewrite fold_left_app. cbn [fold_left].
    unfold App.updateFileStatus at 1 3.
    cbn [App.u_status App.u_resultUrl App.or_else App.status App.resultUrl].
    intros _. eexists. reflexivity.
Qed.

Lemma ui_processFile_linked (H : Host) (cfg : App.config)
      (fetch : nat -> App.request -> fetch_result)
      (fileItem : Ui.entry) (files : list Ui.entry) :
  Forall linked files -> Forall linked (Ui.processFile H cfg fetch fileItem files).
Proof.
  intros Hall. rewrite ui_processFile_spec.
  induction Hall as [|f fs Hf _ IH]; cbn [map]; constructor; [|exact IH].
  destruct (String.eqb (Ui.id f) (Ui.id fileItem)); [|exact Hf].
  unfold linked. cbn [Ui.item]. apply final_item_linked.
Qed.

Lemma process_all_linked (H : Host) (cfg : App.config)
      (fetch_for : nat -> nat -> App.request -> fetch_result)
      (pendingFiles : list Ui.entry) :
  forall k files,
    Forall linked files -> Forall linked (Ui.process_all H cfg fetch_for k pendingFiles files).
Proof.
  induction pendingFiles as [|f rest IH]; intros k files Hall; cbn [Ui.process_all];
    [exact Hall|].
  apply IH, ui_processFile_linked, Hall.
Qed.

(** X18: [downloadAll] never clicks a link without a result.  That every
    entry which is [done] has a [resultUrl] holds for the empty list and is
    kept by [addFiles], [removeFile], [clearAll] and [startProcessing],
    whatever the provider does; and on such a list every download of
    [downloadAll] has its link. *)
Theorem X18_downloads_have_results (H : Host) (cfg : App.config)
        (fetch_for : nat -> nat -> App.request -> fetch_result)
        (fileList : list (Ui.File * string)) (isProcessing : bool) (i : string)
        (files : list Ui.entry) :
  Forall linked files ->
  Forall linked (Ui.addFiles fileList files)
  /\ Forall linked (Ui.removeFile isProcessing i files)
  /\ Forall linked (Ui.clearAll isProcessing files)
  /\ Forall linked (Ui.startProcessing H cfg fetch_for files)
  /\ Forall (fun download => exists url, fst download = Some url) (Ui.downloadAll files).
Proof.
  intros Hall. split; [|split; [|split; [|split]]].
  - unfold Ui.addFiles. apply Forall_app. split; [exact Hall|].
    apply Forall_forall. intros f Hin.
    apply in_map_iff in Hin as (fi & <- & _).
    unfold linked. cbn [Ui.item App.new_item App.status]. discriminate.
  - unfold Ui.removeFile. destruct isProcessing; [exact Hall|].
    apply Forall_forall. intros f Hin. apply filter_In in Hin as [Hin _].
    rewrite Forall_forall in Hall. exact (Hall f Hin).
  - unfold Ui.clearAll. destruct isProcessing; [exact Hall|apply Forall_nil].
  - apply process_all_linked. exact Hall.
  - unfold Ui.downloadAll. apply Forall_forall. intros d Hin.
    apply in_map_iff in Hin as (f & <- & Hin).
    apply filter_In in Hin as [Hin Hdone].
    rewrite Forall_forall in Hall. cbn [fst]. apply (Hall f Hin).
    destruct (App.status (Ui.item f)); try discriminate Hdone. reflexivity.
Qed.

(** ** The properties at the inputs of the examples *)

Lemma parse_known_numbers (docs : list json) :
  forallb numbers_on_one_line docs = true ->
  parses_numbers_on_one_line (Demo.host docs).
Proof.
  intros Hall text v Hparse. cbn [JSON_parse Demo.host] in Hparse.
  apply find_some in Hparse as [Hin _].
  rewrite forallb_forall in Hall. apply Hall. exact Hin.
Qed.

Lemma X4_witness :
  Ui.lineIterator cut_chunks = cut_lines
  /\ file_size (Ui.lineIterator cut_chunks)
     = String.length (content cut_chunks) + 1
       - (if Str.is_empty (content cut_chunks) then 1 else 0).
Proof.
  apply (X4_lineIterator_of_join cut_chunks cut_lines).
  - repeat (apply Forall_cons;
            [split; [reflexivity|intros Hin; cbn in Hin; intuition discriminate]|]).
    apply Forall_nil.
  - reflexivity.
Defined.

Lemma X5_witness :
  Forall proper_line three_output
  /\ forall chunks', content chunks' = App.blob_text three_output ->
                     Ui.lineIterator chunks' = three_output.
Proof.
  apply (X5_output_is_line_delimited three_host App.default_config (Demo.stub e01)
           (file_size three_lines) three_chunks three_output).
  - apply parse_known_numbers. vm_compute. reflexivity.
  - vm_compute. reflexivity.
Defined.

Lemma X10_witness :
  App.status (App.final_item App.new_item twenty_run) = App.st_done
  /\ App.processed (App.final_item App.new_item twenty_run)
     = length (counted_lines twenty_host twenty_lines)
  /\ App.total (App.final_item App.new_item twenty_run)
     = length (counted_lines twenty_host twenty_lines)
  /\ length (counted_lines twenty_host twenty_lines) <= length twenty_lines.
Proof.
  destruct (X10_processed_count twenty_host App.default_config (Demo.stub e01)
              (file_size twenty_lines) twenty_lines App.new_item)
    as (Hs & Hp & Ht & Hle & _).
  - exact stub_answers_twenty.
  - vm_compute. reflexivity.
  - split; [exact Hs|]. split; [exact Hp|]. split; [exact Ht|exact Hle].
Defined.

Lemma X14_witness :
  length [["1"]; ["1"]] = length two_texts
  /\ two_texts = map JStr (strings_of two_texts)
  /\ map Ok [["1"]; ["1"]]
     = extractor_outputs unit_runtime local_model
         (length (Local.extractions Local.empty_state)) (strings_of two_texts)
  /\ Local.extractions two_texts_state
     = Local.extractions Local.empty_state
       ++ map (fun s => (local_model, Local.clean s)) (strings_of two_texts).
Proof.
  apply (X14_local_results unit_runtime local_model two_texts Local.empty_state
           two_texts_state [["1"]; ["1"]]).
  vm_compute. reflexivity.
Defined.

Lemma X15_witness :
  cache_consistent
    (snd (Local.embedTextsLocally unit_runtime (Some (JArr two_texts)) local_model
                                  Local.empty_state))
  /\ Local.loads
       (snd (Local.embedTextsLocally unit_runtime (Some (JArr two_texts)) local_model
                                     Local.empty_state))
     = [local_model].
Proof.
  destruct (X15_local_model_cache unit_runtime (Some (JArr two_texts)) local_model
              Local.empty_state)
    as (Hcache & _ & Hnew & _).
  - split; [reflexivity|apply NoDup_nil].
  - split; [exact Hcache|].
    destruct (Hnew eq_refl) as [_ Hloads]. exact (Hloads eq_refl).
Defined.

Lemma X16_witness :
  Ui.download_name "data.json" = "data.json"
  /\ Ui.download_name "my.data.jsonl" = "my.data.embedded.jsonl"
  /\ Ui.download_name "a.jsonl.jsonl" = "a.embedded.jsonl.jsonl".
Proof.
  split; [exact (proj1 (X16_download_name "data.json") eq_refl)|].
  split.
  - exact (proj2 (proj2 (X16_download_name EmptyString)) "my.data" EmptyString eq_refl).
  - exact (proj2 (proj2 (X16_download_name EmptyString)) "a" ".jsonl" eq_refl).
Defined.

Lemma X17_witness :
  Sh.output_file "jsonl/data.jsonl" = "jsonl/data.embedded.jsonl"
  /\ Sh.invocations ["jsonl/data.jsonl"; "jsonl/data.embedded.jsonl"]
     = [("jsonl/data.jsonl", "jsonl/data.embedded.jsonl")].
Proof.
  destruct (X17_batch_script ["jsonl/data.jsonl"; "jsonl/data.embedded.jsonl"]
              "d"%char "d"%char "ata" "ata")
    as (_ & _ & Hname & _).
  split; [exact (Hname eq_refl)|reflexivity].
Defined.

Lemma X18_witness :
  Forall (fun download => exists url, fst download = Some url)
         (Ui.downloadAll
            (Ui.startProcessing twenty_host App.default_config (fun _ => Demo.stub e01)
                                (Ui.addFiles two_uploads [])))
  /\ map snd (Ui.downloadAll
                (Ui.startProcessing twenty_host App.default_config
                                    (fun _ => Demo.stub e01)
                                    (Ui.addFiles two_uploads [])))
     = ["faq.embedded.jsonl"; "empty.json"].
Proof.
  destruct (X18_downloads_have_results twenty_host App.default_config
              (fun _ => Demo.stub e01) [] false EmptyString
              (Ui.addFiles two_uploads []))
    as (_ & _ & _ & Hrun & _).
  - repeat (apply Forall_cons; [intros Hdone; discriminate Hdone|]). apply Forall_nil.
  - destruct (X18_downloads_have_results twenty_host App.default_config
                (fun _ => Demo.stub e01) [] false EmptyString _ Hrun)
      as (_ & _ & _ & _ & Hdown).
    split; [exact Hdown|vm_compute; reflexivity].
Defined.
